(** * School photo gallery: admin pages and lightbox

    A shallow embedding of the gallery's client code: the photo lightbox of
    the public pages and the handlers of the admin pages (login, dashboard,
    album editor with its upload queue).  The browser and the backend SDK are
    the environment: every handler is a computation over a world that records
    what the handler did to them. *)

From Stdlib Require Import Ascii String DecimalString ZArith Lia Bool Arith PeanoNat.
From Stdlib Require Import Permutation List.
Import ListNotations.

Local Open Scope string_scope.
Local Open Scope list_scope.

(** ** JavaScript strings

    A string is a sequence of 16-bit code units.  It is modelled by bytes, one
    [ascii] per byte: each code unit by the one to three bytes that UTF-8
    gives the character of that number, so that a string of characters below
    U+0080, like the literals of the code, is modelled by itself, and a
    character beyond U+FFFF, which is two code units, by six bytes.  The bytes
    of a code unit never begin inside those of another; concatenating,
    comparing, searching and splitting the bytes is therefore concatenating,
    comparing, searching and splitting the code units. *)

Module Js.

(** [s.startsWith(p)] *)
Definition startsWith (s p : string) : bool := String.prefix p s.

(** [s.split(sep)] for a non-empty separator: the pieces between the
    successive occurrences of [sep], found from left to right.  [skip]
    counts the bytes of a matched separator still to pass over and [piece]
    is the piece being collected. *)
Fixpoint split_from (sep : string) (skip : nat) (piece : string) (s : string)
  {struct s} : list string :=
  match s with
  | EmptyString => [piece]
  | String c s' =>
      match skip with
      | S k => split_from sep k piece s'
      | O =>
          if String.prefix sep s
          then piece :: split_from sep (String.length sep - 1) "" s'
          else split_from sep 0 (piece ++ String c "")%string s'
      end
  end.

Definition split (s sep : string) : list string := split_from sep 0 "" s.

(** [a.pop()] on the array [split] returns, which is never empty. *)
Definition pop (a : list string) : string := last a "".

(** Truthiness of a string: only the empty string is falsy. *)
Definition truthy (s : string) : bool :=
  match s with EmptyString => false | _ => true end.

(** The white space of [\s], white space and line terminators, is U+0009
    to U+000D and U+0020, of one byte each; U+00A0, of two bytes (194, 160);
    U+1680 (225, 154, 128), U+2000 to U+200A (226, 128, 128 to 138), U+2028,
    U+2029 and U+202F (226, 128, 168, 169 and 175), U+205F (226, 129, 159),
    U+3000 (227, 128, 128) and U+FEFF (239, 187, 191), of three bytes each. *)
Definition space1 (b1 : nat) : bool :=
  ((b1 =? 32) || ((9 <=? b1) && (b1 <=? 13)))%nat.

Definition space2 (b1 b2 : nat) : bool :=
  ((b2 =? 160) && (b1 =? 194))%nat.                                 (* U+00A0 *)

Definition space3 (b1 b2 b3 : nat) : bool :=
  (((b3 =? 128) && (b2 =? 154) && (b1 =? 225)) ||                   (* U+1680 *)
   ((128 <=? b3) && (b3 <=? 138) && (b2 =? 128) && (b1 =? 226)) ||  (* U+2000 to U+200A *)
   ((b3 =? 168) && (b2 =? 128) && (b1 =? 226)) ||                   (* U+2028 *)
   ((b3 =? 169) && (b2 =? 128) && (b1 =? 226)) ||                   (* U+2029 *)
   ((b3 =? 175) && (b2 =? 128) && (b1 =? 226)) ||                   (* U+202F *)
   ((b3 =? 159) && (b2 =? 129) && (b1 =? 226)) ||                   (* U+205F *)
   ((b3 =? 128) && (b2 =? 128) && (b1 =? 227)) ||                   (* U+3000 *)
   ((b3 =? 191) && (b2 =? 187) && (b1 =? 239)))%nat.                (* U+FEFF *)

(** The number of bytes of the white-space character [s] begins with, [0]
    when it begins with none. *)
Definition white_space (s : string) : nat :=
  match s with
  | EmptyString => 0
  | String c1 s1 =>
      if space1 (nat_of_ascii c1) then 1
      else
        match s1 with
        | EmptyString => 0
        | String c2 s2 =>
            if space2 (nat_of_ascii c1) (nat_of_ascii c2) then 2
            else
              match s2 with
              | EmptyString => 0
              | String c3 _ =>
                  if space3 (nat_of_ascii c1) (nat_of_ascii c2) (nat_of_ascii c3)
                  then 3 else 0
              end
        end
  end.

(** [s.replace(/\s/g, '_')]: every white-space character, whatever the
    number of its bytes, becomes one ['_'].  [skip] counts the bytes of a
    replaced character still to pass over. *)
Fixpoint replace_from (skip : nat) (s : string) {struct s} : string :=
  match s with
  | EmptyString => EmptyString
  | String c s' =>
      match skip with
      | S k => replace_from k s'
      | O =>
          match white_space s with
          | S k => String "_" (replace_from k s')
          | O => String c (replace_from 0 s')
          end
      end
  end.

Definition replace_spaces (s : string) : string := replace_from 0 s.

(** A count interpolated in a template literal. *)
Definition of_nat (n : nat) : string := NilZero.string_of_uint (Nat.to_uint n).

(** An integer interpolated in a template literal. *)
Definition of_Z (z : Z) : string := NilZero.string_of_int (Z.to_int z).

Definition eqb_opt (a b : option string) : bool :=
  match a, b with
  | Some x, Some y => String.eqb x y
  | None, None => true
  | _, _ => false
  end.

End Js.

(** ** Data model (types.ts) *)

Module Album.
Record t := {
  id : string;
  title : string;
  description : option string;
  cover_image_url : option string;
  created_at : string;
  photo_count : option Z }.
End Album.

Module Photo.
Record t := {
  id : string;
  album_id : string;
  image_url : string;
  caption : option string;
  created_at : string }.
End Photo.

Module ToastType.
Inductive t := success | error | info.
End ToastType.

(** ** The photo lightbox (public pages) *)

Module Lightbox.

(** The updater of [goToPrevious]:
    [prevIndex === 0 ? photos.length - 1 : prevIndex - 1]. *)
Definition goToPrevious (photos : list Photo.t) (prevIndex : Z) : Z :=
  if (prevIndex =? 0)%Z then (Z.of_nat (length photos) - 1)%Z
  else (prevIndex - 1)%Z.

(** The updater of [goToNext]:
    [prevIndex === photos.length - 1 ? 0 : prevIndex + 1]. *)
Definition goToNext (photos : list Photo.t) (prevIndex : Z) : Z :=
  if (prevIndex =? Z.of_nat (length photos) - 1)%Z then 0%Z
  else (prevIndex + 1)%Z.

(** What the user can do to an open lightbox: the two buttons and the
    keyboard. *)
Inductive input :=
| click_previous
| click_next
| keydown (key : string).

Record state := { currentIndex : Z; closed : bool }.

(** [useState(startIndex)] *)
Definition open (startIndex : Z) : state :=
  {| currentIndex := startIndex; closed := false |}.

Definition handleKeyDown (photos : list Photo.t) (key : string) (s : state) : state :=
  let s1 :=
    if String.eqb key "ArrowLeft"
    then {| currentIndex := goToPrevious photos (currentIndex s); closed := closed s |}
    else s in
  let s2 :=
    if String.eqb key "ArrowRight"
    then {| currentIndex := goToNext photos (currentIndex s1); closed := closed s1 |}
    else s1 in
  if String.eqb key "Escape"
  then {| currentIndex := currentIndex s2; closed := true |}
  else s2.

Definition react (photos : list Photo.t) (s : state) (i : input) : state :=
  match i with
  | click_previous =>
      {| currentIndex := goToPrevious photos (currentIndex s); closed := closed s |}
  | click_next =>
      {| currentIndex := goToNext photos (currentIndex s); closed := closed s |}
  | keydown key => handleKeyDown photos key s
  end.

Definition run (photos : list Photo.t) (startIndex : Z) (inputs : list input) : state :=
  fold_left (react photos) inputs (open startIndex).

(** The index designates a photo of the list. *)
Definition in_range (photos : list Photo.t) (i : Z) : Prop :=
  (0 <= i <= Z.of_nat (length photos) - 1)%Z.

End Lightbox.

(** ** Admin pages: data *)

(** The error objects of the SDK ([AuthError], [PostgrestError],
    [StorageError]); the pages read their [message] only. *)
Record Error := { message : string }.

(** Truthiness of a value that is an object or null. *)
Definition is_some {A} (o : option A) : bool :=
  match o with Some _ => true | None => false end.

Module File.
(** The fields of a DOM [File] the pages read. *)
Record t := { name : string; type : string; size : Z }.
End File.

Module Status.
(** ['queued' | 'uploading' | 'success' | 'error'] *)
Inductive t := queued | uploading | success | error.

Definition eqb (a b : t) : bool :=
  match a, b with
  | queued, queued | uploading, uploading | success, success | error, error => true
  | _, _ => false
  end.
End Status.

Module UploadableFile.
Record t := {
  id : string;
  file : File.t;
  previewUrl : string;
  status : Status.t;
  error : option string }.

(** [{...f, status: s}] *)
Definition with_status (s : Status.t) (f : t) : t :=
  {| id := id f; file := file f; previewUrl := previewUrl f;
     status := s; error := error f |}.

(** [{...f, status: 'error', error: m}] *)
Definition with_error (m : string) (f : t) : t :=
  {| id := id f; file := file f; previewUrl := previewUrl f;
     status := Status.error; error := Some m |}.
End UploadableFile.

Module PartialAlbum.
(** [Partial<Album>]: [None] is an absent field; a field of type
    [string | null] that is present holds [None] for [null]. *)
Record t := {
  id : option string;
  title : option string;
  description : option (option string);
  cover_image_url : option (option string);
  created_at : option string;
  photo_count : option Z }.

(** [{ title: '', description: '' }] *)
Definition initial : t :=
  {| id := None; title := Some ""; description := Some (Some "");
     cover_image_url := None; created_at := None; photo_count := None |}.

Definition of_album (a : Album.t) : t :=
  {| id := Some (Album.id a); title := Some (Album.title a);
     description := Some (Album.description a);
     cover_image_url := Some (Album.cover_image_url a);
     created_at := Some (Album.created_at a);
     photo_count := Album.photo_count a |}.

(** [{...prev, cover_image_url: url}] *)
Definition with_cover (url : string) (a : t) : t :=
  {| id := id a; title := title a; description := description a;
     cover_image_url := Some (Some url);
     created_at := created_at a; photo_count := photo_count a |}.

(** [album.cover_image_url === url] *)
Definition cover_is (a : t) (url : string) : bool :=
  match cover_image_url a with
  | Some (Some c) => String.eqb c url
  | _ => false
  end.
End PartialAlbum.

(** ** The backend SDK

    One constructor per request the admin pages send, indexed by the type of
    what the SDK hands back. *)

Module Sdk.

(** [{ data, error }] *)
Record Response (D : Type) := { data : option D; error : option Error }.
Arguments data {D} _.
Arguments error {D} _.

(** [{ count, error }] *)
Record CountResponse := { count : option Z; count_error : option Error }.

(** The result of a query ending in [.single()]: the row or an error. *)
Inductive Single (D : Type) := row (d : D) | failed (e : Error).
Arguments row {D} _.
Arguments failed {D} _.

(** A row handed to [from('photos').insert]. *)
Record NewPhoto := { image_url : string; album_id : string }.

Inductive call : Type -> Type :=
(* supabase.auth *)
| auth_signOut : call (option Error)
| auth_signInWithPassword (email password : string) : call (option Error)
(* supabase.rpc('get_albums_with_photo_count') *)
| rpc_get_albums_with_photo_count : call (Response (list Album.t))
(* supabase.from('albums') *)
| albums_select_single (id : string) : call (Single Album.t)
| albums_insert (title : option string) (description : option (option string)) :
    call (Single Album.t)
| albums_update (id : option string) (title : option string)
    (description : option (option string)) : call (option Error)
| albums_update_cover (id : option string) (cover_image_url : option string) :
    call (option Error)
| albums_delete (id : string) : call (option Error)
(* supabase.from('photos') *)
| photos_select_count : call CountResponse
| photos_select_image_url (album_id : string) : call (Response (list string))
| photos_select_ordered (album_id : string) : call (Response (list Photo.t))
| photos_insert (rows : list NewPhoto) : call (option Error)
| photos_update_caption (id : string) (caption : string) : call (option Error)
| photos_delete (id : string) : call (option Error)
(* supabase.storage.from('gallery') *)
| storage_upload (fileName : string) (file : File.t) : call (option Error)
| storage_getPublicUrl (fileName : string) : call string
| storage_remove (paths : list string) : call (option Error).

End Sdk.

(** ** Worlds

    What a handler does to its environment is appended to the [trace]; an
    SDK call is recorded with the answer it got. *)

Inductive Event :=
| EvCall (X : Type) (c : Sdk.call X) (r : X)
| EvToast (message : string) (type : ToastType.t)
| EvNavigate (to : string)
| EvConfirm (message : string) (answer : bool)
| EvConsoleError (label : string)
| EvDateNow (ms : Z)
| EvRandomUUID (uuid : string)
| EvCreateObjectURL (file : File.t) (url : string)
| EvRevokeObjectURL (url : string)
| EvSetTimeout (ms : Z).
Arguments EvCall {X} c r.

(** Work a handler leaves for a later turn of the event loop: the rest of an
    [async] function that was started without [await], the rest of the upload
    loop, a timer callback. *)
Inductive Task :=
| resume_fetchAlbumsAndStats
    (albumsResult : Sdk.Response (list Album.t)) (photosCountResult : Sdk.CountResponse)
| resume_fetchAlbumData (albumId : string) (albumResult : Sdk.Single Album.t)
| resume_handleUploadAll
    (albumId : string) (rest : list UploadableFile.t) (successCount errorCount : nat)
| timeout_clearSuccess.

(** The environment: the backend answers a call knowing all that happened
    before, [crypto.randomUUID] and [URL.createObjectURL] answer their n-th
    call, the user answers [window.confirm] and the clock answers
    [Date.now]. *)
Record Env := {
  respond : forall X, list Event -> Sdk.call X -> X;
  randomUUID : nat -> string;
  createObjectURL : nat -> File.t -> string;
  confirm : list Event -> string -> bool;
  now : list Event -> Z }.

Record World (S : Type) := {
  trace : list Event;
  uuid_calls : nat;
  url_calls : nat;
  pending : list Task;
  st : S }.
Arguments trace {S} _.
Arguments uuid_calls {S} _.
Arguments url_calls {S} _.
Arguments pending {S} _.
Arguments st {S} _.

(** ** The handler monad *)

Definition M (S A : Type) : Type := Env -> World S -> A * World S.

Definition ret {S A} (a : A) : M S A := fun _ w => (a, w).

Definition bind {S A B} (m : M S A) (k : A -> M S B) : M S B :=
  fun env w => let (a, w') := m env w in k a env w'.

Declare Scope handler_scope.
Delimit Scope handler_scope with handler.
Notation "x <- c1 ;; c2" := (bind c1 (fun x => c2))
  (at level 61, c1 at next level, right associativity) : handler_scope.
Notation "c1 ;; c2" := (bind c1 (fun _ => c2))
  (at level 61, right associativity) : handler_scope.
Local Open Scope handler_scope.

Infix "+++" := String.append (right associativity, at level 60).

(** The world a handler leaves. *)
Definition exec {S A} (m : M S A) (env : Env) (w : World S) : World S := snd (m env w).

Section Primitives.
Context {S : Type}.

Definition emit (e : Event) : M S unit :=
  fun _ w =>
    (tt, {| trace := trace w ++ [e]; uuid_calls := uuid_calls w;
            url_calls := url_calls w; pending := pending w; st := st w |}).

Definition defer (t : Task) : M S unit :=
  fun _ w =>
    (tt, {| trace := trace w; uuid_calls := uuid_calls w;
            url_calls := url_calls w; pending := pending w ++ [t]; st := st w |}).

Definition getState : M S S := fun _ w => (st w, w).

Definition setState (f : S -> S) : M S unit :=
  fun _ w =>
    (tt, {| trace := trace w; uuid_calls := uuid_calls w;
            url_calls := url_calls w; pending := pending w; st := f (st w) |}).

(** [await] of an SDK request. *)
Definition call {X} (c : Sdk.call X) : M S X :=
  fun env w =>
    let r := respond env X (trace w) c in
    (r, {| trace := trace w ++ [EvCall c r]; uuid_calls := uuid_calls w;
           url_calls := url_calls w; pending := pending w; st := st w |}).

(** [addToast(message, type)] *)
Definition addToast (message : string) (type : ToastType.t) : M S unit :=
  emit (EvToast message type).

Definition navigate (to : string) : M S unit := emit (EvNavigate to).

Definition consoleError (label : string) : M S unit := emit (EvConsoleError label).

(** [window.confirm(message)] *)
Definition windowConfirm (message : string) : M S bool :=
  fun env w =>
    let a := confirm env (trace w) message in
    (a, {| trace := trace w ++ [EvConfirm message a]; uuid_calls := uuid_calls w;
           url_calls := url_calls w; pending := pending w; st := st w |}).

(** [Date.now()] *)
Definition dateNow : M S Z :=
  fun env w =>
    let ms := now env (trace w) in
    (ms, {| trace := trace w ++ [EvDateNow ms]; uuid_calls := uuid_calls w;
            url_calls := url_calls w; pending := pending w; st := st w |}).

(** [crypto.randomUUID()] *)
Definition cryptoRandomUUID : M S string :=
  fun env w =>
    let u := randomUUID env (uuid_calls w) in
    (u, {| trace := trace w ++ [EvRandomUUID u]; uuid_calls := Datatypes.S (uuid_calls w);
           url_calls := url_calls w; pending := pending w; st := st w |}).

(** [URL.createObjectURL(file)] *)
Definition urlCreateObjectURL (file : File.t) : M S string :=
  fun env w =>
    let u := createObjectURL env (url_calls w) file in
    (u, {| trace := trace w ++ [EvCreateObjectURL file u]; uuid_calls := uuid_calls w;
           url_calls := Datatypes.S (url_calls w); pending := pending w; st := st w |}).

(** [URL.revokeObjectURL(url)] *)
Definition urlRevokeObjectURL (url : string) : M S unit := emit (EvRevokeObjectURL url).

(** [setTimeout(callback, ms)] *)
Definition setTimeout (callback : Task) (ms : Z) : M S unit :=
  emit (EvSetTimeout ms) ;; defer callback.

Fixpoint mapM {A B} (f : A -> M S B) (l : list A) : M S (list B) :=
  match l with
  | [] => ret []
  | a :: l' => b <- f a ;; bs <- mapM f l' ;; ret (b :: bs)
  end.

Fixpoint forEach {A} (f : A -> M S unit) (l : list A) : M S unit :=
  match l with
  | [] => ret tt
  | a :: l' => f a ;; forEach f l'
  end.

(** [if (c) { m }] *)
Definition when (c : bool) (m : M S unit) : M S unit := if c then m else ret tt.

End Primitives.

(** The double quote of the messages that cite an album title. *)
Definition dquote : string := String (ascii_of_nat 34) EmptyString.

(** ** AdminLayout *)

Definition handleLogout {S} : M S unit :=
  error <- call Sdk.auth_signOut ;;
  match error with
  | Some e => addToast ("Gagal logout: " +++ message e) ToastType.error
  | None =>
      addToast "Anda berhasil logout." ToastType.success ;;
      navigate "/admin/login"
  end.

(** ** AdminLoginPage *)

Module Login.

Record state := { email : string; password : string; loading : bool }.

Definition setLoading (b : bool) : M state unit :=
  setState (fun s => {| email := email s; password := password s; loading := b |}).

Definition handleLogin : M state unit :=
  setLoading true ;;
  s <- getState ;;
  error <- call (Sdk.auth_signInWithPassword (email s) (password s)) ;;
  match error with
  | Some e => addToast (message e) ToastType.error
  | None =>
      addToast "Login berhasil!" ToastType.success ;;
      navigate "/admin"
  end ;;
  setLoading false.

End Login.

(** ** AdminDashboardPage *)

Module Dashboard.

Record state := {
  albums : list Album.t;
  albumCount : Z;
  photoCount : Z;
  loading : bool }.

Definition setLoading (b : bool) : M state unit :=
  setState (fun s => {| albums := albums s; albumCount := albumCount s;
                        photoCount := photoCount s; loading := b |}).

Definition setAlbums (l : list Album.t) : M state unit :=
  setState (fun s => {| albums := l; albumCount := albumCount s;
                        photoCount := photoCount s; loading := loading s |}).

(** [setStats(prev => ({ ...prev, albumCount: n }))] *)
Definition setAlbumCount (n : Z) : M state unit :=
  setState (fun s => {| albums := albums s; albumCount := n;
                        photoCount := photoCount s; loading := loading s |}).

(** [setStats(prev => ({ ...prev, photoCount: n }))] *)
Definition setPhotoCount (n : Z) : M state unit :=
  setState (fun s => {| albums := albums s; albumCount := albumCount s;
                        photoCount := n; loading := loading s |}).

(** [fetchAlbumsAndStats] up to its [await Promise.all]: both requests are
    sent. *)
Definition fetchAlbumsAndStats_begin
  : M state (Sdk.Response (list Album.t) * Sdk.CountResponse) :=
  setLoading true ;;
  albumsResult <- call Sdk.rpc_get_albums_with_photo_count ;;
  photosCountResult <- call Sdk.photos_select_count ;;
  ret (albumsResult, photosCountResult).

(** [fetchAlbumsAndStats] after its [await]. *)
Definition fetchAlbumsAndStats_resume
  (albumsResult : Sdk.Response (list Album.t)) (photosCountResult : Sdk.CountResponse)
  : M state unit :=
  match Sdk.error albumsResult with
  | Some e =>
      addToast ("Gagal memuat album: " +++ message e) ToastType.error ;;
      consoleError "Error fetching albums for dashboard:"
  | None =>
      match Sdk.data albumsResult with
      | Some albumsData =>
          setAlbums albumsData ;;
          setAlbumCount (Z.of_nat (length albumsData))
      | None => ret tt
      end
  end ;;
  match Sdk.count_error photosCountResult with
  | Some e =>
      addToast ("Gagal menghitung total foto: " +++ message e) ToastType.error ;;
      consoleError "Error fetching photo count for dashboard:"
  | None =>
      setPhotoCount (match Sdk.count photosCountResult with Some n => n | None => 0%Z end)
  end ;;
  setLoading false.

(** [fetchAlbumsAndStats()] called without [await]: the requests go out and
    the rest is left for later. *)
Definition fetchAlbumsAndStats : M state unit :=
  r <- fetchAlbumsAndStats_begin ;;
  defer (resume_fetchAlbumsAndStats (fst r) (snd r)).

(** [photos.map(p => p.image_url.split('/gallery/').pop()).filter(Boolean)] *)
Definition filePaths (photos : list string) : list string :=
  filter Js.truthy
    (map (fun image_url => Js.pop (Js.split image_url "/gallery/")) photos).

(** The block of [handleDelete] that deletes from storage:
    [if (photos && photos.length > 0) { ... if (filePaths.length > 0) ... }]. *)
Definition deleteFromStorage (photos : option (list string)) : M state unit :=
  match photos with
  | Some photos =>
      when (0 <? length photos)%nat
        (let paths := filePaths photos in
         when (0 <? length paths)%nat
           (storageError <- call (Sdk.storage_remove paths) ;;
            match storageError with
            | Some e =>
                addToast ("Gagal menghapus beberapa file: " +++ message e)
                  ToastType.error
            | None => ret tt
            end))
  | None => ret tt
  end.

Definition handleDelete (albumId albumTitle : string) : M state unit :=
  confirmed <- windowConfirm
    ("Apakah Anda yakin ingin menghapus album " +++ dquote +++ albumTitle +++ dquote
     +++ " beserta semua fotonya?") ;;
  if confirmed then
    photosResult <- call (Sdk.photos_select_image_url albumId) ;;
    match Sdk.error photosResult with
    | Some photosError =>
        addToast ("Gagal mendapatkan daftar foto: " +++ message photosError)
          ToastType.error
    | None =>
        deleteFromStorage (Sdk.data photosResult) ;;
        dbError <- call (Sdk.albums_delete albumId) ;;
        match dbError with
        | Some e => addToast ("Gagal menghapus album: " +++ message e) ToastType.error
        | None =>
            addToast ("Album " +++ dquote +++ albumTitle +++ dquote
                      +++ " berhasil dihapus.") ToastType.success ;;
            fetchAlbumsAndStats
        end
    end
  else ret tt.

Definition run_task (t : Task) : M state unit :=
  match t with
  | resume_fetchAlbumsAndStats a c => fetchAlbumsAndStats_resume a c
  | _ => ret tt
  end.

End Dashboard.

(** ** AdminAlbumEditorPage *)

Module Editor.

Record state := {
  albumId : option string;                 (* the route parameter *)
  album : PartialAlbum.t;
  photos : list Photo.t;
  captions : list (string * string);       (* photo id, caption; in key order *)
  loading : bool;
  saving : bool;
  isDragging : bool;
  filesToUpload : list UploadableFile.t;
  fileInput : option string }.             (* the file input's value, when mounted *)

(** [!albumId] *)
Definition isNew (s : state) : bool :=
  match albumId s with
  | Some a => negb (Js.truthy a)
  | None => true
  end.

(** The state the page mounts with. *)
Definition initial (albumId : option string) : state :=
  {| albumId := albumId; album := PartialAlbum.initial; photos := [];
     captions := [];
     loading := match albumId with Some a => Js.truthy a | None => false end;
     saving := false; isDragging := false; filesToUpload := [];
     fileInput := None |}.

Definition setAlbum (f : PartialAlbum.t -> PartialAlbum.t) : M state unit :=
  setState (fun s =>
    {| albumId := albumId s; album := f (album s); photos := photos s;
       captions := captions s; loading := loading s; saving := saving s;
       isDragging := isDragging s; filesToUpload := filesToUpload s;
       fileInput := fileInput s |}).

Definition setPhotos (l : list Photo.t) : M state unit :=
  setState (fun s =>
    {| albumId := albumId s; album := album s; photos := l;
       captions := captions s; loading := loading s; saving := saving s;
       isDragging := isDragging s; filesToUpload := filesToUpload s;
       fileInput := fileInput s |}).

Definition setCaptions (c : list (string * string)) : M state unit :=
  setState (fun s =>
    {| albumId := albumId s; album := album s; photos := photos s;
       captions := c; loading := loading s; saving := saving s;
       isDragging := isDragging s; filesToUpload := filesToUpload s;
       fileInput := fileInput s |}).

Definition setLoading (b : bool) : M state unit :=
  setState (fun s =>
    {| albumId := albumId s; album := album s; photos := photos s;
       captions := captions s; loading := b; saving := saving s;
       isDragging := isDragging s; filesToUpload := filesToUpload s;
       fileInput := fileInput s |}).

Definition setSaving (b : bool) : M state unit :=
  setState (fun s =>
    {| albumId := albumId s; album := album s; photos := photos s;
       captions := captions s; loading := loading s; saving := b;
       isDragging := isDragging s; filesToUpload := filesToUpload s;
       fileInput := fileInput s |}).

Definition setIsDragging (b : bool) : M state unit :=
  setState (fun s =>
    {| albumId := albumId s; album := album s; photos := photos s;
       captions := captions s; loading := loading s; saving := saving s;
       isDragging := b; filesToUpload := filesToUpload s;
       fileInput := fileInput s |}).

Definition put_filesToUpload (q : list UploadableFile.t) (s : state) : state :=
  {| albumId := albumId s; album := album s; photos := photos s;
     captions := captions s; loading := loading s; saving := saving s;
     isDragging := isDragging s; filesToUpload := q;
     fileInput := fileInput s |}.

(** [if (fileInputRef.current) fileInputRef.current.value = ""] *)
Definition clearFileInput : M state unit :=
  setState (fun s =>
    {| albumId := albumId s; album := album s; photos := photos s;
       captions := captions s; loading := loading s; saving := saving s;
       isDragging := isDragging s; filesToUpload := filesToUpload s;
       fileInput := match fileInput s with Some _ => Some "" | None => None end |}).

(** The cleanup of the effect declared with the dependency
    [[filesToUpload]]: React runs it, over the queue the effect was set up
    with, when a render commits another queue and when the page unmounts. *)
Definition cleanupObjectURLs (queue : list UploadableFile.t) : M state unit :=
  forEach (fun f => urlRevokeObjectURL (UploadableFile.previewUrl f)) queue.

(** [setFilesToUpload(prev => ...)]: every updater of the page builds a
    fresh array, so the queue it returns is committed by a render, which
    runs the cleanup of the effect over the queue before. *)
Definition setFilesToUpload
  (updater : list UploadableFile.t -> M state (list UploadableFile.t)) : M state unit :=
  s <- getState ;;
  let prev := filesToUpload s in
  next <- updater prev ;;
  setState (put_filesToUpload next) ;;
  cleanupObjectURLs prev.

(** The page leaves the screen. *)
Definition unmount : M state unit :=
  s <- getState ;;
  cleanupObjectURLs (filesToUpload s).

(** *** fetchAlbumData *)

(** [acc[photo.id] = photo.caption || ''] on the record of captions. *)
Fixpoint set_caption (k v : string) (c : list (string * string)) : list (string * string) :=
  match c with
  | [] => [(k, v)]
  | (k', v') :: c' =>
      if String.eqb k' k then (k', v) :: c' else (k', v') :: set_caption k v c'
  end.

Definition initialCaptions (photosData : list Photo.t) : list (string * string) :=
  fold_left
    (fun acc photo =>
       set_caption (Photo.id photo)
         (match Photo.caption photo with
          | Some c => if Js.truthy c then c else ""
          | None => ""
          end) acc)
    photosData [].

(** [fetchAlbumData] up to its first [await]. *)
Definition fetchAlbumData_begin : M state (option (string * Sdk.Single Album.t)) :=
  s <- getState ;;
  match albumId s with
  | Some a =>
      if Js.truthy a then
        setLoading true ;;
        albumResult <- call (Sdk.albums_select_single a) ;;
        ret (Some (a, albumResult))
      else ret None
  | None => ret None
  end.

(** [fetchAlbumData] after its first [await]. *)
Definition fetchAlbumData_resume (albumId : string) (albumResult : Sdk.Single Album.t)
  : M state unit :=
  match albumResult with
  | Sdk.failed albumError =>
      addToast ("Gagal memuat data album: " +++ message albumError) ToastType.error ;;
      consoleError "Error fetching album data:" ;;
      navigate "/admin"
  | Sdk.row albumData =>
      setAlbum (fun _ => PartialAlbum.of_album albumData) ;;
      photosResult <- call (Sdk.photos_select_ordered albumId) ;;
      match Sdk.error photosResult with
      | Some photosError =>
          addToast ("Gagal memuat foto: " +++ message photosError) ToastType.error ;;
          consoleError "Error fetching photos:" ;;
          setPhotos []
      | None =>
          match Sdk.data photosResult with
          | Some photosData =>
              setPhotos photosData ;;
              setCaptions (initialCaptions photosData)
          | None => ret tt
          end
      end ;;
      setLoading false
  end.

(** [fetchAlbumData()] called without [await]. *)
Definition fetchAlbumData : M state unit :=
  r <- fetchAlbumData_begin ;;
  match r with
  | Some (a, albumResult) => defer (resume_fetchAlbumData a albumResult)
  | None => ret tt
  end.

(** *** handleAlbumSave *)

Definition handleAlbumSave : M state unit :=
  s <- getState ;;
  let title := PartialAlbum.title (album s) in
  let description := PartialAlbum.description (album s) in
  if match title with Some t => Js.truthy t | None => false end then
    setSaving true ;;
    (if isNew s then
       r <- call (Sdk.albums_insert title description) ;;
       match r with
       | Sdk.failed e => addToast ("Gagal membuat album: " +++ message e) ToastType.error
       | Sdk.row data =>
           addToast "Album berhasil dibuat." ToastType.success ;;
           navigate ("/admin/album/" +++ Album.id data)
       end
     else
       albumResult <- call (Sdk.albums_update (albumId s) title description) ;;
       captionResults <-
         mapM (fun kv => call (Sdk.photos_update_caption (fst kv) (snd kv)))
           (captions s) ;;
       if is_some albumResult || existsb is_some captionResults
       then
         addToast "Gagal menyimpan perubahan." ToastType.error ;;
         when (is_some albumResult) (consoleError "Album update error:")
       else addToast "Perubahan berhasil disimpan." ToastType.success) ;;
    setSaving false
  else addToast "Judul album tidak boleh kosong." ToastType.error.

(** *** The upload queue *)

(** The body of the [map] callback of [handleFileSelect]. *)
Definition checkFile (file : File.t) : M state (option UploadableFile.t) :=
  if negb (Js.startsWith (File.type file) "image/") then
    addToast ("File " +++ File.name file +++ " bukan gambar.") ToastType.error ;;
    ret None
  else if (5 * 1024 * 1024 <? File.size file)%Z then
    addToast ("File " +++ File.name file +++ " terlalu besar (> 5MB).") ToastType.error ;;
    ret None
  else
    id <- cryptoRandomUUID ;;
    previewUrl <- urlCreateObjectURL file ;;
    ret (Some {| UploadableFile.id := id; UploadableFile.file := file;
                 UploadableFile.previewUrl := previewUrl;
                 UploadableFile.status := Status.queued;
                 UploadableFile.error := None |}).

(** [.filter((f): f is UploadableFile => f !== null)] *)
Fixpoint notNull {A} (l : list (option A)) : list A :=
  match l with
  | [] => []
  | Some a :: l' => a :: notNull l'
  | None :: l' => notNull l'
  end.

Definition handleFileSelect (selectedFiles : option (list File.t)) : M state unit :=
  match selectedFiles with
  | None => ret tt
  | Some files =>
      checked <- mapM checkFile files ;;
      let newFiles := notNull checked in
      setFilesToUpload (fun prev => ret (prev ++ newFiles)) ;;
      clearFileInput
  end.

Definition has_id (id : string) (f : UploadableFile.t) : bool :=
  String.eqb (UploadableFile.id f) id.

Definition removeFileFromQueue (id : string) : M state unit :=
  setFilesToUpload (fun prev =>
    match find (has_id id) prev with
    | Some fileToRemove => urlRevokeObjectURL (UploadableFile.previewUrl fileToRemove)
    | None => ret tt
    end ;;
    ret (filter (fun f => negb (has_id id f)) prev)).

Definition is_queued (f : UploadableFile.t) : bool :=
  Status.eqb (UploadableFile.status f) Status.queued.

(** [prev.map(f => f.status === 'queued' ? {...f, status: 'uploading'} : f)] *)
Definition markUploading (prev : list UploadableFile.t) : list UploadableFile.t :=
  map (fun f => if is_queued f then UploadableFile.with_status Status.uploading f else f)
    prev.

(** [prev.map(f => f.id === id ? {...f, status: 'success'} : f)] *)
Definition markSuccess (id : string) (prev : list UploadableFile.t) : list UploadableFile.t :=
  map (fun f => if has_id id f then UploadableFile.with_status Status.success f else f)
    prev.

(** [prev.map(f => f.id === id ? {...f, status: 'error', error: m} : f)] *)
Definition markError (id m : string) (prev : list UploadableFile.t) : list UploadableFile.t :=
  map (fun f => if has_id id f then UploadableFile.with_error m f else f) prev.

(** [prev.filter(f => f.status !== 'success')] *)
Definition clearSuccess (prev : list UploadableFile.t) : list UploadableFile.t :=
  filter (fun f => negb (Status.eqb (UploadableFile.status f) Status.success)) prev.

(** One turn of the [for] loop of [handleUploadAll]: the [try] block and
    its [catch]; the result is the two counters. *)
Definition uploadOne (albumId : string) (uploadableFile : UploadableFile.t)
  (successCount errorCount : nat) : M state (nat * nat) :=
  let file := UploadableFile.file uploadableFile in
  let catch (error : Error) : M state (nat * nat) :=
    setFilesToUpload (fun prev =>
      ret (markError (UploadableFile.id uploadableFile) (message error) prev)) ;;
    ret (successCount, Datatypes.S errorCount) in
  uuid <- cryptoRandomUUID ;;
  let fileName := uuid +++ "-" +++ Js.replace_spaces (File.name file) in
  uploadError <- call (Sdk.storage_upload fileName file) ;;
  match uploadError with
  | Some e => catch e
  | None =>
      publicUrl <- call (Sdk.storage_getPublicUrl fileName) ;;
      insertError <- call (Sdk.photos_insert
                             [{| Sdk.image_url := publicUrl; Sdk.album_id := albumId |}]) ;;
      match insertError with
      | Some e => catch e
      | None =>
          setFilesToUpload (fun prev =>
            ret (markSuccess (UploadableFile.id uploadableFile) prev)) ;;
          ret (Datatypes.S successCount, errorCount)
      end
  end.

(** What follows the loop. *)
Definition uploadDone (successCount errorCount : nat) : M state unit :=
  when (0 <? successCount)%nat
    (addToast (Js.of_nat successCount +++ " foto berhasil diunggah.") ToastType.success ;;
     fetchAlbumData) ;;
  when (0 <? errorCount)%nat
    (addToast (Js.of_nat errorCount +++ " foto gagal diunggah.") ToastType.error) ;;
  setTimeout timeout_clearSuccess 3000.

(** The loop over [filesToProcess] and what follows it, run in one go. *)
Fixpoint uploadLoop (albumId : string) (filesToProcess : list UploadableFile.t)
  (successCount errorCount : nat) : M state unit :=
  match filesToProcess with
  | [] => uploadDone successCount errorCount
  | uploadableFile :: rest =>
      counts <- uploadOne albumId uploadableFile successCount errorCount ;;
      uploadLoop albumId rest (fst counts) (snd counts)
  end.

(** [handleUploadAll] up to its loop; the result is what the loop is to
    run on, if it is to run. *)
Definition handleUploadAll_begin : M state (option (string * list UploadableFile.t)) :=
  s <- getState ;;
  match albumId s with
  | None => ret None
  | Some a =>
      if Js.truthy a then
        let filesToProcess := filter is_queued (filesToUpload s) in
        match filesToProcess with
        | [] =>
            addToast "Tidak ada foto dalam antrean." ToastType.info ;;
            ret None
        | _ :: _ =>
            setFilesToUpload (fun prev => ret (markUploading prev)) ;;
            ret (Some (a, filesToProcess))
        end
      else ret None
  end.

(** A run of [handleUploadAll] that nothing interrupts. *)
Definition handleUploadAll : M state unit :=
  r <- handleUploadAll_begin ;;
  match r with
  | Some (a, filesToProcess) => uploadLoop a filesToProcess 0 0
  | None => ret tt
  end.

(** The same run cut at the turns of its loop, where other handlers may
    come in between: the click, then one task per turn. *)
Definition handleUploadAll_click : M state unit :=
  r <- handleUploadAll_begin ;;
  match r with
  | Some (a, filesToProcess) => defer (resume_handleUploadAll a filesToProcess 0 0)
  | None => ret tt
  end.

Definition handleUploadAll_resume (albumId : string) (rest : list UploadableFile.t)
  (successCount errorCount : nat) : M state unit :=
  match rest with
  | [] => uploadDone successCount errorCount
  | uploadableFile :: rest' =>
      counts <- uploadOne albumId uploadableFile successCount errorCount ;;
      defer (resume_handleUploadAll albumId rest' (fst counts) (snd counts))
  end.

(** *** Drag and drop *)

Definition handleDragOver : M state unit := setIsDragging true.
Definition handleDragLeave : M state unit := setIsDragging false.
Definition handleDrop (files : option (list File.t)) : M state unit :=
  setIsDragging false ;;
  handleFileSelect files.

(** *** Stored photos *)

Definition handleDeletePhoto (photo : Photo.t) : M state unit :=
  confirmed <- windowConfirm "Anda yakin ingin menghapus foto ini?" ;;
  if confirmed then
    let filePath := Js.pop (Js.split (Photo.image_url photo) "/gallery/") in
    if negb (Js.truthy filePath) then
      addToast "URL foto tidak valid." ToastType.error
    else
      storageError <- call (Sdk.storage_remove [filePath]) ;;
      match storageError with
      | Some e =>
          addToast ("Gagal menghapus file dari storage: " +++ message e) ToastType.error
      | None =>
          dbError <- call (Sdk.photos_delete (Photo.id photo)) ;;
          match dbError with
          | Some e =>
              addToast ("Gagal menghapus data foto: " +++ message e) ToastType.error
          | None =>
              addToast "Foto berhasil dihapus." ToastType.success ;;
              s <- getState ;;
              when (PartialAlbum.cover_is (album s) (Photo.image_url photo))
                (_ <- call (Sdk.albums_update_cover (PartialAlbum.id (album s)) None) ;;
                 ret tt) ;;
              fetchAlbumData
          end
      end
  else ret tt.

Definition handleSetCover (photoUrl : string) : M state unit :=
  s <- getState ;;
  error <- call (Sdk.albums_update_cover (albumId s) (Some photoUrl)) ;;
  match error with
  | Some e => addToast ("Gagal mengatur foto sampul: " +++ message e) ToastType.error
  | None =>
      addToast "Foto sampul berhasil diperbarui." ToastType.success ;;
      setAlbum (PartialAlbum.with_cover photoUrl)
  end.

(** *** The event loop of the page *)

Definition run_task (t : Task) : M state unit :=
  match t with
  | resume_fetchAlbumData a r => fetchAlbumData_resume a r
  | resume_handleUploadAll a rest sc ec => handleUploadAll_resume a rest sc ec
  | timeout_clearSuccess => setFilesToUpload (fun prev => ret (clearSuccess prev))
  | resume_fetchAlbumsAndStats _ _ => ret tt
  end.

End Editor.

(** ** AdminAlbumEditorPage, earlier revision

    The sources hold the admin pages twice.  In the earlier revision the
    editor has no queue: [handleFileUpload] uploads the selected files at
    once.  Of that revision this handler is embedded, with the state it
    touches. *)

Module EditorV1.

Record state := {
  albumId : option string;                 (* the route parameter *)
  loading : bool;
  uploading : bool;
  fileInput : option string }.             (* the file input's value, when mounted *)

Definition setLoading (b : bool) : M state unit :=
  setState (fun s =>
    {| albumId := albumId s; loading := b; uploading := uploading s;
       fileInput := fileInput s |}).

Definition setUploading (b : bool) : M state unit :=
  setState (fun s =>
    {| albumId := albumId s; loading := loading s; uploading := b;
       fileInput := fileInput s |}).

(** [if (fileInputRef.current) fileInputRef.current.value = ""] *)
Definition clearFileInput : M state unit :=
  setState (fun s =>
    {| albumId := albumId s; loading := loading s; uploading := uploading s;
       fileInput := match fileInput s with Some _ => Some "" | None => None end |}).

(** [fetchAlbumData()] called without [await]: as in the current revision,
    the first request goes out and the rest is left for later. *)
Definition fetchAlbumData : M state unit :=
  s <- getState ;;
  match albumId s with
  | Some a =>
      if Js.truthy a then
        setLoading true ;;
        albumResult <- call (Sdk.albums_select_single a) ;;
        defer (resume_fetchAlbumData a albumResult)
      else ret tt
  | None => ret tt
  end.

(** The [async] callback of the [map] up to its [await]: the file name and
    the upload request. *)
Definition startUpload (file : File.t) : M state (string * option Error) :=
  ms <- dateNow ;;
  let fileName := Js.of_Z ms +++ "-" +++ Js.replace_spaces (File.name file) in
  uploadError <- call (Sdk.storage_upload fileName file) ;;
  ret (fileName, uploadError).

(** The callback after its [await]: it throws the error of the upload or
    returns the row to insert. *)
Definition finishUpload (albumId : string) (started : string * option Error)
  : M state (Error + Sdk.NewPhoto) :=
  match snd started with
  | Some uploadError => ret (inl uploadError)
  | None =>
      publicUrl <- call (Sdk.storage_getPublicUrl (fst started)) ;;
      ret (inr {| Sdk.image_url := publicUrl; Sdk.album_id := albumId |})
  end.

(** [Promise.all]: the first rejection, or else all the values. *)
Fixpoint promiseAll {E A} (settled : list (E + A)) : E + list A :=
  match settled with
  | [] => inr []
  | inl e :: _ => inl e
  | inr a :: rest =>
      match promiseAll rest with
      | inl e => inl e
      | inr values => inr (a :: values)
      end
  end.

(** The uploads all start in the [map]; the callbacks are resumed here in the
    order of the files, and then the outcome of [Promise.all] is handled. *)
Definition handleFileUpload (files : option (list File.t)) : M state unit :=
  s <- getState ;;
  match files, albumId s with
  | Some files, Some a =>
      if negb (length files =? 0)%nat && Js.truthy a then
        setUploading true ;;
        started <- mapM startUpload files ;;
        settled <- mapM (finishUpload a) started ;;
        match promiseAll settled with
        | inl error =>
            addToast ("Gagal mengunggah foto: " +++ message error) ToastType.error
        | inr newPhotosData =>
            insertError <- call (Sdk.photos_insert newPhotosData) ;;
            match insertError with
            | Some error =>
                addToast ("Gagal mengunggah foto: " +++ message error) ToastType.error
            | None =>
                addToast (Js.of_nat (length files) +++ " foto berhasil diunggah.")
                  ToastType.success ;;
                fetchAlbumData
            end
        end ;;
        setUploading false ;;
        clearFileInput
      else ret tt
  | _, _ => ret tt
  end.

End EditorV1.

(** ** Reading a trace *)

(** The calls of [addToast], in order. *)
Definition toasts (tr : list Event) : list (string * ToastType.t) :=
  flat_map (fun e => match e with EvToast m t => [(m, t)] | _ => [] end) tr.

Definition is_call (e : Event) : bool :=
  match e with EvCall _ _ => true | _ => false end.

(** The SDK calls with their answers, in order. *)
Definition sdk_calls (tr : list Event) : list Event := filter is_call tr.

(** The URLs handed to [URL.revokeObjectURL], in order. *)
Definition revoked (tr : list Event) : list string :=
  flat_map (fun e => match e with EvRevokeObjectURL u => [u] | _ => [] end) tr.

(** The URLs [URL.createObjectURL] returned, in order. *)
Definition created (tr : list Event) : list string :=
  flat_map (fun e => match e with EvCreateObjectURL _ u => [u] | _ => [] end) tr.

Definition is_toast_of (type : ToastType.t) (t : string * ToastType.t) : bool :=
  match snd t, type with
  | ToastType.success, ToastType.success
  | ToastType.error, ToastType.error
  | ToastType.info, ToastType.info => true
  | _, _ => false
  end.

(** The page of an album at the moment it mounts. *)
Definition mount (albumId : option string) : World Editor.state :=
  {| trace := []; uuid_calls := 0; url_calls := 0; pending := [];
     st := Editor.initial albumId |}.

(** The events of the effect cleanup over a queue. *)
Definition revocations (q : list UploadableFile.t) : list Event :=
  map (fun f => EvRevokeObjectURL (UploadableFile.previewUrl f)) q.

(** ** Selecting files *)

(** A file the queue takes: an image of at most 5 MB. *)
Definition accepted (f : File.t) : bool :=
  Js.startsWith (File.type f) "image/" && (File.size f <=? 5 * 1024 * 1024)%Z.

(** An error toast whose message cites the name of the file. *)
Definition names_file (f : File.t) (t : string * ToastType.t) : Prop :=
  snd t = ToastType.error /\
  exists before after, fst t = before +++ File.name f +++ after.

Definition is_queued_entry (f : UploadableFile.t) : Prop :=
  UploadableFile.status f = Status.queued.

(** ** One turn of the upload loop *)

(** The SDK calls of the turn for entry [uf], with their answers, and the
    message of what the turn threw, if it threw. *)
Inductive turn (albumId : string) (uf : UploadableFile.t)
  : list Event -> option string -> Prop :=
| turn_upload_failed fileName e :
    turn albumId uf
      [EvCall (Sdk.storage_upload fileName (UploadableFile.file uf)) (Some e)]
      (Some (message e))
| turn_insert_failed fileName publicUrl e :
    turn albumId uf
      [EvCall (Sdk.storage_upload fileName (UploadableFile.file uf)) None;
       EvCall (Sdk.storage_getPublicUrl fileName) publicUrl;
       EvCall (Sdk.photos_insert
                 [{| Sdk.image_url := publicUrl; Sdk.album_id := albumId |}]) (Some e)]
      (Some (message e))
| turn_uploaded fileName publicUrl :
    turn albumId uf
      [EvCall (Sdk.storage_upload fileName (UploadableFile.file uf)) None;
       EvCall (Sdk.storage_getPublicUrl fileName) publicUrl;
       EvCall (Sdk.photos_insert
                 [{| Sdk.image_url := publicUrl; Sdk.album_id := albumId |}]) None]
      None.

(** The update of the queue that ends a turn. *)
Definition settle (id : string) (outcome : option string)
  (q : list UploadableFile.t) : list UploadableFile.t :=
  match outcome with
  | None => Editor.markSuccess id q
  | Some m => Editor.markError id m q
  end.

(** The entry a turn leaves in place of [uf]. *)
Definition settled (outcome : option string) (uf : UploadableFile.t) : UploadableFile.t :=
  match outcome with
  | None => UploadableFile.with_status Status.success uf
  | Some m => UploadableFile.with_error m uf
  end.

(** The counters after a turn. *)
Definition counted (outcome : option string) (successCount errorCount : nat) : nat * nat :=
  match outcome with
  | None => (S successCount, errorCount)
  | Some _ => (successCount, S errorCount)
  end.

(** ** The upload queue as a transition system *)

Module Queue.

(** The world in which a pending task starts: it has left the list. *)
Definition without_task (before after : list Task) (w : World Editor.state)
  : World Editor.state :=
  {| trace := trace w; uuid_calls := uuid_calls w; url_calls := url_calls w;
     pending := before ++ after; st := st w |}.

(** The user selects files, removes an entry or clicks the upload button,
    or the event loop takes up a pending task. *)
Inductive step (env : Env) : World Editor.state -> World Editor.state -> Prop :=
| step_handleFileSelect w selectedFiles :
    step env w (exec (Editor.handleFileSelect selectedFiles) env w)
| step_removeFileFromQueue w id :
    step env w (exec (Editor.removeFileFromQueue id) env w)
| step_handleUploadAll w :
    step env w (exec Editor.handleUploadAll_click env w)
| step_task w before t after :
    pending w = before ++ t :: after ->
    step env w (exec (Editor.run_task t) env (without_task before after w)).

Inductive reachable (env : Env) : World Editor.state -> Prop :=
| reachable_mount albumId : reachable env (mount albumId)
| reachable_step w w' : reachable env w -> step env w w' -> reachable env w'.

(** The moves of a status the spec allows. *)
Inductive transition : Status.t -> Status.t -> Prop :=
| queued_uploading : transition Status.queued Status.uploading
| uploading_success : transition Status.uploading Status.success
| uploading_error : transition Status.uploading Status.error.

(** Entry [f'] of the queue after a step is new, with status ['queued'], or
    it is an entry of the queue [q] before the step, same id, file and
    preview, whose status stayed or made an allowed move. *)
Definition created_or_moved (q : list UploadableFile.t) (f' : UploadableFile.t) : Prop :=
  (UploadableFile.status f' = Status.queued /\
   forall f, In f q -> UploadableFile.id f <> UploadableFile.id f')
  \/
  (exists f, In f q /\
     UploadableFile.id f = UploadableFile.id f' /\
     UploadableFile.file f = UploadableFile.file f' /\
     UploadableFile.previewUrl f = UploadableFile.previewUrl f' /\
     (UploadableFile.status f = UploadableFile.status f' \/
      transition (UploadableFile.status f) (UploadableFile.status f'))).

(** [crypto.randomUUID] never returns the same identifier twice. *)
Definition unique_uuids (env : Env) : Prop :=
  forall m n, randomUUID env m = randomUUID env n -> m = n.

(** The ids of the entries the pending turns of upload loops still have to
    process. *)
Definition task_ids (t : Task) : list string :=
  match t with
  | resume_handleUploadAll _ rest _ _ => map UploadableFile.id rest
  | _ => []
  end.

Definition inflight (ts : list Task) : list string := flat_map task_ids ts.

(** What holds of the queue [q], the number [u] of identifiers drawn and the
    ids [infl] still to be processed in every reachable world: the entries
    have distinct ids, all drawn before; so have the turns to come, and the
    entry a turn is to come for is ['uploading']. *)
Record invariant_of (env : Env) (q : list UploadableFile.t) (u : nat)
  (infl : list string) : Prop := {
  ids_distinct : NoDup (map UploadableFile.id q);
  ids_drawn : forall f, In f q ->
    exists k, k < u /\ UploadableFile.id f = randomUUID env k;
  inflight_distinct : NoDup infl;
  inflight_drawn : forall i, In i infl -> exists k, k < u /\ i = randomUUID env k;
  inflight_uploading : forall f, In f q -> In (UploadableFile.id f) infl ->
    UploadableFile.status f = Status.uploading }.

Definition invariant (env : Env) (w : World Editor.state) : Prop :=
  invariant_of env (Editor.filesToUpload (st w)) (uuid_calls w) (inflight (pending w)).

(** What a step does to the queue, to the number of identifiers drawn and to
    the ids still to be processed. *)
Inductive effect (env : Env) (q : list UploadableFile.t) (u : nat) (infl : list string)
  : list UploadableFile.t -> nat -> list string -> Prop :=
| effect_idle u' : u <= u' -> effect env q u infl q u' infl
| effect_append newFiles :
    map UploadableFile.id newFiles = map (randomUUID env) (seq u (length newFiles)) ->
    Forall is_queued_entry newFiles ->
    effect env q u infl (q ++ newFiles) (u + length newFiles) infl
| effect_filter p : effect env q u infl (filter p q) u infl
| effect_start :
    effect env q u infl (Editor.markUploading q) u
      (infl ++ map UploadableFile.id (filter Editor.is_queued q))
| effect_turn i o infl1 rest infl2 :
    infl = infl1 ++ (i :: rest) ++ infl2 ->
    effect env q u infl (settle i o q) (S u) (infl1 ++ infl2 ++ rest).

End Queue.

(** The queue after the turns for [l] with the given outcomes. *)
Definition settle_all (l : list UploadableFile.t) (outcomes : list (option string))
  (q : list UploadableFile.t) : list UploadableFile.t :=
  fold_left (fun q' p => settle (UploadableFile.id (fst p)) (snd p) q') (combine l outcomes) q.

Definition successes (outcomes : list (option string)) : nat :=
  length (filter (fun o => match o with None => true | Some _ => false end) outcomes).

Definition failures (outcomes : list (option string)) : nat :=
  length (filter (fun o => match o with None => false | Some _ => true end) outcomes).

(** The toasts that close a run of the loop. *)
Definition done_toasts (successCount errorCount : nat) : list (string * ToastType.t) :=
  (if (0 <? successCount)%nat
   then [(Js.of_nat successCount +++ " foto berhasil diunggah.", ToastType.success)]
   else []) ++
  (if (0 <? errorCount)%nat
   then [(Js.of_nat errorCount +++ " foto gagal diunggah.", ToastType.error)]
   else []).

(** The calls of the refresh a run ends with: none, or the first request of
    [fetchAlbumData]. *)
Definition is_refresh (albumId : string) (calls : list Event) : Prop :=
  calls = [] \/ exists r, calls = [EvCall (Sdk.albums_select_single albumId) r].

(** ** Reading SDK calls *)

(** The answer [r] to call [c] carries an error. *)
Definition failed_answer {X} (c : Sdk.call X) : X -> bool :=
  match c in Sdk.call X return X -> bool with
  | Sdk.auth_signOut => is_some
  | Sdk.auth_signInWithPassword _ _ => is_some
  | Sdk.rpc_get_albums_with_photo_count => fun r => is_some (Sdk.error r)
  | Sdk.albums_select_single _ =>
      fun r => match r with Sdk.failed _ => true | Sdk.row _ => false end
  | Sdk.albums_insert _ _ =>
      fun r => match r with Sdk.failed _ => true | Sdk.row _ => false end
  | Sdk.albums_update _ _ _ => is_some
  | Sdk.albums_update_cover _ _ => is_some
  | Sdk.albums_delete _ => is_some
  | Sdk.photos_select_count => fun r => is_some (Sdk.count_error r)
  | Sdk.photos_select_image_url _ => fun r => is_some (Sdk.error r)
  | Sdk.photos_select_ordered _ => fun r => is_some (Sdk.error r)
  | Sdk.photos_insert _ => is_some
  | Sdk.photos_update_caption _ _ => is_some
  | Sdk.photos_delete _ => is_some
  | Sdk.storage_upload _ _ => is_some
  | Sdk.storage_getPublicUrl _ => fun _ => false
  | Sdk.storage_remove _ => is_some
  end.

Definition call_failed (e : Event) : bool :=
  match e with
  | EvCall c r => failed_answer c r
  | _ => false
  end.

(** The call was answered without an error. *)
Definition call_ok (e : Event) : bool := negb (call_failed e).

(** The SDK method of a call. *)
Definition method {X} (c : Sdk.call X) : string :=
  match c with
  | Sdk.auth_signOut => "auth.signOut"
  | Sdk.auth_signInWithPassword _ _ => "auth.signInWithPassword"
  | Sdk.rpc_get_albums_with_photo_count => "rpc get_albums_with_photo_count"
  | Sdk.albums_select_single _ => "albums.select.single"
  | Sdk.albums_insert _ _ => "albums.insert"
  | Sdk.albums_update _ _ _ => "albums.update"
  | Sdk.albums_update_cover _ _ => "albums.update"
  | Sdk.albums_delete _ => "albums.delete"
  | Sdk.photos_select_count => "photos.select count"
  | Sdk.photos_select_image_url _ => "photos.select"
  | Sdk.photos_select_ordered _ => "photos.select"
  | Sdk.photos_insert _ => "photos.insert"
  | Sdk.photos_update_caption _ _ => "photos.update"
  | Sdk.photos_delete _ => "photos.delete"
  | Sdk.storage_upload _ _ => "storage.upload"
  | Sdk.storage_getPublicUrl _ => "storage.getPublicUrl"
  | Sdk.storage_remove _ => "storage.remove"
  end.

Definition methods (calls : list Event) : list string :=
  flat_map (fun e => match e with EvCall c _ => [method c] | _ => [] end) calls.

(** The number of calls of method [m] among [calls]. *)
Definition count_method (m : string) (calls : list Event) : nat :=
  length (filter (String.eqb m) (methods calls)).

(** The call writes to the table of albums. *)
Definition writes_albums (e : Event) : bool :=
  match e with
  | EvCall (Sdk.albums_insert _ _) _
  | EvCall (Sdk.albums_update _ _ _) _
  | EvCall (Sdk.albums_update_cover _ _) _
  | EvCall (Sdk.albums_delete _) _ => true
  | _ => false
  end.

(** The call deletes rows of the table of photos. *)
Definition deletes_photo_rows (e : Event) : bool :=
  match e with
  | EvCall (Sdk.photos_delete _) _ => true
  | _ => false
  end.

Definition is_storage_remove (e : Event) : bool :=
  match e with
  | EvCall (Sdk.storage_remove _) _ => true
  | _ => false
  end.

(** ** Toasts against answers *)

Definition has_toast (type : ToastType.t) (ts : list (string * ToastType.t)) : bool :=
  existsb (is_toast_of type) ts.

Definition all_ok (calls : list Event) : bool :=
  forallb (fun e => negb (call_failed e)) calls.

Definition some_failed (calls : list Event) : bool := existsb call_failed calls.

(** The toasts [ts] an operation added answer the calls it made: a success
    toast if and only if no call returned an error, an error toast if and
    only if some call did. *)
Definition toast_contract (ts : list (string * ToastType.t)) (calls : list Event) : Prop :=
  has_toast ToastType.success ts = all_ok calls /\
  has_toast ToastType.error ts = some_failed calls.

(** ** Deleting an album *)

(** What [handleDelete] asks before anything else. *)
Definition delete_prompt (albumTitle : string) : string :=
  "Apakah Anda yakin ingin menghapus album " +++ dquote +++ albumTitle +++ dquote
  +++ " beserta semua fotonya?".

(** The rows of a photo list, none for [null]. *)
Definition rows {A} (data : option (list A)) : list A :=
  match data with Some l => l | None => [] end.

(** The removal from storage: nothing for no path, else one call and, when
    it fails, its toast. *)
Definition removal_events (paths : list string) (storageError : option Error) : list Event :=
  match paths with
  | [] => []
  | _ :: _ =>
      EvCall (Sdk.storage_remove paths) storageError ::
      match storageError with
      | Some e => [EvToast ("Gagal menghapus beberapa file: " +++ message e) ToastType.error]
      | None => []
      end
  end.

(** The deletion of the album row, with its toast and, when it succeeded, the
    two requests of the refresh of the dashboard. *)
Definition closing_events (albumId albumTitle : string) (dbError : option Error)
  (albumsResult : Sdk.Response (list Album.t)) (photosCountResult : Sdk.CountResponse)
  : list Event :=
  EvCall (Sdk.albums_delete albumId) dbError ::
  match dbError with
  | Some e => [EvToast ("Gagal menghapus album: " +++ message e) ToastType.error]
  | None =>
      [EvToast ("Album " +++ dquote +++ albumTitle +++ dquote +++ " berhasil dihapus.")
         ToastType.success;
       EvCall Sdk.rpc_get_albums_with_photo_count albumsResult;
       EvCall Sdk.photos_select_count photosCountResult]
  end.

(** From world [w] to world [w'] the toasts [ts] and the SDK calls [calls]
    were added. *)
Definition added {S} (w w' : World S) (ts : list (string * ToastType.t))
  (calls : list Event) : Prop :=
  toasts (trace w') = toasts (trace w) ++ ts /\
  sdk_calls (trace w') = sdk_calls (trace w) ++ calls.

(** The two calls that delete a photo: its file and its row. *)
Definition is_photo_removal (e : Event) : bool :=
  is_storage_remove e || deletes_photo_rows e.

(** ** Sample worlds

    Concrete environments and pages on which the handlers can be run. *)

Module Sample.

Definition album : Album.t :=
  {| Album.id := "a1"; Album.title := "Wisuda";
     Album.description := None;
     Album.cover_image_url :=
       Some "https://x.supabase.co/storage/v1/object/public/gallery/p1.jpg";
     Album.created_at := "2024-06-01"; Album.photo_count := Some 1%Z |}.

Definition photo : Photo.t :=
  {| Photo.id := "p1"; Photo.album_id := "a1";
     Photo.image_url :=
       "https://x.supabase.co/storage/v1/object/public/gallery/p1.jpg";
     Photo.caption := None; Photo.created_at := "2024-06-02" |}.

Definition photo2 : Photo.t :=
  {| Photo.id := "p2"; Photo.album_id := "a1";
     Photo.image_url :=
       "https://x.supabase.co/storage/v1/object/public/gallery/p2.jpg";
     Photo.caption := Some "Upacara"; Photo.created_at := "2024-06-03" |}.

(** A backend that holds the album above with its photo; its database
    answers without error and its object storage answers [storage]. *)
Definition respond_with (storage : option Error) : forall X, list Event -> Sdk.call X -> X :=
  fun X _ c =>
    match c in Sdk.call X return X with
    | Sdk.auth_signOut => None
    | Sdk.auth_signInWithPassword _ _ => None
    | Sdk.rpc_get_albums_with_photo_count =>
        {| Sdk.data := Some [album]; Sdk.error := None |}
    | Sdk.albums_select_single _ => Sdk.row album
    | Sdk.albums_insert _ _ => Sdk.row album
    | Sdk.albums_update _ _ _ => None
    | Sdk.albums_update_cover _ _ => None
    | Sdk.albums_delete _ => None
    | Sdk.photos_select_count => {| Sdk.count := Some 1%Z; Sdk.count_error := None |}
    | Sdk.photos_select_image_url _ =>
        {| Sdk.data := Some [Photo.image_url photo]; Sdk.error := None |}
    | Sdk.photos_select_ordered _ => {| Sdk.data := Some [photo]; Sdk.error := None |}
    | Sdk.photos_insert _ => None
    | Sdk.photos_update_caption _ _ => None
    | Sdk.photos_delete _ => None
    | Sdk.storage_upload _ _ => storage
    | Sdk.storage_getPublicUrl fileName =>
        "https://x.supabase.co/storage/v1/object/public/gallery/" +++ fileName
    | Sdk.storage_remove _ => storage
    end.

(** [n] strokes: a different string for every [n]. *)
Fixpoint tally (n : nat) : string :=
  match n with
  | O => EmptyString
  | S k => String "i" (tally k)
  end.

Definition env_with (storage : option Error) : Env :=
  {| respond := respond_with storage;
     randomUUID := fun n => "uuid-" +++ tally n;
     createObjectURL := fun n _ => "blob:" +++ tally n;
     confirm := fun _ _ => true;
     now := fun tr => (1717200000000 + Z.of_nat (length tr))%Z |}.

(** All goes well. *)
Definition env : Env := env_with None.

(** The object storage is down. *)
Definition env_storage_down : Env :=
  env_with (Some {| message := "storage unavailable" |}).

Definition image : File.t :=
  {| File.name := "kelas 1.jpg"; File.type := "image/jpeg"; File.size := 204800%Z |}.

Definition image2 : File.t :=
  {| File.name := "upacara.png"; File.type := "image/png"; File.size := 1048576%Z |}.

Definition document : File.t :=
  {| File.name := "nilai.pdf"; File.type := "application/pdf"; File.size := 1024%Z |}.

(** The ideographic space U+3000, the no-break space U+00A0 and the letter
    U+00E9, as the bytes of their encodings. *)
Definition ideographic_space : string :=
  String (ascii_of_nat 227) (String (ascii_of_nat 128) (String (ascii_of_nat 128) "")).

Definition no_break_space : string :=
  String (ascii_of_nat 194) (String (ascii_of_nat 160) "").

Definition e_acute : string :=
  String (ascii_of_nat 195) (String (ascii_of_nat 169) "").

(** An image whose name holds an ideographic space where [image] has a
    space. *)
Definition image_wide : File.t :=
  {| File.name := "kelas" +++ ideographic_space +++ "1.jpg"; File.type := "image/jpeg";
     File.size := 204800%Z |}.

Definition huge : File.t :=
  {| File.name := "poster.png"; File.type := "image/png"; File.size := 5242881%Z |}.

(** The editor of album ["a1"], freshly mounted. *)
Definition editor : World Editor.state := mount (Some "a1").

(** The same editor after the selection of one image. *)
Definition editor_with_image : World Editor.state :=
  exec (Editor.handleFileSelect (Some [image])) env editor.

(** The editor of album ["a1"] with the album and its photos loaded. *)
Definition editor_loaded : World Editor.state :=
  {| trace := []; uuid_calls := 0; url_calls := 0; pending := [];
     st := {| Editor.albumId := Some "a1";
              Editor.album := PartialAlbum.of_album album;
              Editor.photos := [photo; photo2];
              Editor.captions := [("p1", ""); ("p2", "Upacara")];
              Editor.loading := false; Editor.saving := false;
              Editor.isDragging := false; Editor.filesToUpload := [];
              Editor.fileInput := Some "" |} |}.

(** The editor of an album yet to be created, its title typed in. *)
Definition editor_new : World Editor.state :=
  {| trace := []; uuid_calls := 0; url_calls := 0; pending := [];
     st := {| Editor.albumId := None;
              Editor.album :=
                {| PartialAlbum.id := None; PartialAlbum.title := Some "Wisuda";
                   PartialAlbum.description := Some (Some "");
                   PartialAlbum.cover_image_url := None;
                   PartialAlbum.created_at := None;
                   PartialAlbum.photo_count := None |};
              Editor.photos := []; Editor.captions := [];
              Editor.loading := false; Editor.saving := false;
              Editor.isDragging := false; Editor.filesToUpload := [];
              Editor.fileInput := None |} |}.

(** The editor of album ["a1"] in the earlier revision. *)
Definition editor_v1 : World EditorV1.state :=
  {| trace := []; uuid_calls := 0; url_calls := 0; pending := [];
     st := {| EditorV1.albumId := Some "a1"; EditorV1.loading := false;
              EditorV1.uploading := false; EditorV1.fileInput := Some "kelas 1.jpg" |} |}.

Definition dashboard : World Dashboard.state :=
  {| trace := []; uuid_calls := 0; url_calls := 0; pending := [];
     st := {| Dashboard.albums := [album]; Dashboard.albumCount := 1%Z;
              Dashboard.photoCount := 1%Z; Dashboard.loading := false |} |}.

Definition login : World Login.state :=
  {| trace := []; uuid_calls := 0; url_calls := 0; pending := [];
     st := {| Login.email := "admin@sekolah.sch.id"; Login.password := "rahasia";
              Login.loading := false |} |}.

End Sample.

(** ** Searching and joining strings *)

Module Text.

(** [s.includes(sep)] *)
Fixpoint includes (s sep : string) : bool :=
  String.prefix sep s ||
  match s with
  | EmptyString => false
  | String _ s' => includes s' sep
  end.

(** [a.join(sep)] *)
Definition join (a : list string) (sep : string) : string := String.concat sep a.

(** [s] ends with [p]. *)
Definition endsWith (s p : string) : Prop := exists before, s = before +++ p.

(** No white-space character of [\s] begins anywhere in [s]. *)
Fixpoint no_space (s : string) : bool :=
  match s with
  | EmptyString => true
  | String _ s' => (Js.white_space s =? 0)%nat && no_space s'
  end.

End Text.

(** ** Storage paths

    The path of a stored file as the two revisions of the admin pages derive
    it from the public URL of a photo. *)

Module Paths.

(** [photo.image_url.split('/gallery/').pop()] *)
Definition filePath (image_url : string) : string :=
  Js.pop (Js.split image_url "/gallery/").

End Paths.

Module PathsV1.

(** [photo.image_url.split('/').pop()] *)
Definition filePath (image_url : string) : string :=
  Js.pop (Js.split image_url "/").

(** [photos.map(p => p.image_url.split('/').pop()).filter(Boolean)] *)
Definition filePaths (photos : list string) : list string :=
  filter Js.truthy (map filePath photos).

End PathsV1.

(** ** More readers of a trace *)

(** The targets of [navigate], in order. *)
Definition navigations (tr : list Event) : list string :=
  flat_map (fun e => match e with EvNavigate to => [to] | _ => [] end) tr.

(** The labels of [console.error], in order. *)
Definition console_errors (tr : list Event) : list string :=
  flat_map (fun e => match e with EvConsoleError label => [label] | _ => [] end) tr.

(** The photo id and the caption of the updates of captions, in order. *)
Definition caption_updates (tr : list Event) : list (string * string) :=
  flat_map
    (fun e =>
       match e with
       | EvCall (Sdk.photos_update_caption id caption) _ => [(id, caption)]
       | _ => []
       end) tr.

(** The names under which files were handed to the object storage, in
    order. *)
Definition uploaded_names (tr : list Event) : list string :=
  flat_map
    (fun e =>
       match e with
       | EvCall (Sdk.storage_upload fileName _) _ => [fileName]
       | _ => []
       end) tr.

(** The lists of paths handed to [storage.remove], in order. *)
Definition removed_paths (tr : list Event) : list (list string) :=
  flat_map
    (fun e =>
       match e with
       | EvCall (Sdk.storage_remove paths) _ => [paths]
       | _ => []
       end) tr.

(** The call reads only. *)
Definition is_read (e : Event) : bool :=
  match e with
  | EvCall Sdk.rpc_get_albums_with_photo_count _
  | EvCall (Sdk.albums_select_single _) _
  | EvCall Sdk.photos_select_count _
  | EvCall (Sdk.photos_select_image_url _) _
  | EvCall (Sdk.photos_select_ordered _) _
  | EvCall (Sdk.storage_getPublicUrl _) _ => true
  | _ => false
  end.

(** The world in which a pending task starts: it has left the list. *)
Definition take_task {S} (before after : list Task) (w : World S) : World S :=
  {| trace := trace w; uuid_calls := uuid_calls w; url_calls := url_calls w;
     pending := before ++ after; st := st w |}.

(** ** The form of the album editor *)

Module EditorForm.

(** [captions[photoId]] *)
Fixpoint lookup (photoId : string) (captions : list (string * string)) : option string :=
  match captions with
  | [] => None
  | (k, v) :: captions' => if String.eqb k photoId then Some v else lookup photoId captions'
  end.

(** [captions[photo.id] || ''], the value of the caption input of a photo. *)
Definition captionValue (captions : list (string * string)) (photoId : string) : string :=
  match lookup photoId captions with
  | Some v => if Js.truthy v then v else ""
  | None => ""
  end.

(** [photo.caption || ''] *)
Definition captionOrEmpty (photo : Photo.t) : string :=
  match Photo.caption photo with
  | Some c => if Js.truthy c then c else ""
  | None => ""
  end.

(** [onChange={(e) => setCaptions({...captions, [photo.id]: e.target.value})}] *)
Definition changeCaption (photoId value : string) : M Editor.state unit :=
  s <- getState ;;
  Editor.setCaptions (Editor.set_caption photoId value (Editor.captions s)).

(** [{...album, title: value}] *)
Definition with_title (value : string) (a : PartialAlbum.t) : PartialAlbum.t :=
  {| PartialAlbum.id := PartialAlbum.id a; PartialAlbum.title := Some value;
     PartialAlbum.description := PartialAlbum.description a;
     PartialAlbum.cover_image_url := PartialAlbum.cover_image_url a;
     PartialAlbum.created_at := PartialAlbum.created_at a;
     PartialAlbum.photo_count := PartialAlbum.photo_count a |}.

(** [{...album, description: value}] *)
Definition with_description (value : string) (a : PartialAlbum.t) : PartialAlbum.t :=
  {| PartialAlbum.id := PartialAlbum.id a; PartialAlbum.title := PartialAlbum.title a;
     PartialAlbum.description := Some (Some value);
     PartialAlbum.cover_image_url := PartialAlbum.cover_image_url a;
     PartialAlbum.created_at := PartialAlbum.created_at a;
     PartialAlbum.photo_count := PartialAlbum.photo_count a |}.

(** [onChange={(e) => setAlbum({...album, title: e.target.value})}] *)
Definition changeTitle (value : string) : M Editor.state unit :=
  Editor.setAlbum (with_title value).

(** [onChange={(e) => setAlbum({...album, description: e.target.value})}] *)
Definition changeDescription (value : string) : M Editor.state unit :=
  Editor.setAlbum (with_description value).

(** [filesToUpload.some(f => f.status === 'uploading')] *)
Definition isUploading (s : Editor.state) : bool :=
  existsb (fun f => Status.eqb (UploadableFile.status f) Status.uploading)
    (Editor.filesToUpload s).

(** [disabled] of the upload button:
    [isUploading || filesToUpload.filter(f => f.status === 'queued').length === 0] *)
Definition uploadDisabled (s : Editor.state) : bool :=
  isUploading s ||
  (length (filter Editor.is_queued (Editor.filesToUpload s)) =? 0)%nat.

End EditorForm.

(** ** The dashboard as a transition system *)

Module DashboardLoop.

(** [useState([])], [useState({ albumCount: 0, photoCount: 0 })],
    [useState(true)] *)
Definition initial : Dashboard.state :=
  {| Dashboard.albums := []; Dashboard.albumCount := 0%Z;
     Dashboard.photoCount := 0%Z; Dashboard.loading := true |}.

Definition mount : World Dashboard.state :=
  {| trace := []; uuid_calls := 0; url_calls := 0; pending := []; st := initial |}.

(** The effect of the page starts a refresh, the admin deletes an album or
    logs out, or the event loop takes up a pending task. *)
Inductive step (env : Env) : World Dashboard.state -> World Dashboard.state -> Prop :=
| step_fetchAlbumsAndStats w :
    step env w (exec Dashboard.fetchAlbumsAndStats env w)
| step_handleDelete w albumId albumTitle :
    step env w (exec (Dashboard.handleDelete albumId albumTitle) env w)
| step_handleLogout w :
    step env w (exec handleLogout env w)
| step_task w before t after :
    pending w = before ++ t :: after ->
    step env w (exec (Dashboard.run_task t) env (take_task before after w)).

Inductive reachable (env : Env) : World Dashboard.state -> Prop :=
| reachable_mount : reachable env mount
| reachable_step w w' : reachable env w -> step env w w' -> reachable env w'.

(** A refresh from its two requests to the end, nothing coming in
    between. *)
Definition refresh : M Dashboard.state unit :=
  r <- Dashboard.fetchAlbumsAndStats_begin ;;
  Dashboard.fetchAlbumsAndStats_resume (fst r) (snd r).

End DashboardLoop.

(** ** Public pages (pages/Public.tsx) *)

Module PublicHome.

Record state := { albums : list Album.t; loading : bool }.

(** [useState([])], [useState(true)] *)
Definition initial : state := {| albums := []; loading := true |}.

Definition setAlbums (l : list Album.t) : M state unit :=
  setState (fun s => {| albums := l; loading := loading s |}).

Definition setLoading (b : bool) : M state unit :=
  setState (fun s => {| albums := albums s; loading := b |}).

Definition fetchAlbums : M state unit :=
  setLoading true ;;
  result <- call Sdk.rpc_get_albums_with_photo_count ;;
  match Sdk.error result with
  | Some _ => consoleError "Error fetching albums:"
  | None =>
      match Sdk.data result with
      | Some data => setAlbums data
      | None => ret tt
      end
  end ;;
  setLoading false.

End PublicHome.

Module AlbumDetail.

(** [photos] holds [None] for [null], which [setPhotos(photosData)] stores
    when the answer has neither an error nor rows. *)
Record state := {
  albumId : option string;                 (* the route parameter *)
  album : option Album.t;
  photos : option (list Photo.t);
  loading : bool;
  lightboxOpen : bool;
  selectedPhotoIndex : Z }.

Definition initial (albumId : option string) : state :=
  {| albumId := albumId; album := None; photos := Some []; loading := true;
     lightboxOpen := false; selectedPhotoIndex := 0%Z |}.

Definition setAlbum (a : option Album.t) : M state unit :=
  setState (fun s =>
    {| albumId := albumId s; album := a; photos := photos s; loading := loading s;
       lightboxOpen := lightboxOpen s; selectedPhotoIndex := selectedPhotoIndex s |}).

Definition setPhotos (l : option (list Photo.t)) : M state unit :=
  setState (fun s =>
    {| albumId := albumId s; album := album s; photos := l; loading := loading s;
       lightboxOpen := lightboxOpen s; selectedPhotoIndex := selectedPhotoIndex s |}).

Definition setLoading (b : bool) : M state unit :=
  setState (fun s =>
    {| albumId := albumId s; album := album s; photos := photos s; loading := b;
       lightboxOpen := lightboxOpen s; selectedPhotoIndex := selectedPhotoIndex s |}).

Definition setLightboxOpen (b : bool) : M state unit :=
  setState (fun s =>
    {| albumId := albumId s; album := album s; photos := photos s; loading := loading s;
       lightboxOpen := b; selectedPhotoIndex := selectedPhotoIndex s |}).

Definition setSelectedPhotoIndex (i : Z) : M state unit :=
  setState (fun s =>
    {| albumId := albumId s; album := album s; photos := photos s; loading := loading s;
       lightboxOpen := lightboxOpen s; selectedPhotoIndex := i |}).

Definition fetchAlbumDetails : M state unit :=
  s <- getState ;;
  match albumId s with
  | Some a =>
      if Js.truthy a then
        setLoading true ;;
        albumResult <- call (Sdk.albums_select_single a) ;;
        match albumResult with
        | Sdk.failed _ => consoleError "Error fetching album:"
        | Sdk.row albumData => setAlbum (Some albumData)
        end ;;
        photosResult <- call (Sdk.photos_select_ordered a) ;;
        match Sdk.error photosResult with
        | Some _ => consoleError "Error fetching photos:"
        | None => setPhotos (Sdk.data photosResult)
        end ;;
        setLoading false
      else ret tt
  | None => ret tt
  end.

Definition openLightbox (index : Z) : M state unit :=
  setSelectedPhotoIndex index ;;
  setLightboxOpen true.

(** [onClose={() => setLightboxOpen(false)}] *)
Definition closeLightbox : M state unit := setLightboxOpen false.

(** What the page renders: the spinner, the notice that the album was not
    found, or the album with its photos and, when open, the lightbox on its
    start index.  Over [null] photos the rendering throws. *)
Inductive view :=
| Spinner
| NotFound
| Page (album : Album.t) (photos : list Photo.t) (lightbox : option Z)
| Throws.

Definition render (s : state) : view :=
  if loading s then Spinner
  else
    match album s with
    | None => NotFound
    | Some a =>
        match photos s with
        | None => Throws
        | Some l =>
            Page a l (if lightboxOpen s then Some (selectedPhotoIndex s) else None)
        end
    end.

(** [photos[currentIndex]], the photo the lightbox shows; [None] is
    [undefined], for which the lightbox renders nothing. *)
Definition shown (photos : list Photo.t) (s : Lightbox.state) : option Photo.t :=
  if (Lightbox.currentIndex s <? 0)%Z then None
  else nth_error photos (Z.to_nat (Lightbox.currentIndex s)).

End AlbumDetail.

(** ** The session (App.tsx) *)

Module Auth.

(** Of a [User] the pages read the e-mail address. *)
Record User := { email : option string }.

Record Session := { session_user : User }.

Record state := {
  session : option Session;
  user : option User;
  loading : bool }.

(** [useState(null)], [useState(null)], [useState(true)] *)
Definition initial : state := {| session := None; user := None; loading := true |}.

(** What the provider does with a session, handed to the listener of
    [onAuthStateChange] or by the promise of [getSession]:
    [setSession(session); setUser(session?.user ?? null); setLoading(false)]. *)
Definition receive (s : option Session) (_ : state) : state :=
  {| session := s;
     user := match s with Some x => Some (session_user x) | None => None end;
     loading := false |}.

Inductive event :=
| authStateChange (session : option Session)
| initialSession (session : option Session).

Definition carried (e : event) : option Session :=
  match e with
  | authStateChange s => s
  | initialSession s => s
  end.

Definition react (s : state) (e : event) : state := receive (carried e) s.

Definition run (events : list event) : state := fold_left react events initial.

(** What [ProtectedRoute] renders. *)
Inductive route := Spinner | Outlet | Navigate (to : string).

Definition ProtectedRoute (s : state) : route :=
  if loading s then Spinner
  else
    match session s with
    | Some _ => Outlet
    | None => Navigate "/admin/login"
    end.

(** The effect of the login page: [if (session) navigate('/admin')]. *)
Definition loginRedirect (s : state) : option string :=
  match session s with
  | Some _ => Some "/admin"
  | None => None
  end.

End Auth.

(** ** Toasts (App.tsx) *)

Module ToastProvider.

Record ToastMessage := { id : Z; message : string; type : ToastType.t }.

(** The toasts on screen and the ids the timers still to fire were set
    for. *)
Record state := { toasts : list ToastMessage; timers : list Z }.

Definition initial : state := {| toasts := []; timers := [] |}.

(** [addToast(message, type = 'info')] when [Date.now()] returns [now]. *)
Definition addToast (now : Z) (message : string) (type : option ToastType.t)
  (s : state) : state :=
  let id := now in
  let type := match type with Some t => t | None => ToastType.info end in
  {| toasts := toasts s ++ [{| id := id; message := message; type := type |}];
     timers := timers s ++ [id] |}.

(** The callback of the timer set for [id]:
    [setToasts(currentToasts => currentToasts.filter(toast => toast.id !== id))]. *)
Definition expire (i : Z) (s : state) : state :=
  {| toasts := filter (fun toast => negb (id toast =? i)%Z) (toasts s);
     timers := timers s |}.

(** One timer set for [i] leaves the list of timers. *)
Fixpoint fired (i : Z) (timers : list Z) : list Z :=
  match timers with
  | [] => []
  | j :: timers' => if (j =? i)%Z then timers' else j :: fired i timers'
  end.

Inductive action :=
| add (now : Z) (message : string) (type : option ToastType.t)
| timeout (id : Z).

(** A call of [addToast], or a timer that was set fires. *)
Definition react (s : state) (a : action) : option state :=
  match a with
  | add now message type => Some (addToast now message type s)
  | timeout i =>
      if existsb (Z.eqb i) (timers s)
      then Some (expire i {| toasts := toasts s; timers := fired i (timers s) |})
      else None
  end.

Fixpoint run (s : state) (actions : list action) : option state :=
  match actions with
  | [] => Some s
  | a :: actions' =>
      match react s a with
      | Some s' => run s' actions'
      | None => None
      end
  end.

(** The clock readings of the calls of [addToast]. *)
Definition readings (actions : list action) : list Z :=
  flat_map (fun a => match a with add now _ _ => [now] | timeout _ => [] end) actions.

End ToastProvider.

(** Sample data for the pages above. *)

Module SamplePages.

Definition session : Auth.Session :=
  {| Auth.session_user := {| Auth.email := Some "admin@sekolah.sch.id" |} |}.

Definition detail : World AlbumDetail.state :=
  {| trace := []; uuid_calls := 0; url_calls := 0; pending := [];
     st := AlbumDetail.initial (Some "a1") |}.

Definition detail_loaded : World AlbumDetail.state :=
  {| trace := []; uuid_calls := 0; url_calls := 0; pending := [];
     st := {| AlbumDetail.albumId := Some "a1";
              AlbumDetail.album := Some Sample.album;
              AlbumDetail.photos := Some [Sample.photo; Sample.photo2];
              AlbumDetail.loading := false;
              AlbumDetail.lightboxOpen := false;
              AlbumDetail.selectedPhotoIndex := 0%Z |} |}.

(** Identifiers of the length of a UUID, different for the first ten
    draws. *)
Definition uuid36 (n : nat) : string :=
  "3f2b8c1e-7a4d-4e9b-8c21-5d6f7a8b9c0" +++ Js.of_nat (n mod 10).

Definition env_uuid36 : Env :=
  {| respond := Sample.respond_with None;
     randomUUID := uuid36;
     createObjectURL := fun n _ => "blob:" +++ Sample.tally n;
     confirm := fun _ _ => true;
     now := fun tr => (1717200000000 + Z.of_nat (length tr))%Z |}.

(** A backend whose table of albums cannot be read. *)
Definition respond_albums_down : forall X, list Event -> Sdk.call X -> X :=
  fun X tr c =>
    match c in Sdk.call X return X with
    | Sdk.albums_select_single _ => Sdk.failed {| message := "permission denied" |}
    | Sdk.rpc_get_albums_with_photo_count =>
        {| Sdk.data := None; Sdk.error := Some {| message := "permission denied" |} |}
    | c' => Sample.respond_with None _ tr c'
    end.

Definition env_albums_down : Env :=
  {| respond := respond_albums_down;
     randomUUID := fun n => "uuid-" +++ Sample.tally n;
     createObjectURL := fun n _ => "blob:" +++ Sample.tally n;
     confirm := fun _ _ => true;
     now := fun tr => (1717200000000 + Z.of_nat (length tr))%Z |}.

(** The admin declines every confirmation. *)
Definition env_declining : Env :=
  {| respond := Sample.respond_with None;
     randomUUID := fun n => "uuid-" +++ Sample.tally n;
     createObjectURL := fun n _ => "blob:" +++ Sample.tally n;
     confirm := fun _ _ => false;
     now := fun tr => (1717200000000 + Z.of_nat (length tr))%Z |}.

End SamplePages.

(** ** What a handler keeps

    [keeps P m]: the property [P] of the state of the page, once it holds,
    still holds when [m] has run. *)

Definition keeps {S A} (P : S -> Prop) (m : M S A) : Prop :=
  forall env w, P (st w) -> P (st (snd (m env w))).

(** The total of albums the dashboard shows is the number of rows it
    lists. *)
Definition counted_albums (s : Dashboard.state) : Prop :=
  Dashboard.albumCount s = Z.of_nat (length (Dashboard.albums s)).

(** The call deletes a row of the table of albums. *)
Definition deletes_album_row (e : Event) : bool :=
  match e with
  | EvCall (Sdk.albums_delete _) _ => true
  | _ => false
  end.

(** The page with its spinner on. *)
Definition refreshing (s : Dashboard.state) : Dashboard.state :=
  {| Dashboard.albums := Dashboard.albums s;
     Dashboard.albumCount := Dashboard.albumCount s;
     Dashboard.photoCount := Dashboard.photoCount s;
     Dashboard.loading := true |}.

(** ** The record of captions *)

Module Captions.

(** The entry [fetchAlbumData] makes for a photo:
    [acc[photo.id] = photo.caption || '']. *)
Definition entry (photo : Photo.t) : string * string :=
  (Photo.id photo, EditorForm.captionOrEmpty photo).

(** An entry once the caption input of photo [photoId] was set to
    [value]. *)
Definition edited (photoId value : string) (kv : string * string) : string * string :=
  if String.eqb (fst kv) photoId then (fst kv, value) else kv.

End Captions.

(** The page with its save button released. *)
Definition saved (s : Editor.state) : Editor.state :=
  {| Editor.albumId := Editor.albumId s; Editor.album := Editor.album s;
     Editor.photos := Editor.photos s; Editor.captions := Editor.captions s;
     Editor.loading := Editor.loading s; Editor.saving := false;
     Editor.isDragging := Editor.isDragging s;
     Editor.filesToUpload := Editor.filesToUpload s;
     Editor.fileInput := Editor.fileInput s |}.

(** The page with the album and the photos of a load. *)
Definition loaded (albumData : Album.t) (photosData : list Photo.t) (s : Editor.state)
  : Editor.state :=
  {| Editor.albumId := Editor.albumId s;
     Editor.album := PartialAlbum.of_album albumData;
     Editor.photos := photosData;
     Editor.captions := Editor.initialCaptions photosData;
     Editor.loading := false; Editor.saving := Editor.saving s;
     Editor.isDragging := Editor.isDragging s;
     Editor.filesToUpload := Editor.filesToUpload s;
     Editor.fileInput := Editor.fileInput s |}.

(** The name under which the upload of the queue stores the file of entry
    [uf] when it draws the identifier of rank [k]:
    [`${crypto.randomUUID()}-${file.name.replace(/\s/g, '_')}`]. *)
Definition stored_name (env : Env) (k : nat) (uf : UploadableFile.t) : string :=
  randomUUID env k +++ "-" +++ Js.replace_spaces (File.name (UploadableFile.file uf)).

(** The names for the entries [l], the first of which draws the identifier
    of rank [u]. *)
Fixpoint stored_names (env : Env) (u : nat) (l : list UploadableFile.t) : list string :=
  match l with
  | [] => []
  | uf :: l' => stored_name env u uf :: stored_names env (S u) l'
  end.

(** A name made of an identifier, a hyphen and a rest without white
    space. *)
Definition well_named (env : Env) (n : string) : Prop :=
  exists k rest, n = randomUUID env k +++ "-" +++ rest /\ Text.no_space rest = true.

(** The call inserts rows into the table of photos. *)
Definition inserts_photo_rows (e : Event) : bool :=
  match e with
  | EvCall (Sdk.photos_insert _) _ => true
  | _ => false
  end.

(** The name under which the earlier revision stores a file when the clock
    reads [ms]: [`${Date.now()}-${file.name.replace(/\s/g, '_')}`]. *)
Definition stored_name_v1 (ms : Z) (file : File.t) : string :=
  Js.of_Z ms +++ "-" +++ Js.replace_spaces (File.name file).

(** The page of the earlier revision with its upload button taken. *)
Definition uploading_v1 (s : EditorV1.state) : EditorV1.state :=
  {| EditorV1.albumId := EditorV1.albumId s; EditorV1.loading := EditorV1.loading s;
     EditorV1.uploading := true; EditorV1.fileInput := EditorV1.fileInput s |}.

(** ** The string operations on sample inputs *)

Module JsFacts.

Example split_public_url :
  Js.split "https://p.supabase.co/storage/v1/object/public/gallery/17-a.jpg" "/gallery/" =
  ["https://p.supabase.co/storage/v1/object/public"; "17-a.jpg"].
Proof. reflexivity. Qed.

Example split_twice :
  Js.split "a/gallery/b/gallery/c" "/gallery/" = ["a"; "b"; "c"].
Proof. reflexivity. Qed.

Example split_without_separator : Js.split "p1.jpg" "/gallery/" = ["p1.jpg"].
Proof. reflexivity. Qed.

Example split_trailing_separator : Js.split "x/gallery/" "/gallery/" = ["x"; ""].
Proof. reflexivity. Qed.

Example split_empty : Js.split "" "/gallery/" = [""].
Proof. reflexivity. Qed.

(** The occurrences are found from left to right and do not overlap. *)
Example split_overlapping :
  Js.split "x/gallery/gallery/n.jpg" "/gallery/" = ["x"; "gallery/n.jpg"].
Proof. reflexivity. Qed.

Example filePaths_sample :
  Dashboard.filePaths
    ["https://p.supabase.co/storage/v1/object/public/gallery/17-a.jpg";
     "https://p.supabase.co/gallery/"; "b.jpg"] =
  ["17-a.jpg"; "b.jpg"].
Proof. reflexivity. Qed.

Example replace_spaces_sample : Js.replace_spaces "kelas 1 a.jpg" = "kelas_1_a.jpg".
Proof. reflexivity. Qed.

(** White space of more than one byte: the no-break space U+00A0 and the
    ideographic space U+3000 become one ['_'] each; a letter of two bytes
    (U+00E9) stays. *)
Example replace_spaces_wide :
  Js.replace_spaces
    ("a" +++ Sample.ideographic_space +++ "b" +++ Sample.no_break_space +++ "c" +++
     Sample.e_acute +++ ".png") =
  "a_b_c" +++ Sample.e_acute +++ ".png".
Proof. reflexivity. Qed.

Example replace_spaces_line_ends :
  Js.replace_spaces ("a" +++ String (ascii_of_nat 9) (String (ascii_of_nat 10) "b")) = "a__b".
Proof. reflexivity. Qed.

Example of_Z_sample : Js.of_Z 1717200000000 = "1717200000000".
Proof. reflexivity. Qed.

End JsFacts.

(** ** Properties of the lightbox *)

Module LightboxFacts.
Import Lightbox.

Lemma goToNext_in_range photos i :
  in_range photos i -> in_range photos (goToNext photos i).
Proof.
  unfold in_range, goToNext. intros H.
  destruct (Z.eqb_spec i (Z.of_nat (length photos) - 1)); lia.
Qed.

Lemma goToPrevious_in_range photos i :
  in_range photos i -> in_range photos (goToPrevious photos i).
Proof.
  unfold in_range, goToPrevious. intros H.
  destruct (Z.eqb_spec i 0); lia.
Qed.

Lemma previous_next photos i :
  in_range photos i -> goToPrevious photos (goToNext photos i) = i.
Proof.
  unfold in_range, goToNext, goToPrevious. intros H.
  destruct (Z.eqb_spec i (Z.of_nat (length photos) - 1)) as [E|E].
  - simpl. lia.
  - destruct (Z.eqb_spec (i + 1) 0); lia.
Qed.

Lemma next_previous photos i :
  in_range photos i -> goToNext photos (goToPrevious photos i) = i.
Proof.
  unfold in_range, goToNext, goToPrevious. intros H.
  destruct (Z.eqb_spec i 0) as [E|E].
  - rewrite Z.eqb_refl. lia.
  - destruct (Z.eqb_spec (i - 1) (Z.of_nat (length photos) - 1)); lia.
Qed.

Lemma react_in_range photos s i :
  in_range photos (currentIndex s) ->
  in_range photos (currentIndex (react photos s i)).
Proof.
  intros H. destruct i as [| |key]; simpl.
  - now apply goToPrevious_in_range.
  - now apply goToNext_in_range.
  - unfold handleKeyDown.
    destruct (String.eqb key "ArrowLeft"), (String.eqb key "ArrowRight"),
      (String.eqb key "Escape"); simpl;
      auto using goToPrevious_in_range, goToNext_in_range.
Qed.

Lemma run_in_range photos startIndex inputs :
  in_range photos startIndex ->
  in_range photos (currentIndex (run photos startIndex inputs)).
Proof.
  unfold run. intros H.
  assert (G : in_range photos (currentIndex (open startIndex))) by exact H.
  revert G. generalize (open startIndex).
  induction inputs as [|i inputs IH]; intros s G; simpl.
  - exact G.
  - apply IH. now apply react_in_range.
Qed.

(** C9.  A lightbox opened on a non-empty photo list at the index of one of
    its photos stays, whatever buttons and keys follow, on an index between
    0 and [photos.length - 1]; there [goToNext] and [goToPrevious] yield
    such an index again and undo each other, [goToNext] wrapping from the
    last index to 0 and [goToPrevious] from 0 to the last index. *)
Theorem lightbox_navigation :
  forall (photos : list Photo.t) (startIndex : Z) (inputs : list input),
    photos <> [] ->
    in_range photos startIndex ->
    let i := currentIndex (run photos startIndex inputs) in
    in_range photos i /\
    in_range photos (goToNext photos i) /\
    in_range photos (goToPrevious photos i) /\
    goToPrevious photos (goToNext photos i) = i /\
    goToNext photos (goToPrevious photos i) = i /\
    goToNext photos (Z.of_nat (length photos) - 1) = 0%Z /\
    goToPrevious photos 0 = (Z.of_nat (length photos) - 1)%Z.
Proof.
  intros photos startIndex inputs _ Hstart i.
  assert (Hi : in_range photos i) by (apply run_in_range; exact Hstart).
  repeat split; try apply Hi.
  - apply goToNext_in_range, Hi.
  - apply goToNext_in_range, Hi.
  - apply goToPrevious_in_range, Hi.
  - apply goToPrevious_in_range, Hi.
  - apply previous_next, Hi.
  - apply next_previous, Hi.
  - unfold goToNext. now rewrite Z.eqb_refl.
Qed.

Lemma lightbox_navigation_witness :
  let photos := [Sample.photo; Sample.photo2; Sample.photo] in
  let inputs := [click_next; keydown "ArrowRight"; keydown "ArrowLeft"] in
  photos <> [] /\ in_range photos 1 /\
  currentIndex (run photos 1 inputs) = 2%Z /\
  goToNext photos 2 = 0%Z /\
  goToPrevious photos (goToNext photos 2) = 2%Z.
Proof.
  intros photos inputs.
  assert (H1 : photos <> []) by discriminate.
  assert (H2 : in_range photos 1) by (unfold in_range; simpl; lia).
  destruct (lightbox_navigation photos 1 inputs H1 H2)
    as (_ & _ & _ & Hpn & _ & Hwrap & _).
  split; [exact H1|]. split; [exact H2|]. split; [reflexivity|].
  split; [exact Hwrap|exact Hpn].
Defined.

End LightboxFacts.

(** ** Running handlers *)

Module Run.

Lemma toasts_app a b : toasts (a ++ b) = toasts a ++ toasts b.
Proof. apply flat_map_app. Qed.

Lemma sdk_calls_app a b : sdk_calls (a ++ b) = sdk_calls a ++ sdk_calls b.
Proof. apply filter_app. Qed.

Lemma revoked_app a b : revoked (a ++ b) = revoked a ++ revoked b.
Proof. apply flat_map_app. Qed.

Lemma created_app a b : created (a ++ b) = created a ++ created b.
Proof. apply flat_map_app. Qed.

(** The answers of the environment, one step at a time. *)
Lemma call_answer {S X} env (c : Sdk.call X) (w : World S) (r : X) :
  respond env X (trace w) c = r ->
  call c env w =
  (r, {| trace := trace w ++ [EvCall c r]; uuid_calls := uuid_calls w;
         url_calls := url_calls w; pending := pending w; st := st w |}).
Proof. intros <-. reflexivity. Qed.

Lemma windowConfirm_answer {S} env message (w : World S) (a : bool) :
  confirm env (trace w) message = a ->
  windowConfirm message env w =
  (a, {| trace := trace w ++ [EvConfirm message a]; uuid_calls := uuid_calls w;
         url_calls := url_calls w; pending := pending w; st := st w |}).
Proof. intros <-. reflexivity. Qed.

Lemma toasts_revocations q : toasts (revocations q) = [].
Proof. induction q; simpl; auto. Qed.

Lemma sdk_calls_revocations q : sdk_calls (revocations q) = [].
Proof. induction q; simpl; auto. Qed.

Lemma revoked_revocations q : revoked (revocations q) = map UploadableFile.previewUrl q.
Proof. induction q; simpl; congruence. Qed.

Lemma cleanupObjectURLs_run env q (w : World Editor.state) :
  Editor.cleanupObjectURLs q env w =
  (tt, {| trace := trace w ++ revocations q; uuid_calls := uuid_calls w;
          url_calls := url_calls w; pending := pending w; st := st w |}).
Proof.
  revert w. induction q as [|f q IH]; intros w.
  - simpl. unfold ret. rewrite app_nil_r. now destruct w.
  - unfold Editor.cleanupObjectURLs in *. simpl.
    unfold bind at 1. unfold urlRevokeObjectURL, emit. rewrite IH. simpl.
    now rewrite <- app_assoc.
Qed.

Lemma setFilesToUpload_run env g (w : World Editor.state) :
  Editor.setFilesToUpload (fun prev => ret (g prev)) env w =
  (tt, {| trace := trace w ++ revocations (Editor.filesToUpload (st w));
          uuid_calls := uuid_calls w; url_calls := url_calls w;
          pending := pending w;
          st := Editor.put_filesToUpload (g (Editor.filesToUpload (st w))) (st w) |}).
Proof.
  unfold Editor.setFilesToUpload, bind, getState, ret, setState.
  now rewrite cleanupObjectURLs_run.
Qed.

End Run.

(** ** Selecting files *)

Module Select.
Import Run.

Lemma checkFile_accepted env f (w : World Editor.state) :
  accepted f = true ->
  Editor.checkFile f env w =
  (Some {| UploadableFile.id := randomUUID env (uuid_calls w);
           UploadableFile.file := f;
           UploadableFile.previewUrl := createObjectURL env (url_calls w) f;
           UploadableFile.status := Status.queued;
           UploadableFile.error := None |},
   {| trace := trace w ++ [EvRandomUUID (randomUUID env (uuid_calls w));
                           EvCreateObjectURL f (createObjectURL env (url_calls w) f)];
      uuid_calls := S (uuid_calls w); url_calls := S (url_calls w);
      pending := pending w; st := st w |}).
Proof.
  unfold accepted, Editor.checkFile. intros H.
  apply andb_true_iff in H. destruct H as [Ht Hs].
  rewrite Ht. simpl.
  replace (5242880 <? File.size f)%Z with false
    by (symmetry; apply Z.ltb_ge; apply Z.leb_le in Hs; lia).
  unfold bind, cryptoRandomUUID, urlCreateObjectURL, ret. simpl.
  now rewrite <- app_assoc.
Qed.

Lemma checkFile_rejected env f (w : World Editor.state) :
  accepted f = false ->
  exists m,
    names_file f (m, ToastType.error) /\
    Editor.checkFile f env w =
    (None, {| trace := trace w ++ [EvToast m ToastType.error];
              uuid_calls := uuid_calls w; url_calls := url_calls w;
              pending := pending w; st := st w |}).
Proof.
  unfold accepted, Editor.checkFile. intros H.
  apply andb_false_iff in H.
  destruct (Js.startsWith (File.type f) "image/") eqn:Ht; simpl.
  - destruct H as [H|H]; [discriminate|].
    replace (5242880 <? File.size f)%Z with true
      by (symmetry; apply Z.ltb_lt; apply Z.leb_gt in H; lia).
    eexists. split; [|reflexivity].
    split; [reflexivity|]. simpl. now exists "File ", " terlalu besar (> 5MB).".
  - eexists. split; [|reflexivity].
    split; [reflexivity|]. simpl. now exists "File ", " bukan gambar.".
Qed.

(** What the [map] of [handleFileSelect] yields and leaves. *)
Lemma mapM_checkFile env files :
  forall w : World Editor.state,
  exists checked evs,
    mapM Editor.checkFile files env w =
    (checked,
     {| trace := trace w ++ evs;
        uuid_calls := uuid_calls w + length (Editor.notNull checked);
        url_calls := url_calls w + length (Editor.notNull checked);
        pending := pending w; st := st w |}) /\
    map UploadableFile.file (Editor.notNull checked) = filter accepted files /\
    Forall is_queued_entry (Editor.notNull checked) /\
    map UploadableFile.id (Editor.notNull checked) =
      map (randomUUID env) (seq (uuid_calls w) (length (Editor.notNull checked))) /\
    Forall2 names_file (filter (fun f => negb (accepted f)) files) (toasts evs) /\
    sdk_calls evs = [] /\ revoked evs = [].
Proof.
  induction files as [|f files IH]; intros w.
  - exists [], []. simpl. unfold ret. rewrite app_nil_r, !Nat.add_0_r.
    repeat split; try constructor. now destruct w.
  - simpl. unfold bind at 1.
    destruct (accepted f) eqn:Hf.
    + rewrite (checkFile_accepted env f w Hf).
      unfold bind at 1.
      match goal with |- context [mapM _ files env ?w1] =>
        destruct (IH w1) as (checked & evs & E & Hfiles & Hq & Hids & Ht & Hc & Hr)
      end.
      rewrite E. simpl in *.
      eexists (Some _ :: checked), (_ :: _ :: evs). unfold ret. simpl.
      rewrite <- app_assoc. simpl. rewrite !Nat.add_succ_r.
      repeat split; simpl; try assumption.
      * now rewrite Hfiles.
      * constructor; [reflexivity|assumption].
      * now rewrite Hids.
    + destruct (checkFile_rejected env f w Hf) as (m & Hm & E0).
      rewrite E0. unfold bind at 1.
      match goal with |- context [mapM _ files env ?w1] =>
        destruct (IH w1) as (checked & evs & E & Hfiles & Hq & Hids & Ht & Hc & Hr)
      end.
      rewrite E. simpl in *.
      exists (None :: checked), (EvToast m ToastType.error :: evs). unfold ret. simpl.
      rewrite <- app_assoc. simpl.
      repeat split; simpl; try assumption.
      constructor; assumption.
Qed.

Lemma handleFileSelect_run env files (w : World Editor.state) :
  let w' := exec (Editor.handleFileSelect (Some files)) env w in
  exists newFiles evs,
    Editor.filesToUpload (st w') = Editor.filesToUpload (st w) ++ newFiles /\
    trace w' = trace w ++ evs ++ revocations (Editor.filesToUpload (st w)) /\
    uuid_calls w' = uuid_calls w + length newFiles /\
    pending w' = pending w /\
    Editor.albumId (st w') = Editor.albumId (st w) /\
    map UploadableFile.file newFiles = filter accepted files /\
    Forall is_queued_entry newFiles /\
    map UploadableFile.id newFiles =
      map (randomUUID env) (seq (uuid_calls w) (length newFiles)) /\
    Forall2 names_file (filter (fun f => negb (accepted f)) files) (toasts evs) /\
    sdk_calls evs = [] /\ revoked evs = [].
Proof.
  cbv zeta.
  destruct (mapM_checkFile env files w)
    as (checked & evs & E & Hfiles & Hq & Hids & Ht & Hc & Hr).
  unfold exec, Editor.handleFileSelect, bind.
  rewrite E, setFilesToUpload_run. simpl.
  exists (Editor.notNull checked), evs.
  rewrite <- app_assoc. repeat split; assumption.
Qed.

(** C1.  [handleFileSelect] appends to the queue one entry, of status
    ['queued'], for each selected file whose type starts with ['image/'] and
    whose size is at most 5*1024*1024, in the order of the selection, and
    none for any other file; each file it turns down gets one error toast
    citing its name, and no other toast is added. *)
Theorem handleFileSelect_enqueues_valid_files :
  forall env (w : World Editor.state) (files : list File.t),
    let w' := exec (Editor.handleFileSelect (Some files)) env w in
    exists newFiles newToasts,
      Editor.filesToUpload (st w') = Editor.filesToUpload (st w) ++ newFiles /\
      map UploadableFile.file newFiles = filter accepted files /\
      Forall (fun f => UploadableFile.status f = Status.queued) newFiles /\
      (forall f, In f files ->
         (In f (map UploadableFile.file newFiles) <->
          Js.startsWith (File.type f) "image/" = true /\
          (File.size f <= 5 * 1024 * 1024)%Z)) /\
      toasts (trace w') = toasts (trace w) ++ newToasts /\
      Forall2 names_file (filter (fun f => negb (accepted f)) files) newToasts.
Proof.
  intros env w files w'.
  destruct (handleFileSelect_run env files w)
    as (newFiles & evs & Hq & Htr & _ & _ & _ & Hfiles & Hst & _ & Ht & _ & Hr).
  fold w' in Hq, Htr.
  exists newFiles, (toasts evs).
  split; [assumption|]. split; [assumption|]. split; [assumption|].
  split; [|split; [|assumption]].
  - intros f Hin. rewrite Hfiles, filter_In. unfold accepted.
    rewrite andb_true_iff, Z.leb_le. tauto.
  - rewrite Htr, !toasts_app.
    now rewrite toasts_revocations, app_nil_r.
Qed.

End Select.

(** ** The upload loop *)

Module Upload.
Import Run.

Lemma uploadOne_run env a uf sc ec (w : World Editor.state) :
  exists outcome calls evs,
    turn a uf calls outcome /\
    sdk_calls evs = calls /\
    toasts evs = [] /\
    Editor.uploadOne a uf sc ec env w =
    (counted outcome sc ec,
     {| trace := trace w ++ evs;
        uuid_calls := S (uuid_calls w); url_calls := url_calls w;
        pending := pending w;
        st := Editor.put_filesToUpload
                (settle (UploadableFile.id uf) outcome (Editor.filesToUpload (st w)))
                (st w) |}).
Proof.
  unfold Editor.uploadOne, bind, cryptoRandomUUID, call. simpl.
  match goal with |- context [respond env _ ?t (Sdk.storage_upload ?n ?f)] =>
    destruct (respond env _ t (Sdk.storage_upload n f)) as [e|] eqn:E1
  end.
  - rewrite setFilesToUpload_run. simpl.
    exists (Some (message e)). eexists. eexists.
    split; [apply turn_upload_failed|].
    split; [|split; [|unfold ret; simpl; rewrite <- !app_assoc; reflexivity]].
    + simpl. rewrite sdk_calls_revocations. reflexivity.
    + simpl. apply toasts_revocations.
  - match goal with |- context [respond env _ ?t (Sdk.photos_insert ?r)] =>
      destruct (respond env _ t (Sdk.photos_insert r)) as [e|] eqn:E2
    end.
    + rewrite setFilesToUpload_run. simpl.
      exists (Some (message e)). eexists. eexists.
      split; [apply turn_insert_failed|].
      split; [|split; [|unfold ret; simpl; rewrite <- !app_assoc; reflexivity]].
      * simpl. rewrite sdk_calls_revocations. reflexivity.
      * simpl. apply toasts_revocations.
    + rewrite setFilesToUpload_run. simpl.
      exists None. eexists. eexists.
      split; [apply turn_uploaded|].
      split; [|split; [|unfold ret; simpl; rewrite <- !app_assoc; reflexivity]].
      * simpl. rewrite sdk_calls_revocations. reflexivity.
      * simpl. apply toasts_revocations.
Qed.

Lemma fetchAlbumData_run env a (w : World Editor.state) :
  Editor.albumId (st w) = Some a -> Js.truthy a = true ->
  exists evs tasks st',
    Editor.fetchAlbumData env w =
    (tt, {| trace := trace w ++ evs; uuid_calls := uuid_calls w;
            url_calls := url_calls w; pending := pending w ++ tasks; st := st' |}) /\
    (exists r, sdk_calls evs = [EvCall (Sdk.albums_select_single a) r]) /\
    toasts evs = [] /\
    Queue.inflight tasks = [] /\
    Editor.filesToUpload st' = Editor.filesToUpload (st w) /\
    Editor.albumId st' = Editor.albumId (st w) /\
    Editor.album st' = Editor.album (st w).
Proof.
  intros Ha Ht.
  unfold Editor.fetchAlbumData, Editor.fetchAlbumData_begin, bind, getState.
  rewrite Ha, Ht. unfold Editor.setLoading, setState, call, ret, defer. simpl.
  eexists [_], [_], _. split; [reflexivity|].
  simpl. repeat split; try reflexivity; try assumption. eexists. reflexivity.
Qed.

Lemma uploadDone_run env a sc ec (w : World Editor.state) :
  Editor.albumId (st w) = Some a -> Js.truthy a = true ->
  exists evs tasks st',
    Editor.uploadDone sc ec env w =
    (tt, {| trace := trace w ++ evs; uuid_calls := uuid_calls w;
            url_calls := url_calls w; pending := pending w ++ tasks; st := st' |}) /\
    is_refresh a (sdk_calls evs) /\
    toasts evs = done_toasts sc ec /\
    Queue.inflight tasks = [] /\
    In timeout_clearSuccess tasks /\
    Editor.filesToUpload st' = Editor.filesToUpload (st w) /\
    Editor.albumId st' = Editor.albumId (st w).
Proof.
  intros Ha Ht. unfold Editor.uploadDone, done_toasts, when, setTimeout.
  destruct (0 <? sc)%nat.
  - unfold bind at 1. unfold bind at 1. unfold addToast at 1. unfold emit at 1.
    match goal with |- context [Editor.fetchAlbumData env ?w1] =>
      destruct (fetchAlbumData_run env a w1 Ha Ht)
        as (evs & tasks & st' & E & (r & Hc) & Hts & Hin & Hq & Hid & _)
    end.
    rewrite E. simpl in *.
    destruct (0 <? ec)%nat; unfold bind, addToast, emit, defer; simpl.
    + eexists (_ :: evs ++ [_; _]), (tasks ++ [_]), st'.
      repeat (rewrite <- app_assoc; simpl).
      split; [reflexivity|].
      rewrite !sdk_calls_app, !toasts_app, Hc, Hts. simpl.
      unfold Queue.inflight in *. rewrite flat_map_app, Hin. simpl.
      repeat split; try assumption.
      * right. now exists r.
      * apply in_or_app. right. now left.
    + eexists (_ :: evs ++ [_]), (tasks ++ [_]), st'.
      repeat (rewrite <- app_assoc; simpl).
      split; [reflexivity|].
      rewrite !sdk_calls_app, !toasts_app, Hc, Hts. simpl.
      unfold Queue.inflight in *. rewrite flat_map_app, Hin. simpl.
      repeat split; try assumption.
      * right. now exists r.
      * apply in_or_app. right. now left.
  - destruct (0 <? ec)%nat; unfold bind, ret, addToast, emit, defer; simpl.
    + eexists [_; _], [_], _. rewrite <- !app_assoc.
      split; [reflexivity|]. simpl. repeat split; auto. now left.
    + eexists [_], [_], _.
      split; [reflexivity|]. simpl. repeat split; auto. now left.
Qed.

Lemma counted_sums o sc ec outs :
  fst (counted o sc ec) + successes outs = sc + successes (o :: outs) /\
  snd (counted o sc ec) + failures outs = ec + failures (o :: outs).
Proof. destruct o; unfold successes, failures; simpl; lia. Qed.

(** The loop, turn by turn. *)
Lemma uploadLoop_run env a l :
  forall sc ec (w : World Editor.state),
    Editor.albumId (st w) = Some a -> Js.truthy a = true ->
    exists turns evs tasks st' refresh,
      Forall2 (fun uf t => turn a uf (fst t) (snd t)) l turns /\
      Editor.uploadLoop a l sc ec env w =
      (tt, {| trace := trace w ++ evs; uuid_calls := uuid_calls w + length l;
              url_calls := url_calls w; pending := pending w ++ tasks; st := st' |}) /\
      sdk_calls evs = concat (map fst turns) ++ refresh /\
      is_refresh a refresh /\
      toasts evs = done_toasts (sc + successes (map snd turns))
                               (ec + failures (map snd turns)) /\
      Queue.inflight tasks = [] /\
      In timeout_clearSuccess tasks /\
      Editor.filesToUpload st' =
        settle_all l (map snd turns) (Editor.filesToUpload (st w)) /\
      Editor.albumId st' = Editor.albumId (st w).
Proof.
  induction l as [|uf l IH]; intros sc ec w Ha Ht.
  - simpl.
    destruct (uploadDone_run env a sc ec w Ha Ht)
      as (evs & tasks & st' & E & Href & Hts & Hin & Htm & Hq & Hid).
    exists [], evs, tasks, st', (sdk_calls evs).
    rewrite E, Nat.add_0_r. unfold successes, failures. simpl.
    rewrite !Nat.add_0_r. repeat split; auto.
  - simpl. unfold bind.
    destruct (uploadOne_run env a uf sc ec w)
      as (outcome & calls & evs1 & Hturn & Hc1 & Ht1 & E1).
    rewrite E1.
    match goal with |- context [Editor.uploadLoop a l ?s ?e env ?w1] =>
      destruct (IH s e w1 Ha Ht)
        as (turns & evs & tasks & st' & refresh &
            Hturns & E & Hc & Href & Hts & Hin & Htm & Hq & Hid)
    end.
    rewrite E. simpl in *.
    exists ((calls, outcome) :: turns), (evs1 ++ evs), tasks, st', refresh.
    split; [constructor; assumption|].
    split; [rewrite <- app_assoc, Nat.add_succ_r; reflexivity|].
    rewrite sdk_calls_app, toasts_app, Hc1, Hc, Ht1, Hts. simpl.
    destruct (counted_sums outcome sc ec (map snd turns)) as [Hs Hf].
    rewrite Hs, Hf, <- app_assoc.
    repeat split; auto.
Qed.

Lemma handleUploadAll_begin_run env a (w : World Editor.state) :
  Editor.albumId (st w) = Some a -> Js.truthy a = true ->
  let q := Editor.filesToUpload (st w) in
  Editor.handleUploadAll_begin env w =
  match filter Editor.is_queued q with
  | [] =>
      (None, {| trace := trace w ++ [EvToast "Tidak ada foto dalam antrean." ToastType.info];
                uuid_calls := uuid_calls w; url_calls := url_calls w;
                pending := pending w; st := st w |})
  | _ :: _ =>
      (Some (a, filter Editor.is_queued q),
       {| trace := trace w ++ revocations q;
          uuid_calls := uuid_calls w; url_calls := url_calls w;
          pending := pending w;
          st := Editor.put_filesToUpload (Editor.markUploading q) (st w) |})
  end.
Proof.
  intros Ha Ht q. unfold Editor.handleUploadAll_begin, bind, getState.
  rewrite Ha, Ht. fold q.
  destruct (filter Editor.is_queued q) eqn:E.
  - reflexivity.
  - rewrite setFilesToUpload_run. reflexivity.
Qed.

End Upload.

(** ** Updates of the queue *)

Module QueueFacts.
Import UploadableFile.

Lemma has_id_true i f : Editor.has_id i f = true <-> id f = i.
Proof. unfold Editor.has_id. apply String.eqb_eq. Qed.

Lemma has_id_false i f : Editor.has_id i f = false <-> id f <> i.
Proof. unfold Editor.has_id. apply String.eqb_neq. Qed.

Lemma id_settled o f : id (settled o f) = id f.
Proof. now destruct o. Qed.

Lemma settled_uploading o f :
  settled o (with_status Status.uploading f) = settled o f.
Proof. now destruct o. Qed.

Lemma map_id_settle i o q : map id (settle i o q) = map id q.
Proof.
  destruct o; unfold settle, Editor.markError, Editor.markSuccess;
    rewrite map_map; apply map_ext; intros f;
    now destruct (Editor.has_id i f).
Qed.

Lemma map_id_markUploading q : map id (Editor.markUploading q) = map id q.
Proof.
  unfold Editor.markUploading. rewrite map_map. apply map_ext. intros f.
  now destruct (Editor.is_queued f).
Qed.

Lemma map_id_settle_all l outs : forall q, map id (settle_all l outs q) = map id q.
Proof.
  unfold settle_all. generalize (combine l outs) as ps.
  induction ps as [|p ps IH]; intros q; simpl; [reflexivity|].
  now rewrite IH, map_id_settle.
Qed.

(** A turn settles the entry it is for. *)
Lemma In_settle_same o f q : In f q -> In (settled o f) (settle (id f) o q).
Proof.
  intros H.
  destruct o; unfold settle, Editor.markError, Editor.markSuccess, settled;
    apply in_map_iff; exists f; (split; [|assumption]);
    now rewrite (proj2 (has_id_true (id f) f) eq_refl).
Qed.

(** A turn leaves the entries of other ids alone. *)
Lemma In_settle_other i o f q : In f q -> id f <> i -> In f (settle i o q).
Proof.
  intros H Hne.
  destruct o; unfold settle, Editor.markError, Editor.markSuccess;
    apply in_map_iff; exists f; (split; [|assumption]);
    now rewrite (proj2 (has_id_false i f) Hne).
Qed.

(** What a turn does to an entry. *)
Lemma In_settle_inv i o g q :
  In g (settle i o q) ->
  exists f, In f q /\ g = if Editor.has_id i f then settled o f else f.
Proof.
  intros H.
  destruct o; unfold settle, Editor.markError, Editor.markSuccess, settled in *;
    apply in_map_iff in H; destruct H as (f & Hg & Hf); exists f; auto.
Qed.

Lemma In_markUploading f q :
  In f q ->
  In (if Editor.is_queued f then with_status Status.uploading f else f)
     (Editor.markUploading q).
Proof.
  intros H. unfold Editor.markUploading. apply in_map_iff. now exists f.
Qed.

Lemma is_queued_true f : Editor.is_queued f = true <-> status f = Status.queued.
Proof. unfold Editor.is_queued. destruct (status f); simpl; split; congruence. Qed.

Lemma same_id_same_entry q f g :
  NoDup (map id q) -> In f q -> In g q -> id f = id g -> f = g.
Proof.
  induction q as [|h q IH]; simpl; intros Hnd Hf Hg E; [contradiction|].
  inversion Hnd as [|? ? Hnotin Hnd']; subst.
  destruct Hf as [->|Hf], Hg as [->|Hg]; auto.
  - exfalso. apply Hnotin. rewrite E. now apply in_map.
  - exfalso. apply Hnotin. rewrite <- E. now apply in_map.
Qed.

Lemma NoDup_map_filter {A B} (g : A -> B) (p : A -> bool) l :
  NoDup (map g l) -> NoDup (map g (filter p l)).
Proof.
  induction l as [|a l IH]; simpl; intros H; [constructor|].
  inversion H as [|? ? Hnotin Hnd]; subst.
  destruct (p a); simpl; auto.
  constructor; auto.
  intros Hin. apply Hnotin. apply in_map_iff in Hin.
  destruct Hin as (x & Hx & Hin). apply filter_In in Hin.
  apply in_map_iff. exists x. tauto.
Qed.

(** The turns after one leave what that one settled. *)
Lemma settle_all_keeps l :
  forall outs q f, In f q -> ~ In (id f) (map id l) -> In f (settle_all l outs q).
Proof.
  induction l as [|uf l IH]; intros outs q f Hf Hnotin; destruct outs as [|o outs];
    try exact Hf.
  change (In f (settle_all l outs (settle (id uf) o q))).
  apply IH.
  - apply In_settle_other; [assumption|]. intros E. apply Hnotin. left. now symmetry.
  - intros Hin. apply Hnotin. now right.
Qed.

(** After the loop each entry it was run on is settled by its own turn. *)
Lemma settle_all_settles l :
  forall outs q,
    NoDup (map id l) ->
    (forall uf, In uf l -> In (with_status Status.uploading uf) q) ->
    length outs = length l ->
    Forall2 (fun uf o => In (settled o uf) (settle_all l outs q)) l outs.
Proof.
  induction l as [|uf l IH]; intros outs q Hnd Hin Hlen;
    destruct outs as [|o outs]; try discriminate; [constructor|].
  inversion Hnd as [|? ? Hnotin Hnd']; subst.
  change (settle_all (uf :: l) (o :: outs) q)
    with (settle_all l outs (settle (id uf) o q)).
  constructor.
  - apply settle_all_keeps.
    + rewrite <- settled_uploading.
      apply (In_settle_same o (with_status Status.uploading uf)).
      apply Hin. now left.
    + now rewrite id_settled.
  - assert (G : Forall2 (fun uf0 o0 =>
                  In (settled o0 uf0) (settle_all l outs (settle (id uf) o q))) l outs).
    { apply IH; auto.
      intros uf' Huf'. apply In_settle_other; [apply Hin; now right|].
      simpl. intros E. apply Hnotin. rewrite <- E. now apply in_map. }
    exact G.
Qed.

End QueueFacts.

(** ** A run of [handleUploadAll] *)

Module UploadRun.
Import Run Select Upload QueueFacts.

Lemma Forall2_length_eq {A B} (P : A -> B -> Prop) l l' :
  Forall2 P l l' -> length l' = length l.
Proof. induction 1; simpl; congruence. Qed.

Lemma Forall2_In_l {A B} (P : A -> B -> Prop) l l' x :
  Forall2 P l l' -> In x l -> exists y, In y l' /\ P x y.
Proof.
  induction 1 as [|a b l l' Hab _ IH]; intros Hin; [destruct Hin|].
  destruct Hin as [->|Hin].
  - exists b. split; [now left|assumption].
  - destruct (IH Hin) as (y & Hy & Hp). exists y. split; [now right|assumption].
Qed.

(** What has become of an entry once the timer of the run has fired over
    the queue [qf] the run left. *)
Lemma after_timer qf uf o :
  NoDup (map UploadableFile.id qf) ->
  In (settled o uf) qf ->
  match o with
  | None =>
      (exists g, In g qf /\
         UploadableFile.id g = UploadableFile.id uf /\
         UploadableFile.file g = UploadableFile.file uf /\
         UploadableFile.status g = Status.success) /\
      (forall g, In g (Editor.clearSuccess qf) ->
                 UploadableFile.id g <> UploadableFile.id uf)
  | Some m =>
      exists g, In g qf /\ In g (Editor.clearSuccess qf) /\
        UploadableFile.id g = UploadableFile.id uf /\
        UploadableFile.file g = UploadableFile.file uf /\
        UploadableFile.status g = Status.error /\
        UploadableFile.error g = Some m
  end.
Proof.
  intros Hnd Hin. destruct o as [m|]; simpl in *.
  - exists (UploadableFile.with_error m uf).
    split; [assumption|]. split.
    + unfold Editor.clearSuccess. apply filter_In. now split.
    + repeat split.
  - split.
    + exists (UploadableFile.with_status Status.success uf).
      split; [assumption|]. repeat split.
    + intros g Hg E.
      unfold Editor.clearSuccess in Hg. apply filter_In in Hg. destruct Hg as [Hg Hs].
      assert (G : g = UploadableFile.with_status Status.success uf)
        by (apply (same_id_same_entry qf); auto).
      subst g. discriminate.
Qed.

(** The SDK calls of a run: the turns, one per entry ['queued'] at its
    start, and what the refresh asks first. *)
Lemma handleUploadAll_calls env (w : World Editor.state) a :
  Editor.albumId (st w) = Some a ->
  Js.truthy a = true ->
  exists turns refresh,
    sdk_calls (trace (exec Editor.handleUploadAll env w)) =
      sdk_calls (trace w) ++ concat (map fst turns) ++ refresh /\
    Forall2 (fun uf t => turn a uf (fst t) (snd t))
      (filter Editor.is_queued (Editor.filesToUpload (st w))) turns /\
    is_refresh a refresh.
Proof.
  intros Ha Ht. unfold exec, Editor.handleUploadAll, bind.
  rewrite (handleUploadAll_begin_run env a w Ha Ht).
  destruct (filter Editor.is_queued (Editor.filesToUpload (st w))) as [|p ps] eqn:Eq.
  - exists [], []. unfold ret. cbn [snd trace]. rewrite sdk_calls_app. cbn.
    split; [reflexivity|]. split; [constructor|now left].
  - rewrite <- Eq.
    match goal with |- context [Editor.uploadLoop a _ 0 0 env ?w0] =>
      destruct (uploadLoop_run env a
                  (filter Editor.is_queued (Editor.filesToUpload (st w))) 0 0 w0 Ha Ht)
        as (turns & evs & tasks & st' & refresh & Hturns & E & Hc & Href & _)
    end.
    rewrite E. cbn [snd trace]. exists turns, refresh.
    rewrite <- app_assoc, !sdk_calls_app, sdk_calls_revocations, Hc.
    split; [reflexivity|]. split; assumption.
Qed.

(** The album id of the page outlives a run and its timer. *)
Lemma albumId_after_run env (w : World Editor.state) a :
  Editor.albumId (st w) = Some a ->
  Js.truthy a = true ->
  Editor.albumId
    (st (exec (Editor.run_task timeout_clearSuccess) env
           (exec Editor.handleUploadAll env w))) = Some a.
Proof.
  intros Ha Ht. unfold exec at 2. unfold Editor.handleUploadAll, bind.
  rewrite (handleUploadAll_begin_run env a w Ha Ht).
  destruct (filter Editor.is_queued (Editor.filesToUpload (st w))) as [|p ps] eqn:Eq.
  - unfold ret, exec, Editor.run_task. rewrite setFilesToUpload_run. exact Ha.
  - rewrite <- Eq.
    match goal with |- context [Editor.uploadLoop a _ 0 0 env ?w0] =>
      destruct (uploadLoop_run env a
                  (filter Editor.is_queued (Editor.filesToUpload (st w))) 0 0 w0 Ha Ht)
        as (turns & evs & tasks & st' & refresh & _ & E & _ & _ & _ & _ & _ & _ & Hid)
    end.
    rewrite E. unfold exec, Editor.run_task. rewrite setFilesToUpload_run.
    cbn [snd st Editor.albumId Editor.put_filesToUpload] in *.
    rewrite Hid. exact Ha.
Qed.

(** Selecting a file again and running the upload hands the file to the
    storage once more. *)
Lemma resubmitted env (w : World Editor.state) a file :
  Editor.albumId (st w) = Some a ->
  Js.truthy a = true ->
  accepted file = true ->
  let w3 := exec (Editor.handleFileSelect (Some [file])) env w in
  let w4 := exec Editor.handleUploadAll env w3 in
  exists g calls fileName r,
    Editor.filesToUpload (st w3) = Editor.filesToUpload (st w) ++ [g] /\
    UploadableFile.file g = file /\
    UploadableFile.status g = Status.queued /\
    sdk_calls (trace w4) = sdk_calls (trace w3) ++ calls /\
    In (EvCall (Sdk.storage_upload fileName file) r) calls.
Proof.
  intros Ha Ht Hacc w3 w4.
  destruct (handleFileSelect_run env [file] w)
    as (newFiles & evs & Hq & _ & _ & _ & Ha3 & Hfiles & Hqd & _).
  fold w3 in Hq, Ha3.
  cbn [filter] in Hfiles. rewrite Hacc in Hfiles.
  destruct newFiles as [|g [|g' rest]]; try discriminate.
  injection Hfiles as Hfile.
  assert (Hstatus : UploadableFile.status g = Status.queued) by now inversion Hqd.
  rewrite Ha in Ha3.
  destruct (handleUploadAll_calls env w3 a Ha3 Ht) as (turns & refresh & Hc & Hturns & _).
  fold w4 in Hc.
  assert (Hin : In g (filter Editor.is_queued (Editor.filesToUpload (st w3)))).
  { apply filter_In. split.
    - rewrite Hq. apply in_or_app. right. now left.
    - unfold Editor.is_queued. now rewrite Hstatus. }
  destruct (Forall2_In_l _ _ _ g Hturns Hin) as (t & Ht' & Hturn).
  assert (Hup : exists fileName r tail,
             fst t = EvCall (Sdk.storage_upload fileName file) r :: tail).
  { rewrite <- Hfile. inversion Hturn; subst; do 3 eexists; reflexivity. }
  destruct Hup as (fileName & r & tail & Hfst).
  exists g, (concat (map fst turns) ++ refresh), fileName, r.
  split; [exact Hq|]. split; [exact Hfile|]. split; [exact Hstatus|].
  split; [exact Hc|].
  apply in_or_app. left. apply in_concat. exists (fst t).
  split; [now apply in_map|]. rewrite Hfst. now left.
Qed.

(** C3.  On the page of an album whose queue entries have distinct ids, a
    run of [handleUploadAll] with no entry ['queued'] makes no SDK call,
    shows the info toast and leaves the queue as it is.  Otherwise it takes
    one turn per entry that was ['queued'] at its start, in queue order:
    the turn uploads the file of the entry and, when that succeeds, looks
    up the public URL and inserts the photo row.  An entry whose upload and
    insert both succeeded is in the queue with status ['success'] after the
    run and is gone once the timer of the run has fired; an entry whose
    upload or insert failed is in the queue, with its file, status ['error']
    and the message of the failure, after the run and after the timer.  The
    other entries stay as they were; the only other SDK call of the run is the
    first request of the refresh.  A failed file is retried by submitting it
    again: selected anew it gets an entry ['queued'] at the end of the queue,
    and the next run hands it to the storage once more. *)
Theorem handleUploadAll_settles_queued_entries :
  forall env (w : World Editor.state) (a : string),
    Editor.albumId (st w) = Some a ->
    Js.truthy a = true ->
    NoDup (map UploadableFile.id (Editor.filesToUpload (st w))) ->
    let q := Editor.filesToUpload (st w) in
    let filesToProcess := filter Editor.is_queued q in
    let w1 := exec Editor.handleUploadAll env w in
    let w2 := exec (Editor.run_task timeout_clearSuccess) env w1 in
    let q1 := Editor.filesToUpload (st w1) in
    let q2 := Editor.filesToUpload (st w2) in
    (filesToProcess = [] ->
       sdk_calls (trace w1) = sdk_calls (trace w) /\
       toasts (trace w1) =
         toasts (trace w) ++ [("Tidak ada foto dalam antrean.", ToastType.info)] /\
       q1 = q) /\
    (filesToProcess <> [] ->
       exists turns refresh,
         sdk_calls (trace w1) =
           sdk_calls (trace w) ++ concat (map fst turns) ++ refresh /\
         is_refresh a refresh /\
         Forall2
           (fun uf t =>
              turn a uf (fst t) (snd t) /\
              match snd t with
              | None =>
                  (exists g, In g q1 /\
                     UploadableFile.id g = UploadableFile.id uf /\
                     UploadableFile.file g = UploadableFile.file uf /\
                     UploadableFile.status g = Status.success) /\
                  (forall g, In g q2 -> UploadableFile.id g <> UploadableFile.id uf)
              | Some m =>
                  exists g, In g q1 /\ In g q2 /\
                    UploadableFile.id g = UploadableFile.id uf /\
                    UploadableFile.file g = UploadableFile.file uf /\
                    UploadableFile.status g = Status.error /\
                    UploadableFile.error g = Some m
              end)
           filesToProcess turns /\
         (forall f, In f q -> Editor.is_queued f = false -> In f q1) /\
         map UploadableFile.id q1 = map UploadableFile.id q /\
         In timeout_clearSuccess (pending w1)) /\
    (forall file : File.t,
       accepted file = true ->
       let w3 := exec (Editor.handleFileSelect (Some [file])) env w2 in
       let w4 := exec Editor.handleUploadAll env w3 in
       exists g calls fileName r,
         Editor.filesToUpload (st w3) = q2 ++ [g] /\
         UploadableFile.file g = file /\
         UploadableFile.status g = Status.queued /\
         sdk_calls (trace w4) = sdk_calls (trace w3) ++ calls /\
         In (EvCall (Sdk.storage_upload fileName file) r) calls).
Proof.
  intros env w a Ha Ht Hnd. cbv zeta.
  split; [|split].
  3:{ intros file Hacc.
      exact (resubmitted env _ a file (albumId_after_run env w a Ha Ht) Ht Hacc). }
  all: unfold exec, Editor.handleUploadAll, bind;
    rewrite (handleUploadAll_begin_run env a w Ha Ht);
    destruct (filter Editor.is_queued (Editor.filesToUpload (st w))) as [|p ps] eqn:Eq;
    try congruence; try discriminate.
  - intros _. simpl.
    rewrite sdk_calls_app, toasts_app. simpl. rewrite app_nil_r. auto.
  - intros _. rewrite <- Eq.
    set (q := Editor.filesToUpload (st w)) in *.
    match goal with |- context [Editor.uploadLoop a _ 0 0 env ?w0] =>
      destruct (uploadLoop_run env a (filter Editor.is_queued q) 0 0 w0 Ha Ht)
        as (turns & evs & tasks & st' & refresh &
            Hturns & E & Hc & Href & _ & _ & Htm & Hq & _)
    end.
    rewrite E. simpl in Hq |- *.
    unfold Editor.run_task. rewrite setFilesToUpload_run. simpl.
    assert (Hids : map UploadableFile.id (Editor.filesToUpload st') =
                   map UploadableFile.id q)
      by (rewrite Hq, map_id_settle_all; apply map_id_markUploading).
    assert (Hnd' : NoDup (map UploadableFile.id (Editor.filesToUpload st')))
      by (rewrite Hids; exact Hnd).
    exists turns, refresh.
    split.
    { rewrite <- app_assoc, !sdk_calls_app, sdk_calls_revocations, Hc. reflexivity. }
    split; [exact Href|].
    split.
    { assert (Hs : Forall2 (fun uf o => In (settled o uf) (Editor.filesToUpload st'))
                     (filter Editor.is_queued q) (map snd turns)).
      { rewrite Hq. apply settle_all_settles.
        - now apply NoDup_map_filter.
        - intros uf Huf. apply filter_In in Huf. destruct Huf as [Huf Hqd].
          generalize (In_markUploading uf q Huf). now rewrite Hqd.
        - rewrite length_map. apply (Forall2_length_eq _ _ _ Hturns). }
      clear - Hturns Hs Hnd'. revert Hs.
      induction Hturns as [|uf t l turns' Hut _ IH]; intros Hs; cbn [map] in Hs;
        [constructor|].
      inversion Hs; subst. constructor.
      - split; [exact Hut|]. now apply after_timer.
      - now apply IH. }
    split.
    { intros f Hf Hnq. rewrite Hq. apply settle_all_keeps.
      - generalize (In_markUploading f q Hf). now rewrite Hnq.
      - intros Hin. apply in_map_iff in Hin. destruct Hin as (uf & E' & Huf).
        apply filter_In in Huf. destruct Huf as [Huf Hqd].
        assert (uf = f) by (apply (same_id_same_entry q); auto).
        subst uf. congruence. }
    split; [exact Hids|].
    apply in_or_app. now right.
Qed.

Lemma handleUploadAll_settles_queued_entries_witness :
  let w := Sample.editor_with_image in
  let down := Sample.env_storage_down in
  let w1 := exec Editor.handleUploadAll Sample.env w in
  let f1 := exec Editor.handleUploadAll down w in
  let f2 := exec (Editor.run_task timeout_clearSuccess) down f1 in
  let f3 := exec (Editor.handleFileSelect (Some [Sample.image])) down f2 in
  let f4 := exec Editor.handleUploadAll down f3 in
  Editor.albumId (st w) = Some "a1" /\
  Js.truthy "a1" = true /\
  NoDup (map UploadableFile.id (Editor.filesToUpload (st w))) /\
  accepted Sample.image = true /\
  map UploadableFile.status (Editor.filesToUpload (st w1)) = [Status.success] /\
  In timeout_clearSuccess (pending w1) /\
  map (fun g => (UploadableFile.status g, UploadableFile.error g))
    (Editor.filesToUpload (st f2)) = [(Status.error, Some "storage unavailable")] /\
  methods (sdk_calls (trace (exec Editor.handleUploadAll down f2))) = ["storage.upload"] /\
  methods (sdk_calls (trace f4)) = ["storage.upload"; "storage.upload"] /\
  exists g calls fileName r,
    Editor.filesToUpload (st f3) = Editor.filesToUpload (st f2) ++ [g] /\
    UploadableFile.file g = Sample.image /\
    UploadableFile.status g = Status.queued /\
    sdk_calls (trace f4) = sdk_calls (trace f3) ++ calls /\
    In (EvCall (Sdk.storage_upload fileName Sample.image) r) calls.
Proof.
  intros w down w1 f1 f2 f3 f4.
  assert (H1 : Editor.albumId (st w) = Some "a1") by reflexivity.
  assert (H2 : Js.truthy "a1" = true) by reflexivity.
  assert (H3 : NoDup (map UploadableFile.id (Editor.filesToUpload (st w))))
    by (simpl; constructor; [intros []|constructor]).
  destruct (handleUploadAll_settles_queued_entries Sample.env w "a1" H1 H2 H3)
    as (_ & H & _).
  destruct H as (turns & refresh & _ & _ & _ & _ & _ & Htimer);
    [discriminate|].
  destruct (handleUploadAll_settles_queued_entries down w "a1" H1 H2 H3)
    as (_ & _ & Hretry).
  split; [exact H1|]. split; [exact H2|]. split; [exact H3|].
  split; [reflexivity|].
  split; [vm_compute; reflexivity|]. split; [exact Htimer|].
  split; [vm_compute; reflexivity|].
  split; [vm_compute; reflexivity|].
  split; [vm_compute; reflexivity|].
  exact (Hretry Sample.image eq_refl).
Defined.

End UploadRun.

(** ** The invariant of the upload queue *)

Module QueueInvariant.
Import Run Upload QueueFacts Queue.

Lemma NoDup_map_seq env u n :
  unique_uuids env -> NoDup (map (randomUUID env) (seq u n)).
Proof.
  intros Hinj. revert u. induction n as [|n IH]; intros u; simpl; constructor.
  - intros Hin. apply in_map_iff in Hin. destruct Hin as (k & E & Hk).
    apply Hinj in E. subst k. apply in_seq in Hk. lia.
  - apply IH.
Qed.

Lemma turn_permutation (i : string) infl1 rest infl2 :
  Permutation (infl1 ++ (i :: rest) ++ infl2) (i :: infl1 ++ infl2 ++ rest).
Proof.
  simpl. apply Permutation_sym.
  apply Permutation_trans with (l' := i :: infl1 ++ rest ++ infl2).
  - constructor. apply Permutation_app_head. apply Permutation_app_comm.
  - apply Permutation_middle.
Qed.

(** Every effect keeps the invariant. *)
Lemma effect_invariant env q u infl q' u' infl' :
  unique_uuids env ->
  invariant_of env q u infl ->
  effect env q u infl q' u' infl' ->
  invariant_of env q' u' infl'.
Proof.
  intros Hinj [H1 H2 H3 H4 H5] He.
  destruct He as [u' Hu | newFiles Hids Hq | p | | i o infl1 rest infl2 Hinfl].
  - (* idle *)
    constructor; auto.
    + intros f Hf. destruct (H2 f Hf) as (k & Hk & E). exists k. split; [lia|auto].
    + intros i Hi. destruct (H4 i Hi) as (k & Hk & E). exists k. split; [lia|auto].
  - (* append *)
    constructor; auto.
    + rewrite map_app, Hids. apply NoDup_app; auto using NoDup_map_seq.
      intros x Hx Hx'. apply in_map_iff in Hx. destruct Hx as (f & <- & Hf).
      destruct (H2 f Hf) as (k & Hk & E).
      apply in_map_iff in Hx'. destruct Hx' as (k' & E' & Hk').
      rewrite E in E'. apply Hinj in E'. subst k'. apply in_seq in Hk'. lia.
    + intros f Hf. apply in_app_or in Hf. destruct Hf as [Hf|Hf].
      * destruct (H2 f Hf) as (k & Hk & E). exists k. split; [lia|auto].
      * assert (Hin : In (UploadableFile.id f) (map UploadableFile.id newFiles))
          by now apply in_map.
        rewrite Hids in Hin. apply in_map_iff in Hin. destruct Hin as (k & E & Hk).
        apply in_seq in Hk. exists k. split; [lia|auto].
    + intros i Hi. destruct (H4 i Hi) as (k & Hk & E). exists k. split; [lia|auto].
    + intros f Hf Hin. apply in_app_or in Hf. destruct Hf as [Hf|Hf]; auto.
      exfalso.
      assert (Hin' : In (UploadableFile.id f) (map UploadableFile.id newFiles))
        by now apply in_map.
      rewrite Hids in Hin'. apply in_map_iff in Hin'. destruct Hin' as (k & E & Hk).
      destruct (H4 _ Hin) as (k' & Hk' & E').
      rewrite <- E in E'. apply Hinj in E'. subst k'. apply in_seq in Hk. lia.
  - (* filter *)
    constructor; auto.
    + now apply NoDup_map_filter.
    + intros f Hf. apply filter_In in Hf. apply H2, Hf.
    + intros f Hf. apply filter_In in Hf. apply H5, Hf.
  - (* start *)
    assert (Hqd : forall x, In x (map UploadableFile.id (filter Editor.is_queued q)) ->
                  exists f, In f q /\ UploadableFile.id f = x /\
                            UploadableFile.status f = Status.queued).
    { intros x Hx. apply in_map_iff in Hx. destruct Hx as (f & E & Hf).
      apply filter_In in Hf. destruct Hf as [Hf Hs]. apply is_queued_true in Hs.
      now exists f. }
    constructor.
    + now rewrite map_id_markUploading.
    + intros f' Hf'. unfold Editor.markUploading in Hf'. apply in_map_iff in Hf'.
      destruct Hf' as (f & <- & Hf). destruct (H2 f Hf) as (k & Hk & E).
      exists k. split; [assumption|]. now destruct (Editor.is_queued f).
    + apply NoDup_app; auto using NoDup_map_filter.
      intros x Hx Hx'. destruct (Hqd x Hx') as (f & Hf & <- & Hs).
      rewrite (H5 f Hf Hx) in Hs. discriminate.
    + intros i Hi. apply in_app_or in Hi. destruct Hi as [Hi|Hi]; auto.
      destruct (Hqd i Hi) as (f & Hf & <- & _). auto.
    + intros f' Hf' Hin. unfold Editor.markUploading in Hf'. apply in_map_iff in Hf'.
      destruct Hf' as (f & <- & Hf).
      destruct (Editor.is_queued f) eqn:Hs; [reflexivity|].
      apply in_app_or in Hin. destruct Hin as [Hin|Hin]; auto.
      destruct (Hqd _ Hin) as (g & Hg & E & Hgs).
      assert (g = f) by (apply (same_id_same_entry q); auto). subst g.
      apply is_queued_true in Hgs. congruence.
  - (* turn *)
    subst infl.
    pose proof (Permutation_NoDup (turn_permutation i infl1 rest infl2) H3) as Hnd.
    inversion Hnd as [|? ? Hnotin Hnd']; subst.
    assert (Hsub : forall x, In x (infl1 ++ infl2 ++ rest) ->
                             In x (infl1 ++ (i :: rest) ++ infl2)).
    { intros x Hx. apply (Permutation_in x (Permutation_sym (turn_permutation i _ _ _))).
      now right. }
    constructor; auto.
    + now rewrite map_id_settle.
    + intros f' Hf'. apply In_settle_inv in Hf'. destruct Hf' as (f & Hf & ->).
      destruct (H2 f Hf) as (k & Hk & E). exists k. split; [lia|].
      destruct (Editor.has_id i f); [rewrite id_settled|]; assumption.
    + intros x Hx. destruct (H4 x (Hsub x Hx)) as (k & Hk & E).
      exists k. split; [lia|auto].
    + intros f' Hf' Hin. apply In_settle_inv in Hf'. destruct Hf' as (f & Hf & ->).
      destruct (Editor.has_id i f) eqn:Hi.
      * exfalso. rewrite id_settled in Hin. apply has_id_true in Hi. congruence.
      * apply H5; auto.
Qed.

(** Every effect moves the statuses as the spec allows. *)
Lemma effect_transitions env q u infl q' u' infl' :
  unique_uuids env ->
  invariant_of env q u infl ->
  effect env q u infl q' u' infl' ->
  forall f', In f' q' -> created_or_moved q f'.
Proof.
  intros Hinj [H1 H2 H3 H4 H5] He f' Hf'.
  assert (Hsame : forall f, In f q -> created_or_moved q f).
  { intros f Hf. right. exists f. repeat split; auto. }
  destruct He as [u' Hu | newFiles Hids Hq | p | | i o infl1 rest infl2 Hinfl].
  - auto.
  - apply in_app_or in Hf'. destruct Hf' as [Hf'|Hf']; auto.
    left. split.
    + rewrite Forall_forall in Hq. now apply Hq.
    + intros f Hf E. destruct (H2 f Hf) as (k & Hk & Ek).
      assert (Hin : In (UploadableFile.id f') (map UploadableFile.id newFiles))
        by now apply in_map.
      rewrite Hids in Hin. apply in_map_iff in Hin. destruct Hin as (k' & E' & Hk').
      rewrite <- E, Ek in E'. apply Hinj in E'. subst k'. apply in_seq in Hk'. lia.
  - apply filter_In in Hf'. apply Hsame, Hf'.
  - unfold Editor.markUploading in Hf'. apply in_map_iff in Hf'.
    destruct Hf' as (f & <- & Hf).
    destruct (Editor.is_queued f) eqn:Hs; auto.
    right. exists f. repeat split; auto.
    right. apply is_queued_true in Hs. rewrite Hs. constructor.
  - apply In_settle_inv in Hf'. destruct Hf' as (f & Hf & ->).
    destruct (Editor.has_id i f) eqn:Hi; auto.
    right. exists f. split; [assumption|].
    assert (Hup : UploadableFile.status f = Status.uploading).
    { apply H5; auto. apply has_id_true in Hi. rewrite Hi, Hinfl.
      apply in_or_app. right. now left. }
    destruct o; simpl; rewrite Hup; repeat split; auto; right; constructor.
Qed.

End QueueInvariant.

(** ** The steps of the upload queue *)

Module QueueSteps.
Import Run Select Upload QueueFacts Queue QueueInvariant.

Lemma removeFileFromQueue_run env id (w : World Editor.state) :
  let w' := exec (Editor.removeFileFromQueue id) env w in
  Editor.filesToUpload (st w') =
    filter (fun f => negb (Editor.has_id id f)) (Editor.filesToUpload (st w)) /\
  uuid_calls w' = uuid_calls w /\
  pending w' = pending w /\
  revoked (trace w') =
    revoked (trace w) ++
    match find (Editor.has_id id) (Editor.filesToUpload (st w)) with
    | Some f => [UploadableFile.previewUrl f]
    | None => []
    end ++ map UploadableFile.previewUrl (Editor.filesToUpload (st w)).
Proof.
  cbv zeta. unfold exec, Editor.removeFileFromQueue, Editor.setFilesToUpload, bind, getState.
  destruct (find (Editor.has_id id) (Editor.filesToUpload (st w)));
    unfold urlRevokeObjectURL, emit, ret, setState;
    rewrite cleanupObjectURLs_run; simpl;
    rewrite ?revoked_app, revoked_revocations; simpl;
    rewrite <- ?app_assoc, ?app_nil_r; auto.
Qed.

Lemma fetchAlbumData_frame env (w : World Editor.state) :
  let w' := exec Editor.fetchAlbumData env w in
  Editor.filesToUpload (st w') = Editor.filesToUpload (st w) /\
  uuid_calls w' = uuid_calls w /\
  exists tasks, pending w' = pending w ++ tasks /\ inflight tasks = [].
Proof.
  cbv zeta. unfold exec, Editor.fetchAlbumData, Editor.fetchAlbumData_begin, bind, getState.
  destruct (Editor.albumId (st w)) as [a|]; [destruct (Js.truthy a)|]; simpl;
    repeat split; auto; try (exists []; now rewrite app_nil_r).
  eexists [_]. split; reflexivity.
Qed.

Lemma fetchAlbumData_resume_frame env a r (w : World Editor.state) :
  let w' := exec (Editor.fetchAlbumData_resume a r) env w in
  Editor.filesToUpload (st w') = Editor.filesToUpload (st w) /\
  uuid_calls w' = uuid_calls w /\
  pending w' = pending w.
Proof.
  cbv zeta. unfold exec, Editor.fetchAlbumData_resume.
  destruct r as [albumData|albumError]; unfold bind, call; simpl; auto.
  match goal with |- context [respond env _ ?t ?c] =>
    destruct (respond env _ t c) as [[d|] [e|]]
  end; simpl; auto.
Qed.

Lemma uploadDone_frame env sc ec (w : World Editor.state) :
  let w' := exec (Editor.uploadDone sc ec) env w in
  Editor.filesToUpload (st w') = Editor.filesToUpload (st w) /\
  uuid_calls w' = uuid_calls w /\
  exists tasks, pending w' = pending w ++ tasks /\ inflight tasks = [].
Proof.
  cbv zeta. unfold exec, Editor.uploadDone, when, setTimeout, bind.
  destruct (0 <? sc)%nat.
  - unfold addToast, emit.
    match goal with |- context [Editor.fetchAlbumData env ?w1] =>
      destruct (fetchAlbumData_frame env w1) as (Hq & Hu & tasks & Hp & Hin);
      unfold exec in Hq, Hu, Hp;
      destruct (Editor.fetchAlbumData env w1) as [[] w2]
    end.
    simpl in *.
    destruct (0 <? ec)%nat; unfold ret, defer; simpl;
      (split; [assumption|]); (split; [assumption|]);
      exists (tasks ++ [timeout_clearSuccess]);
      rewrite Hp, <- app_assoc; unfold inflight in *;
      rewrite flat_map_app, Hin; auto.
  - destruct (0 <? ec)%nat; unfold bind, ret, addToast, emit, defer; simpl;
      repeat split; auto; exists [timeout_clearSuccess]; auto.
Qed.

Lemma effect_eq env q u infl q' u' infl' q2 u2 infl2 :
  effect env q u infl q' u' infl' ->
  q2 = q' -> u2 = u' -> infl2 = infl' ->
  effect env q u infl q2 u2 infl2.
Proof. intros; subst; assumption. Qed.

Lemma inflight_app a b : inflight (a ++ b) = inflight a ++ inflight b.
Proof. apply flat_map_app. Qed.

(** What each step does. *)
Lemma step_effect env w w' :
  step env w w' ->
  effect env (Editor.filesToUpload (st w)) (uuid_calls w) (inflight (pending w))
    (Editor.filesToUpload (st w')) (uuid_calls w') (inflight (pending w')).
Proof.
  intros Hstep.
  destruct Hstep as [w selectedFiles | w id | w | w before t after Hp].
  - (* handleFileSelect *)
    destruct selectedFiles as [files|].
    + destruct (handleFileSelect_run env files w)
        as (newFiles & evs & Hq & _ & Hu & Hpd & _ & _ & Hst & Hids & _).
      eapply effect_eq; [apply (effect_append env _ _ _ newFiles Hids Hst)| | |];
        [exact Hq|exact Hu|now rewrite Hpd].
    + apply effect_idle, le_n.
  - (* removeFileFromQueue *)
    destruct (removeFileFromQueue_run env id w) as (Hq & Hu & Hpd & _).
    eapply effect_eq; [apply effect_filter|exact Hq|exact Hu|now rewrite Hpd].
  - (* handleUploadAll *)
    unfold exec, Editor.handleUploadAll_click, Editor.handleUploadAll_begin, bind, getState.
    destruct (Editor.albumId (st w)) as [a|]; [destruct (Js.truthy a)|];
      try (apply effect_idle, le_n).
    destruct (filter Editor.is_queued (Editor.filesToUpload (st w))) as [|p ps] eqn:E.
    + apply effect_idle, le_n.
    + rewrite setFilesToUpload_run. unfold ret, defer. simpl.
      eapply effect_eq; [apply effect_start|reflexivity|reflexivity|].
      rewrite inflight_app, E. simpl. now rewrite app_nil_r.
  - (* a pending task *)
    rewrite Hp, inflight_app. simpl.
    destruct t as [ar cr | a r | a rest sc ec | ]; simpl.
    + eapply effect_eq; [apply effect_idle, le_n|reflexivity|reflexivity|].
      now rewrite inflight_app.
    + destruct (fetchAlbumData_resume_frame env a r (without_task before after w))
        as (Hq & Hu & Hpd).
      eapply effect_eq; [apply effect_idle, le_n|exact Hq|exact Hu|].
      rewrite Hpd. simpl. now rewrite inflight_app.
    + destruct rest as [|uf rest]; simpl.
      * destruct (uploadDone_frame env sc ec (without_task before after w))
          as (Hq & Hu & tasks & Hpd & Hin).
        eapply effect_eq; [apply effect_idle, le_n|exact Hq|exact Hu|].
        rewrite Hpd. simpl. now rewrite !inflight_app, Hin, app_nil_r.
      * unfold exec, bind.
        destruct (uploadOne_run env a uf sc ec (without_task before after w))
          as (outcome & calls & evs & _ & _ & _ & E).
        rewrite E. unfold defer. simpl.
        eapply effect_eq;
          [apply (effect_turn env _ _ _ (UploadableFile.id uf) outcome
                    (inflight before) (map UploadableFile.id rest) (inflight after));
           reflexivity
          |reflexivity|reflexivity|].
        rewrite !inflight_app. simpl. now rewrite app_nil_r, app_assoc.
    + unfold exec. rewrite setFilesToUpload_run. simpl.
      eapply effect_eq; [apply effect_filter|reflexivity|reflexivity|].
      now rewrite inflight_app.
Qed.

Lemma mount_invariant env albumId : invariant env (mount albumId).
Proof.
  constructor; simpl; try constructor; intros ? [].
Qed.

(** The invariant holds of every reachable world. *)
Lemma reachable_invariant env w :
  unique_uuids env -> reachable env w -> invariant env w.
Proof.
  intros Hinj Hr. induction Hr as [albumId | w w' Hr IH Hstep].
  - apply mount_invariant.
  - apply (effect_invariant env _ _ _ _ _ _ Hinj IH (step_effect env w w' Hstep)).
Qed.

End QueueSteps.

(** ** The statuses of the upload queue *)

Module QueueStatus.
Import Queue QueueInvariant QueueSteps.

Lemma tally_injective m n : Sample.tally m = Sample.tally n -> m = n.
Proof.
  revert n. induction m as [|m IH]; destruct n as [|n]; simpl; try discriminate; auto.
  intros E. inversion E. f_equal. auto.
Qed.

Lemma sample_unique_uuids storage : unique_uuids (Sample.env_with storage).
Proof.
  intros m n E. simpl in E. apply tally_injective.
  now inversion E.
Qed.

(** C2.  Let identifiers drawn from [crypto.randomUUID] be distinct.  In
    every world the page reaches from its mount by [handleFileSelect],
    [removeFileFromQueue], [handleUploadAll] and the tasks these leave to the
    event loop, each queue entry has one of the four statuses; and over every
    further step each entry of the queue is either a new entry with status
    ['queued'] or an entry of the queue before the step, same id, file and
    preview, whose status is the same or has moved from ['queued'] to
    ['uploading'], from ['uploading'] to ['success'] or from ['uploading'] to
    ['error']. *)
Theorem queue_statuses_follow_transitions :
  forall env (w w' : World Editor.state),
    unique_uuids env ->
    reachable env w ->
    step env w w' ->
    (forall f, In f (Editor.filesToUpload (st w)) ->
       In (UploadableFile.status f)
          [Status.queued; Status.uploading; Status.success; Status.error]) /\
    (forall f', In f' (Editor.filesToUpload (st w')) ->
       created_or_moved (Editor.filesToUpload (st w)) f').
Proof.
  intros env w w' Hinj Hr Hstep. split.
  - intros f _. destruct (UploadableFile.status f); simpl; auto.
  - apply (effect_transitions env _ _ _ _ _ _ Hinj
             (reachable_invariant env w Hinj Hr) (step_effect env w w' Hstep)).
Qed.

Lemma queue_statuses_follow_transitions_witness :
  let w := Sample.editor_with_image in
  let w' := exec Editor.handleUploadAll_click Sample.env w in
  unique_uuids Sample.env /\
  reachable Sample.env w /\
  step Sample.env w w' /\
  map UploadableFile.status (Editor.filesToUpload (st w')) = [Status.uploading] /\
  (forall f', In f' (Editor.filesToUpload (st w')) ->
     created_or_moved (Editor.filesToUpload (st w)) f').
Proof.
  intros w w'.
  assert (H1 : unique_uuids Sample.env) by apply sample_unique_uuids.
  assert (H2 : reachable Sample.env w).
  { apply (reachable_step Sample.env (mount (Some "a1"))).
    - apply reachable_mount.
    - apply (step_handleFileSelect Sample.env (mount (Some "a1")) (Some [Sample.image])). }
  assert (H3 : step Sample.env w w') by apply step_handleUploadAll.
  destruct (queue_statuses_follow_transitions Sample.env w w' H1 H2 H3) as [_ H].
  split; [exact H1|]. split; [exact H2|]. split; [exact H3|].
  split; [vm_compute; reflexivity|exact H].
Defined.

End QueueStatus.

(** ** Stored photos: cover and deletion *)

Module Stored.
Import Run.

Lemma fetchAlbumData_calls env (w : World Editor.state) :
  exists evs tasks st',
    Editor.fetchAlbumData env w =
    (tt, {| trace := trace w ++ evs; uuid_calls := uuid_calls w;
            url_calls := url_calls w; pending := pending w ++ tasks; st := st' |}) /\
    (sdk_calls evs = [] \/
     exists a r, sdk_calls evs = [EvCall (Sdk.albums_select_single a) r]) /\
    toasts evs = [] /\
    Editor.album st' = Editor.album (st w).
Proof.
  unfold Editor.fetchAlbumData, Editor.fetchAlbumData_begin, bind, getState.
  destruct (Editor.albumId (st w)) as [a|]; [destruct (Js.truthy a)|].
  - unfold Editor.setLoading, setState, call, ret, defer. simpl.
    eexists [_], [_], _. split; [reflexivity|]. simpl.
    split; [right; eexists; eexists; reflexivity|]. auto.
  - exists [], [], (st w). unfold ret. rewrite !app_nil_r.
    split; [now destruct w|]. auto.
  - exists [], [], (st w). unfold ret. rewrite !app_nil_r.
    split; [now destruct w|]. auto.
Qed.

(** C8.  [handleSetCover] sends one update of the cover of the album.  When
    the answer carries no error, the local album is the previous one with
    [cover_image_url] set to the chosen URL and a success toast is added;
    when it carries an error, the state of the page is unchanged and an error
    toast is added. *)
Theorem handleSetCover_sets_local_cover_on_success :
  forall env (w : World Editor.state) (photoUrl : string),
    let request := Sdk.albums_update_cover (Editor.albumId (st w)) (Some photoUrl) in
    let error := respond env _ (trace w) request in
    let w' := exec (Editor.handleSetCover photoUrl) env w in
    sdk_calls (trace w') = sdk_calls (trace w) ++ [EvCall request error] /\
    match error with
    | None =>
        Editor.album (st w') = PartialAlbum.with_cover photoUrl (Editor.album (st w)) /\
        PartialAlbum.cover_image_url (Editor.album (st w')) = Some (Some photoUrl) /\
        toasts (trace w') =
          toasts (trace w) ++ [("Foto sampul berhasil diperbarui.", ToastType.success)]
    | Some e =>
        st w' = st w /\
        toasts (trace w') =
          toasts (trace w) ++
          [("Gagal mengatur foto sampul: " +++ message e, ToastType.error)]
    end.
Proof.
  intros env w photoUrl. cbv zeta.
  unfold exec, Editor.handleSetCover, bind, getState, call. simpl.
  destruct (respond env (option Error) (trace w)
              (Sdk.albums_update_cover (Editor.albumId (st w)) (Some photoUrl)))
    as [e|]; simpl; rewrite ?sdk_calls_app, ?toasts_app; simpl;
    rewrite ?app_nil_r; auto.
Qed.

Lemma cover_is_true album url :
  PartialAlbum.cover_is album url = true <->
  PartialAlbum.cover_image_url album = Some (Some url).
Proof.
  unfold PartialAlbum.cover_is.
  destruct (PartialAlbum.cover_image_url album) as [[c|]|]; try (split; congruence).
  rewrite String.eqb_eq. split; congruence.
Qed.

(** The run of [handleDeletePhoto] that deletes the photo. *)
Lemma handleDeletePhoto_deleted env (w : World Editor.state) (photo : Photo.t) :
  let prompt := "Anda yakin ingin menghapus foto ini?" in
  let filePath := Js.pop (Js.split (Photo.image_url photo) "/gallery/") in
  let removal := Sdk.storage_remove [filePath] in
  let deletion := Sdk.photos_delete (Photo.id photo) in
  let t1 := trace w ++ [EvConfirm prompt true] in
  let t2 := t1 ++ [EvCall removal None] in
  let album := Editor.album (st w) in
  confirm env (trace w) prompt = true ->
  Js.truthy filePath = true ->
  respond env _ t1 removal = None ->
  respond env _ t2 deletion = None ->
  exists evs tasks st' coverCalls,
    Editor.handleDeletePhoto photo env w =
    (tt, {| trace := (t2 ++ [EvCall deletion None;
                             EvToast "Foto berhasil dihapus." ToastType.success]
                         ++ coverCalls) ++ evs;
            uuid_calls := uuid_calls w; url_calls := url_calls w;
            pending := pending w ++ tasks; st := st' |}) /\
    (sdk_calls evs = [] \/
     exists a r, sdk_calls evs = [EvCall (Sdk.albums_select_single a) r]) /\
    toasts evs = [] /\
    Editor.album st' = album /\
    (PartialAlbum.cover_is album (Photo.image_url photo) = true ->
     exists r,
       coverCalls = [EvCall (Sdk.albums_update_cover (PartialAlbum.id album) None) r]) /\
    (PartialAlbum.cover_is album (Photo.image_url photo) = false -> coverCalls = []).
Proof.
  intros prompt filePath removal deletion t1 t2 album Hc Hp Hr Hd.
  unfold Editor.handleDeletePhoto, bind.
  match goal with |- context [windowConfirm ?m env w] =>
    rewrite (windowConfirm_answer env m w true Hc)
  end. cbv beta iota zeta.
  fold filePath. rewrite Hp. cbn [negb].
  match goal with |- context [call (Sdk.storage_remove ?l) env ?W] =>
    rewrite (call_answer env (Sdk.storage_remove l) W None Hr)
  end. cbv beta iota zeta.
  match goal with |- context [call (Sdk.photos_delete ?i) env ?W] =>
    rewrite (call_answer env (Sdk.photos_delete i) W None Hd)
  end. cbv beta iota zeta.
  unfold addToast, emit, getState, when. cbv beta iota zeta.
  cbn [trace st]. fold removal deletion t1 t2 album.
  destruct (PartialAlbum.cover_is album (Photo.image_url photo)) eqn:Hcover.
  - unfold call, ret. cbv beta iota zeta.
    match goal with |- context [Editor.fetchAlbumData env ?w1] =>
      destruct (fetchAlbumData_calls env w1)
        as (evs & tasks & st' & E & Hcalls & Hts & Halbum)
    end.
    rewrite E. cbn [trace st uuid_calls url_calls pending] in *.
    eexists evs, tasks, st', [_]. unfold t2, t1.
    repeat rewrite <- app_assoc. cbn [app].
    split; [reflexivity|]. split; [assumption|]. split; [assumption|].
    split; [assumption|].
    split; [intros _; eexists; reflexivity|discriminate].
  - unfold ret. cbv beta iota zeta.
    match goal with |- context [Editor.fetchAlbumData env ?w1] =>
      destruct (fetchAlbumData_calls env w1)
        as (evs & tasks & st' & E & Hcalls & Hts & Halbum)
    end.
    rewrite E. cbn [trace st uuid_calls url_calls pending] in *.
    exists evs, tasks, st', []. unfold t2, t1.
    repeat rewrite <- app_assoc. cbn [app].
    split; [reflexivity|]. split; [assumption|]. split; [assumption|].
    split; [assumption|].
    split; [discriminate|reflexivity].
Qed.

(** The run in which the removal from storage fails. *)
Lemma handleDeletePhoto_storage_failed env (w : World Editor.state) (photo : Photo.t) e :
  let prompt := "Anda yakin ingin menghapus foto ini?" in
  let filePath := Js.pop (Js.split (Photo.image_url photo) "/gallery/") in
  let removal := Sdk.storage_remove [filePath] in
  let t1 := trace w ++ [EvConfirm prompt true] in
  confirm env (trace w) prompt = true ->
  Js.truthy filePath = true ->
  respond env _ t1 removal = Some e ->
  Editor.handleDeletePhoto photo env w =
  (tt, {| trace := t1 ++ [EvCall removal (Some e);
                          EvToast ("Gagal menghapus file dari storage: " +++ message e)
                            ToastType.error];
          uuid_calls := uuid_calls w; url_calls := url_calls w;
          pending := pending w; st := st w |}).
Proof.
  intros prompt filePath removal t1 Hc Hp Hr.
  unfold Editor.handleDeletePhoto, bind.
  match goal with |- context [windowConfirm ?m env w] =>
    rewrite (windowConfirm_answer env m w true Hc)
  end. cbv beta iota zeta.
  fold filePath. rewrite Hp. cbn [negb].
  match goal with |- context [call (Sdk.storage_remove ?l) env ?W] =>
    rewrite (call_answer env (Sdk.storage_remove l) W (Some e) Hr)
  end. cbv beta iota zeta.
  unfold addToast, emit. cbn [trace st uuid_calls url_calls pending].
  unfold t1. now rewrite <- app_assoc.
Qed.

(** The run in which the deletion of the photo row fails. *)
Lemma handleDeletePhoto_row_failed env (w : World Editor.state) (photo : Photo.t) e :
  let prompt := "Anda yakin ingin menghapus foto ini?" in
  let filePath := Js.pop (Js.split (Photo.image_url photo) "/gallery/") in
  let removal := Sdk.storage_remove [filePath] in
  let deletion := Sdk.photos_delete (Photo.id photo) in
  let t1 := trace w ++ [EvConfirm prompt true] in
  let t2 := t1 ++ [EvCall removal None] in
  confirm env (trace w) prompt = true ->
  Js.truthy filePath = true ->
  respond env _ t1 removal = None ->
  respond env _ t2 deletion = Some e ->
  Editor.handleDeletePhoto photo env w =
  (tt, {| trace := t2 ++ [EvCall deletion (Some e);
                          EvToast ("Gagal menghapus data foto: " +++ message e)
                            ToastType.error];
          uuid_calls := uuid_calls w; url_calls := url_calls w;
          pending := pending w; st := st w |}).
Proof.
  intros prompt filePath removal deletion t1 t2 Hc Hp Hr Hd.
  unfold Editor.handleDeletePhoto, bind.
  match goal with |- context [windowConfirm ?m env w] =>
    rewrite (windowConfirm_answer env m w true Hc)
  end. cbv beta iota zeta.
  fold filePath. rewrite Hp. cbn [negb].
  match goal with |- context [call (Sdk.storage_remove ?l) env ?W] =>
    rewrite (call_answer env (Sdk.storage_remove l) W None Hr)
  end. cbv beta iota zeta.
  match goal with |- context [call (Sdk.photos_delete ?i) env ?W] =>
    rewrite (call_answer env (Sdk.photos_delete i) W (Some e) Hd)
  end. cbv beta iota zeta.
  unfold addToast, emit. cbn [trace st uuid_calls url_calls pending].
  unfold t2, t1. now rewrite <- !app_assoc.
Qed.

(** C10.  When the user confirms, the URL of the photo yields a file path and
    the removal from storage and the deletion of the photo row both return
    without error: if the local album has the URL of the photo as its
    [cover_image_url], [handleDeletePhoto] then sends one update of the album
    row setting [cover_image_url] to null; otherwise it sends no write to the
    table of albums.  In both cases the only calls that follow are reads of
    the refresh, and the handler leaves the local album as it was. *)
Theorem handleDeletePhoto_clears_cover_of_deleted_photo :
  forall env (w : World Editor.state) (photo : Photo.t),
    let prompt := "Anda yakin ingin menghapus foto ini?" in
    let filePath := Js.pop (Js.split (Photo.image_url photo) "/gallery/") in
    let removal := Sdk.storage_remove [filePath] in
    let deletion := Sdk.photos_delete (Photo.id photo) in
    let t1 := trace w ++ [EvConfirm prompt true] in
    let t2 := t1 ++ [EvCall removal None] in
    let album := Editor.album (st w) in
    confirm env (trace w) prompt = true ->
    Js.truthy filePath = true ->
    respond env _ t1 removal = None ->
    respond env _ t2 deletion = None ->
    let w' := exec (Editor.handleDeletePhoto photo) env w in
    exists coverCalls refresh,
      sdk_calls (trace w') =
        sdk_calls (trace w) ++
        [EvCall removal None; EvCall deletion None] ++ coverCalls ++ refresh /\
      (PartialAlbum.cover_image_url album = Some (Some (Photo.image_url photo)) ->
       exists r,
         coverCalls = [EvCall (Sdk.albums_update_cover (PartialAlbum.id album) None) r]) /\
      (PartialAlbum.cover_image_url album <> Some (Some (Photo.image_url photo)) ->
       coverCalls = []) /\
      existsb writes_albums refresh = false /\
      Editor.album (st w') = album.
Proof.
  intros env w photo prompt filePath removal deletion t1 t2 album Hc Hp Hr Hd.
  destruct (handleDeletePhoto_deleted env w photo Hc Hp Hr Hd)
    as (evs & tasks & st' & coverCalls & E & Hcalls & _ & Halbum & Hyes & Hno).
  cbv zeta. unfold exec. rewrite E. cbn [snd trace st].
  exists (sdk_calls coverCalls), (sdk_calls evs).
  split; [|split; [|split; [|split]]].
  - unfold t2, t1. rewrite !sdk_calls_app. cbn. now rewrite <- !app_assoc.
  - intros Heq. apply cover_is_true in Heq. destruct (Hyes Heq) as (r & ->).
    exists r. reflexivity.
  - intros Hne. rewrite Hno; [reflexivity|].
    destruct (PartialAlbum.cover_is album (Photo.image_url photo)) eqn:Hcover; auto.
    apply cover_is_true in Hcover. contradiction.
  - destruct Hcalls as [->|(a & r & ->)]; reflexivity.
  - exact Halbum.
Qed.

Lemma handleDeletePhoto_clears_cover_of_deleted_photo_witness :
  let w := Sample.editor_loaded in
  let photo := Sample.photo in
  let w' := exec (Editor.handleDeletePhoto photo) Sample.env w in
  confirm Sample.env (trace w) "Anda yakin ingin menghapus foto ini?" = true /\
  Js.pop (Js.split (Photo.image_url photo) "/gallery/") = "p1.jpg" /\
  PartialAlbum.cover_image_url (Editor.album (st w)) = Some (Some (Photo.image_url photo)) /\
  methods (sdk_calls (trace w')) =
    ["storage.remove"; "photos.delete"; "albums.update"; "albums.select.single"] /\
  exists coverCalls refresh,
    sdk_calls (trace w') =
      [EvCall (Sdk.storage_remove ["p1.jpg"]) None;
       EvCall (Sdk.photos_delete "p1") None] ++ coverCalls ++ refresh /\
    (exists r, coverCalls = [EvCall (Sdk.albums_update_cover (Some "a1") None) r]).
Proof.
  intros w photo w'.
  assert (H1 : confirm Sample.env (trace w) "Anda yakin ingin menghapus foto ini?" = true)
    by reflexivity.
  assert (H2 : Js.truthy (Js.pop (Js.split (Photo.image_url photo) "/gallery/")) = true)
    by (vm_compute; reflexivity).
  destruct (handleDeletePhoto_clears_cover_of_deleted_photo Sample.env w photo
              H1 H2 eq_refl eq_refl)
    as (coverCalls & refresh & Hcalls & Hyes & _).
  split; [exact H1|]. split; [vm_compute; reflexivity|].
  split; [reflexivity|]. split; [vm_compute; reflexivity|].
  exists coverCalls, refresh. split; [exact Hcalls|].
  apply Hyes. reflexivity.
Defined.

End Stored.

(** ** Preview URLs *)

Module ObjectUrls.
Import Run Select.

(** Every selection of files revokes the preview URL of every entry already
    in the queue, and all those entries stay in the queue. *)
Lemma handleFileSelect_revokes_queued_previews env (w : World Editor.state) files :
  let w' := exec (Editor.handleFileSelect (Some files)) env w in
  revoked (trace w') =
    revoked (trace w) ++ map UploadableFile.previewUrl (Editor.filesToUpload (st w)) /\
  exists newFiles,
    Editor.filesToUpload (st w') = Editor.filesToUpload (st w) ++ newFiles.
Proof.
  destruct (handleFileSelect_run env files w)
    as (newFiles & evs & Hq & Htr & _ & _ & _ & _ & _ & _ & _ & _ & Hr).
  cbv zeta. split; [|now exists newFiles].
  rewrite Htr, !revoked_app, Hr, revoked_revocations. reflexivity.
Qed.

(** C4.  The page of album ["a1"] with one image in its queue, whose preview
    URL is ["blob:"].  Selecting a second image revokes ["blob:"] although
    its entry is still in the queue; removing the first entry instead revokes
    ["blob:"] twice, once in [removeFileFromQueue] and once in the cleanup of
    the effect. *)
Theorem preview_url_revoked_while_entry_is_queued :
  let w1 := Sample.editor_with_image in
  let w2 := exec (Editor.handleFileSelect (Some [Sample.image2])) Sample.env w1 in
  let w3 := exec (Editor.removeFileFromQueue "uuid-") Sample.env w1 in
  map UploadableFile.previewUrl (Editor.filesToUpload (st w1)) = ["blob:"] /\
  revoked (trace w1) = [] /\
  map UploadableFile.previewUrl (Editor.filesToUpload (st w2)) = ["blob:"; "blob:i"] /\
  revoked (trace w2) = ["blob:"] /\
  Editor.filesToUpload (st w3) = [] /\
  revoked (trace w3) = ["blob:"; "blob:"].
Proof. vm_compute. repeat split. Qed.

End ObjectUrls.

(** ** Splitting, joining and searching *)

Module TextFacts.

Lemma append_nil_r (s : string) : s +++ "" = s.
Proof. induction s as [|c s IH]; cbn; [reflexivity|now rewrite IH]. Qed.

Lemma append_assoc (a b c : string) : (a +++ b) +++ c = a +++ b +++ c.
Proof. induction a as [|x a IH]; cbn; [reflexivity|now rewrite IH]. Qed.

Lemma length_append (a b : string) :
  String.length (a +++ b) = String.length a + String.length b.
Proof. induction a as [|x a IH]; cbn; [reflexivity|now rewrite IH]. Qed.

Lemma prefix_app (p s : string) :
  String.prefix p s = true <-> exists r, s = p +++ r.
Proof.
  revert s. induction p as [|c p IH]; intros s.
  - cbn. split; [intros _; now exists s|intros _; destruct s; reflexivity].
  - destruct s as [|d s]; cbn.
    + split; [discriminate|intros (r & H); discriminate].
    + destruct (Ascii.ascii_dec c d) as [->|Hne].
      * rewrite IH. split; intros (r & H); exists r; [now rewrite H|now inversion H].
      * split; [discriminate|intros (r & H); inversion H; congruence].
Qed.

Lemma prefix_shorter (p a b : string) :
  String.prefix p (a +++ b) = true ->
  String.length p <= String.length a ->
  String.prefix p a = true.
Proof.
  revert a. induction p as [|c p IH]; intros a H Hlen; [now destruct a|].
  destruct a as [|d a]; cbn in *; [lia|].
  destruct (Ascii.ascii_dec c d); [|discriminate].
  apply IH; [assumption|lia].
Qed.

(** Passing over the rest of a separator. *)
Lemma split_from_skip sep piece (d rest : string) :
  Js.split_from sep (String.length d) piece (d +++ rest) = Js.split_from sep 0 piece rest.
Proof.
  induction d as [|c d IH]; cbn [String.length String.append].
  - reflexivity.
  - cbn [Js.split_from]. exact IH.
Qed.

Lemma split_from_nonempty sep skip piece s : Js.split_from sep skip piece s <> [].
Proof.
  revert skip piece. induction s as [|c s IH]; intros skip piece; cbn [Js.split_from].
  - discriminate.
  - destruct skip; [|apply IH].
    destruct (String.prefix sep (String c s)); [discriminate|apply IH].
Qed.

Lemma split_from_match c0 sep' piece s :
  let sep := String c0 sep' in
  String.prefix sep s = true ->
  exists rest,
    s = sep +++ rest /\
    Js.split_from sep 0 piece s = piece :: Js.split_from sep 0 "" rest.
Proof.
  intros sep H. destruct (proj1 (prefix_app _ _) H) as (rest & E).
  exists rest. split; [exact E|].
  destruct s as [|c s]; [discriminate|].
  cbn [Js.split_from]. rewrite H. f_equal.
  unfold sep in E. cbn [String.append] in E. inversion E; subst.
  unfold sep.
  replace (String.length (String c0 sep') - 1) with (String.length sep')
    by (cbn [String.length]; lia).
  apply split_from_skip.
Qed.

Lemma split_from_no_match sep piece c s :
  String.prefix sep (String c s) = false ->
  Js.split_from sep 0 piece (String c s) =
  Js.split_from sep 0 (piece +++ String c "") s.
Proof. intros H. cbn [Js.split_from]. now rewrite H. Qed.

Lemma concat_cons sep x l :
  l <> [] -> String.concat sep (x :: l) = x +++ sep +++ String.concat sep l.
Proof. destruct l; [congruence|reflexivity]. Qed.

(** [s.split(sep).join(sep)] gives [s] back. *)
Lemma join_split_from c0 sep' :
  forall n s piece,
    String.length s <= n ->
    Text.join (Js.split_from (String c0 sep') 0 piece s) (String c0 sep') = piece +++ s.
Proof.
  induction n as [|n IH]; intros s piece Hlen.
  - destruct s; [|cbn in Hlen; lia]. cbn. now rewrite append_nil_r.
  - destruct s as [|c s]; [cbn; now rewrite append_nil_r|].
    destruct (String.prefix (String c0 sep') (String c s)) eqn:Hp.
    + destruct (split_from_match c0 sep' piece (String c s) Hp) as (rest & E & ->).
      unfold Text.join. rewrite concat_cons by apply split_from_nonempty.
      fold (Text.join (Js.split_from (String c0 sep') 0 "" rest) (String c0 sep')).
      rewrite IH.
      * cbn [String.append]. now rewrite E.
      * assert (L : String.length (String c s) = String.length (String c0 sep' +++ rest))
          by now rewrite E.
        rewrite length_append in L. cbn [String.length] in *. lia.
    + rewrite split_from_no_match by exact Hp.
      rewrite IH by (cbn in Hlen; lia).
      rewrite append_assoc. reflexivity.
Qed.

Lemma join_split s c0 sep' :
  Text.join (Js.split s (String c0 sep')) (String c0 sep') = s.
Proof. unfold Js.split. now rewrite (join_split_from c0 sep' (String.length s) s ""). Qed.

Lemma concat_last sep l x :
  exists before, String.concat sep (l ++ [x]) = before +++ x.
Proof.
  induction l as [|y l IH].
  - now exists "".
  - destruct IH as (before & E).
    exists (y +++ sep +++ before).
    change ((y :: l) ++ [x]) with (y :: (l ++ [x])).
    rewrite concat_cons by (now destruct l).
    rewrite E, !append_assoc. reflexivity.
Qed.

(** The last piece of a split is a tail of the string. *)
Lemma pop_split_endsWith s c0 sep' :
  Text.endsWith s (Js.pop (Js.split s (String c0 sep'))).
Proof.
  unfold Text.endsWith, Js.pop.
  pose proof (join_split s c0 sep') as J. unfold Text.join in J.
  assert (Hne : Js.split s (String c0 sep') <> []) by apply split_from_nonempty.
  destruct (exists_last Hne) as (l & x & E). rewrite E in *.
  rewrite last_last.
  destruct (concat_last (String c0 sep') l x) as (before & E').
  exists before. now rewrite <- J.
Qed.

(** Without an occurrence of the separator the split is the string. *)
Lemma split_from_not_included sep s :
  forall piece,
    Text.includes s sep = false ->
    Js.split_from sep 0 piece s = [piece +++ s].
Proof.
  induction s as [|c s IH]; intros piece H.
  - cbn. now rewrite append_nil_r.
  - cbn [Text.includes] in H. apply orb_false_iff in H. destruct H as [Hp Hi].
    rewrite split_from_no_match by exact Hp.
    rewrite IH by exact Hi. now rewrite append_assoc.
Qed.

Lemma split_not_included s sep :
  Text.includes s sep = false -> Js.split s sep = [s].
Proof. intros H. unfold Js.split. now rewrite split_from_not_included. Qed.

Lemma includes_app_l a b sep :
  Text.includes (a +++ b) sep = false ->
  forall c a', a = String c a' -> Text.includes (a' +++ b) sep = false.
Proof.
  intros H c a' ->. cbn [String.append Text.includes] in H.
  apply orb_false_iff in H. tauto.
Qed.

(** The split of [base ++ sep ++ name] ends with [name] when the separator
    occurs neither in [name] nor in [base] followed by all but the last unit
    of the separator. *)
Lemma last_split_from_app (init : string) (z : ascii) name :
  let sep := init +++ String z "" in
  Text.includes name sep = false ->
  forall base piece,
    Text.includes (base +++ init) sep = false ->
    last (Js.split_from sep 0 piece (base +++ sep +++ name)) "" = name.
Proof.
  intros sep Hname.
  assert (Hsep : exists c0 sep', sep = String c0 sep').
  { unfold sep. destruct init; cbn; eauto. }
  destruct Hsep as (c0 & sep' & Hsep).
  induction base as [|c base IH]; intros piece Hbase.
  - cbn [String.append].
    assert (Hp : String.prefix sep (sep +++ name) = true)
      by (apply prefix_app; now exists name).
    rewrite Hsep in Hp |- *.
    destruct (split_from_match c0 sep' piece _ Hp) as (rest & E & ->).
    assert (rest = name).
    { clear - E. revert E. generalize (String c0 sep'). intros p.
      induction p; cbn; intros E; [congruence|]. inversion E. auto. }
    subst rest. rewrite <- Hsep.
    rewrite split_from_not_included by exact Hname. reflexivity.
  - cbn [String.append].
    assert (Hp : String.prefix sep (String c (base +++ sep +++ name)) = false).
    { destruct (String.prefix sep (String c (base +++ sep +++ name))) eqn:Hp; [|reflexivity].
      exfalso.
      cbn [String.append Text.includes] in Hbase. apply orb_false_iff in Hbase.
      destruct Hbase as [Hb _].
      assert (Hp' : String.prefix sep ((String c base +++ init) +++ String z name) = true).
      { rewrite append_assoc. cbn [String.append].
        unfold sep in Hp. rewrite append_assoc in Hp. exact Hp. }
      apply prefix_shorter in Hp'.
      - cbn [String.append] in Hp'. congruence.
      - unfold sep. rewrite !length_append. cbn [String.length]. lia. }
    rewrite split_from_no_match by exact Hp.
    apply IH.
    cbn [String.append Text.includes] in Hbase. apply orb_false_iff in Hbase. tauto.
Qed.

Lemma space1_underscore : Js.space1 (nat_of_ascii "_") = false.
Proof. reflexivity. Qed.

Lemma space2_underscore_l b2 : Js.space2 (nat_of_ascii "_") b2 = false.
Proof.
  unfold Js.space2. change (nat_of_ascii "_") with 95. cbn [Nat.eqb].
  apply andb_false_r.
Qed.

Lemma space2_underscore b1 : Js.space2 b1 (nat_of_ascii "_") = false.
Proof. reflexivity. Qed.

Lemma space3_underscore_l b2 b3 : Js.space3 (nat_of_ascii "_") b2 b3 = false.
Proof.
  unfold Js.space3. change (nat_of_ascii "_") with 95. cbn [Nat.eqb].
  rewrite !andb_false_r. reflexivity.
Qed.

Lemma space3_underscore_m b1 b3 : Js.space3 b1 (nat_of_ascii "_") b3 = false.
Proof.
  unfold Js.space3. change (nat_of_ascii "_") with 95. cbn [Nat.eqb].
  rewrite !andb_false_r. reflexivity.
Qed.

Lemma space3_underscore b1 b2 : Js.space3 b1 b2 (nat_of_ascii "_") = false.
Proof. reflexivity. Qed.

Lemma white_space_underscore s : Js.white_space (String "_" s) = 0.
Proof.
  cbn [Js.white_space]. rewrite space1_underscore.
  destruct s as [|c2 s]; [reflexivity|]. rewrite space2_underscore_l.
  destruct s as [|c3 s]; [reflexivity|]. now rewrite space3_underscore_l.
Qed.

(** A byte that begins no white space begins none in what the replacement
    leaves either: the bytes that follow it there are those that followed it,
    or ['_']. *)
Lemma white_space_head c s :
  Js.white_space (String c s) = 0 ->
  Js.white_space (String c (Js.replace_from 0 s)) = 0.
Proof.
  intros H. cbn [Js.white_space] in *.
  destruct (Js.space1 (nat_of_ascii c)); [discriminate|].
  destruct s as [|c2 s2]; [reflexivity|].
  cbn [Js.replace_from].
  destruct (Js.white_space (String c2 s2)) as [|k] eqn:H2.
  - destruct (Js.space2 (nat_of_ascii c) (nat_of_ascii c2)); [discriminate|].
    destruct s2 as [|c3 s3]; [reflexivity|].
    cbn [Js.replace_from].
    destruct (Js.white_space (String c3 s3)) as [|k3].
    + exact H.
    + now rewrite space3_underscore.
  - rewrite space2_underscore.
    destruct (Js.replace_from k s2); [reflexivity|].
    now rewrite space3_underscore_m.
Qed.

Lemma no_space_replace_from s : forall k, Text.no_space (Js.replace_from k s) = true.
Proof.
  induction s as [|c s IH]; intros k; [reflexivity|].
  cbn [Js.replace_from]. destruct k as [|k]; [|apply IH].
  destruct (Js.white_space (String c s)) as [|k] eqn:H.
  - cbn [Text.no_space]. rewrite (IH 0), (white_space_head c s H). reflexivity.
  - cbn [Text.no_space]. rewrite IH, white_space_underscore. reflexivity.
Qed.

Lemma no_space_replace_spaces s : Text.no_space (Js.replace_spaces s) = true.
Proof. apply no_space_replace_from. Qed.

End TextFacts.

(** ** Storage paths *)

Module PathLemmas.
Import TextFacts.




Lemma filePath_endsWith image_url : Text.endsWith image_url (Paths.filePath image_url).
Proof. apply (pop_split_endsWith image_url "/" "gallery/"). Qed.

Lemma filePath_of_public_url base name :
  Text.includes (base +++ "/gallery") "/gallery/" = false ->
  Text.includes name "/gallery/" = false ->
  Paths.filePath (base +++ "/gallery/" +++ name) = name.
Proof.
  intros Hbase Hname. unfold Paths.filePath, Js.pop, Js.split.
  apply (last_split_from_app "/gallery" "/" name Hname base "" Hbase).
Qed.


End PathLemmas.

(** ** Deleting an album *)

Module DeleteAlbum.
Import Run TextFacts PathLemmas.

Lemma handleDelete_cancelled env (w : World Dashboard.state) albumId albumTitle :
  confirm env (trace w) (delete_prompt albumTitle) = false ->
  Dashboard.handleDelete albumId albumTitle env w =
  (tt, {| trace := trace w ++ [EvConfirm (delete_prompt albumTitle) false];
          uuid_calls := uuid_calls w; url_calls := url_calls w;
          pending := pending w; st := st w |}).
Proof.
  intros Hc. unfold Dashboard.handleDelete, bind.
  match goal with |- context [windowConfirm ?m env w] =>
    rewrite (windowConfirm_answer env m w false Hc)
  end. reflexivity.
Qed.

Lemma handleDelete_fetch_failed env (w : World Dashboard.state) albumId albumTitle e :
  let t1 := trace w ++ [EvConfirm (delete_prompt albumTitle) true] in
  let photosResult := respond env _ t1 (Sdk.photos_select_image_url albumId) in
  confirm env (trace w) (delete_prompt albumTitle) = true ->
  Sdk.error photosResult = Some e ->
  Dashboard.handleDelete albumId albumTitle env w =
  (tt, {| trace := t1 ++ [EvCall (Sdk.photos_select_image_url albumId) photosResult;
                          EvToast ("Gagal mendapatkan daftar foto: " +++ message e)
                            ToastType.error];
          uuid_calls := uuid_calls w; url_calls := url_calls w;
          pending := pending w; st := st w |}).
Proof.
  intros t1 photosResult Hc He. unfold Dashboard.handleDelete, bind.
  match goal with |- context [windowConfirm ?m env w] =>
    rewrite (windowConfirm_answer env m w true Hc)
  end. cbv beta iota zeta.
  match goal with |- context [call ?c env ?W] =>
    rewrite (call_answer env c W photosResult eq_refl)
  end. cbv beta iota zeta. rewrite He.
  unfold addToast, emit. cbn [trace st uuid_calls url_calls pending].
  unfold t1. now rewrite <- app_assoc.
Qed.

Lemma handleDelete_fetched env (w : World Dashboard.state) albumId albumTitle :
  let t1 := trace w ++ [EvConfirm (delete_prompt albumTitle) true] in
  let photosResult := respond env _ t1 (Sdk.photos_select_image_url albumId) in
  let paths := Dashboard.filePaths (rows (Sdk.data photosResult)) in
  confirm env (trace w) (delete_prompt albumTitle) = true ->
  Sdk.error photosResult = None ->
  exists storageError dbError albumsResult photosCountResult tasks st',
    Dashboard.handleDelete albumId albumTitle env w =
    (tt, {| trace := t1 ++ EvCall (Sdk.photos_select_image_url albumId) photosResult ::
                           removal_events paths storageError ++
                           closing_events albumId albumTitle dbError
                             albumsResult photosCountResult;
            uuid_calls := uuid_calls w; url_calls := url_calls w;
            pending := pending w ++ tasks; st := st' |}).
Proof.
  intros t1 photosResult paths Hc He. unfold Dashboard.handleDelete.
  unfold bind at 1.
  match goal with |- context [windowConfirm ?m env w] =>
    rewrite (windowConfirm_answer env m w true Hc)
  end. cbv beta iota zeta.
  unfold bind at 1.
  match goal with |- context [call ?c env ?W] =>
    rewrite (call_answer env c W photosResult eq_refl)
  end. cbv beta iota zeta. rewrite He.
  unfold paths. clearbody photosResult. unfold bind at 1.
  cbn [trace st uuid_calls url_calls pending].
  match goal with |- context [Dashboard.deleteFromStorage _ env ?W] =>
    set (w1 := W)
  end.
  assert (Hremoval : exists storageError w2,
    Dashboard.deleteFromStorage (Sdk.data photosResult) env w1 = (tt, w2) /\
    w2 = {| trace := trace w1 ++
                     removal_events (Dashboard.filePaths (rows (Sdk.data photosResult)))
                       storageError;
            uuid_calls := uuid_calls w; url_calls := url_calls w;
            pending := pending w; st := st w |}).
  { unfold Dashboard.deleteFromStorage, when.
    destruct (Sdk.data photosResult) as [[|p ps]|]; cbn [rows length Nat.ltb Nat.leb].
    - exists None. eexists. split; [reflexivity|].
      unfold w1. cbn. now rewrite app_nil_r.
    - cbv zeta. destruct (Dashboard.filePaths (p :: ps)) as [|q qs] eqn:Eq;
        cbn [length Nat.ltb Nat.leb].
      + exists None. eexists. split; [reflexivity|].
        unfold w1. cbn. now rewrite app_nil_r.
      + unfold bind, call.
        destruct (respond env (option Error) (trace w1) (Sdk.storage_remove (q :: qs)))
          as [e0|] eqn:Er.
        * exists (Some e0). eexists. split; [reflexivity|].
          unfold w1. cbn. now rewrite <- app_assoc.
        * exists None. eexists. split; [reflexivity|]. reflexivity.
    - exists None. eexists. split; [reflexivity|].
      unfold w1. cbn. now rewrite app_nil_r. }
  destruct Hremoval as (storageError & w2 & E2 & Hw2).
  rewrite E2. subst w2.
  unfold bind, call. cbn [trace st uuid_calls url_calls pending].
  match goal with |- context [respond env _ ?t (Sdk.albums_delete albumId)] =>
    destruct (respond env _ t (Sdk.albums_delete albumId)) as [e1|] eqn:Ed
  end.
  - exists storageError, (Some e1),
      {| Sdk.data := None; Sdk.error := None |},
      {| Sdk.count := None; Sdk.count_error := None |}, [], (st w).
    unfold addToast, emit, closing_events, w1, t1.
    cbn [trace st uuid_calls url_calls pending fst snd].
    repeat rewrite <- app_assoc. cbn [app]. now rewrite app_nil_r.
  - unfold addToast, emit, Dashboard.fetchAlbumsAndStats,
      Dashboard.fetchAlbumsAndStats_begin, Dashboard.setLoading, setState, bind,
      call, ret, defer.
    cbn [trace st uuid_calls url_calls pending fst snd].
    eexists storageError, None, _, _, [_], _.
    unfold closing_events, w1, t1.
    cbn [trace st uuid_calls url_calls pending].
    repeat rewrite <- app_assoc. cbn [app]. reflexivity.
Qed.

Lemma sdk_calls_removal_events paths storageError :
  sdk_calls (removal_events paths storageError) =
  match paths with
  | [] => []
  | _ :: _ => [EvCall (Sdk.storage_remove paths) storageError]
  end.
Proof. destruct paths, storageError; reflexivity. Qed.

Lemma sdk_calls_closing_events albumId albumTitle dbError ar cr :
  sdk_calls (closing_events albumId albumTitle dbError ar cr) =
  EvCall (Sdk.albums_delete albumId) dbError ::
  match dbError with
  | Some _ => []
  | None => [EvCall Sdk.rpc_get_albums_with_photo_count ar;
             EvCall Sdk.photos_select_count cr]
  end.
Proof. destruct dbError; reflexivity. Qed.

Lemma toasts_removal_events paths storageError :
  toasts (removal_events paths storageError) =
  match paths, storageError with
  | _ :: _, Some e =>
      [("Gagal menghapus beberapa file: " +++ message e, ToastType.error)]
  | _, _ => []
  end.
Proof. destruct paths, storageError; reflexivity. Qed.

Lemma toasts_closing_events albumId albumTitle dbError ar cr :
  toasts (closing_events albumId albumTitle dbError ar cr) =
  match dbError with
  | Some e => [("Gagal menghapus album: " +++ message e, ToastType.error)]
  | None => [("Album " +++ dquote +++ albumTitle +++ dquote +++ " berhasil dihapus.",
              ToastType.success)]
  end.
Proof. destruct dbError; reflexivity. Qed.

Lemma removed_paths_app a b : removed_paths (a ++ b) = removed_paths a ++ removed_paths b.
Proof. unfold removed_paths. apply flat_map_app. Qed.

Lemma removed_paths_removal_events paths storageError :
  removed_paths (removal_events paths storageError) =
  match paths with
  | [] => []
  | _ :: _ => [paths]
  end.
Proof. destruct paths, storageError; reflexivity. Qed.

Lemma removed_paths_closing_events albumId albumTitle dbError ar cr :
  removed_paths (closing_events albumId albumTitle dbError ar cr) = [].
Proof. destruct dbError; reflexivity. Qed.

(** The removals from storage of [handleDelete], whatever is answered. *)
Lemma handleDelete_removed_paths env (w : World Dashboard.state) albumId albumTitle :
  let t1 := trace w ++ [EvConfirm (delete_prompt albumTitle) true] in
  let photosResult := respond env _ t1 (Sdk.photos_select_image_url albumId) in
  let paths := Dashboard.filePaths (rows (Sdk.data photosResult)) in
  removed_paths (trace (exec (Dashboard.handleDelete albumId albumTitle) env w)) =
  removed_paths (trace w) ++
  if confirm env (trace w) (delete_prompt albumTitle)
  then match Sdk.error photosResult, paths with
       | None, _ :: _ => [paths]
       | _, _ => []
       end
  else [].
Proof.
  intros t1 photosResult paths.
  destruct (confirm env (trace w) (delete_prompt albumTitle)) eqn:Hc.
  - destruct (Sdk.error photosResult) as [e|] eqn:He.
    + unfold exec.
      rewrite (handleDelete_fetch_failed env w albumId albumTitle e Hc He).
      cbn [snd trace]. rewrite !removed_paths_app. cbn. now rewrite !app_nil_r.
    + destruct (handleDelete_fetched env w albumId albumTitle Hc He)
        as (storageError & dbError & ar & cr & tasks & st' & E).
      unfold exec. rewrite E. cbn [snd trace]. fold t1 photosResult paths.
      change (?x :: ?l ++ ?m) with ([x] ++ l ++ m).
      unfold t1. rewrite !removed_paths_app, removed_paths_removal_events,
        removed_paths_closing_events. cbn [removed_paths flat_map app].
      rewrite !app_nil_r. now destruct paths.
  - unfold exec. rewrite (handleDelete_cancelled env w albumId albumTitle Hc).
    cbn [snd trace]. rewrite removed_paths_app. reflexivity.
Qed.

Lemma filePaths_public base names :
  Text.includes (base +++ "/gallery") "/gallery/" = false ->
  Forall (fun name => Text.includes name "/gallery/" = false) names ->
  Dashboard.filePaths (map (fun name => base +++ "/gallery/" +++ name) names) =
    filter Js.truthy names.
Proof.
  intros Hbase Hnames. unfold Dashboard.filePaths. f_equal.
  rewrite map_map. rewrite <- (map_id names) at 2.
  apply map_ext_in. intros name Hin.
  apply (filePath_of_public_url base name Hbase).
  rewrite Forall_forall in Hnames. now apply Hnames.
Qed.

Lemma filePaths_whole urls :
  Forall (fun url => Text.includes url "/gallery/" = false) urls ->
  Dashboard.filePaths urls = filter Js.truthy urls.
Proof.
  intros Hurls. unfold Dashboard.filePaths. f_equal.
  rewrite <- (map_id urls) at 2.
  apply map_ext_in. intros url Hin.
  rewrite Forall_forall in Hurls.
  now rewrite split_not_included by (now apply Hurls).
Qed.

Lemma filePaths_tails photos path :
  In path (Dashboard.filePaths photos) ->
  path <> "" /\
  exists image_url, In image_url photos /\ Text.endsWith image_url path.
Proof.
  intros H. unfold Dashboard.filePaths in H.
  apply filter_In in H. destruct H as [H Ht].
  apply in_map_iff in H. destruct H as (url & <- & Hin).
  split.
  - intros E. change (Js.truthy (Paths.filePath url) = true) in Ht.
    change (Paths.filePath url = "") in E. rewrite E in Ht. discriminate.
  - exists url. split; [exact Hin|apply filePath_endsWith].
Qed.

(** C7.  When the admin confirms the deletion of an album: if the fetch of
    the photo list returns an error, that fetch is the only SDK call, so
    nothing is deleted.  If it returns without error, the handler removes from
    storage, in one call, the paths derived from the image URLs of the list:
    of each URL what follows ['/gallery/'], the last piece of the URL split
    there, the empty ones left out (no call when there is none); for the public
    URLs of files of the bucket these are the names of the files.  Then it
    deletes the album row; it sends no deletion of photo rows, and all that
    may follow is the refresh of the dashboard, which only reads. *)
Theorem handleDelete_removes_files_then_album_row :
  forall env (w : World Dashboard.state) (albumId albumTitle : string),
    let t1 := trace w ++ [EvConfirm (delete_prompt albumTitle) true] in
    let fetch := Sdk.photos_select_image_url albumId in
    let photosResult := respond env _ t1 fetch in
    let image_urls := rows (Sdk.data photosResult) in
    let paths :=
      filter Js.truthy
        (map (fun image_url => Js.pop (Js.split image_url "/gallery/")) image_urls) in
    confirm env (trace w) (delete_prompt albumTitle) = true ->
    let w' := exec (Dashboard.handleDelete albumId albumTitle) env w in
    (Sdk.error photosResult <> None ->
     sdk_calls (trace w') = sdk_calls (trace w) ++ [EvCall fetch photosResult]) /\
    (Sdk.error photosResult = None ->
     exists removal dbError refresh,
       sdk_calls (trace w') =
         sdk_calls (trace w) ++
         [EvCall fetch photosResult] ++ removal ++
         [EvCall (Sdk.albums_delete albumId) dbError] ++ refresh /\
       (paths = [] -> removal = []) /\
       (paths <> [] ->
        exists storageError, removal = [EvCall (Sdk.storage_remove paths) storageError]) /\
       existsb deletes_photo_rows
         (removal ++ [EvCall (Sdk.albums_delete albumId) dbError] ++ refresh) = false /\
       existsb is_storage_remove refresh = false /\
       existsb writes_albums refresh = false) /\
    (forall base names,
       Text.includes (base +++ "/gallery") "/gallery/" = false ->
       Forall (fun name => Text.includes name "/gallery/" = false) names ->
       image_urls = map (fun name => base +++ "/gallery/" +++ name) names ->
       paths = filter Js.truthy names) /\
    (forall path, In path paths ->
       path <> "" /\
       exists image_url, In image_url image_urls /\ Text.endsWith image_url path).
Proof.
  intros env w albumId albumTitle t1 fetch photosResult image_urls paths Hc w'.
  change paths with (Dashboard.filePaths image_urls).
  split; [|split; [|split]].
  - intros He. destruct (Sdk.error photosResult) as [e|] eqn:Ee; [|congruence].
    unfold w', exec.
    rewrite (handleDelete_fetch_failed env w albumId albumTitle e Hc Ee).
    cbn [snd trace]. fold t1 fetch photosResult. unfold t1.
    rewrite !sdk_calls_app. cbn. now rewrite app_nil_r.
  - intros He.
    destruct (handleDelete_fetched env w albumId albumTitle Hc He)
      as (storageError & dbError & ar & cr & tasks & st' & E).
    unfold w', exec. rewrite E. cbn [snd trace].
    fold t1 fetch photosResult image_urls. unfold t1.
    exists (sdk_calls (removal_events (Dashboard.filePaths image_urls) storageError)),
      dbError,
      (match dbError with
       | Some _ => []
       | None => [EvCall Sdk.rpc_get_albums_with_photo_count ar;
                  EvCall Sdk.photos_select_count cr]
       end).
    split; [|split; [|split; [|split; [|split]]]].
    + rewrite sdk_calls_app. cbn [sdk_calls filter is_call app].
      change (filter is_call) with sdk_calls.
      rewrite !sdk_calls_app, sdk_calls_closing_events. cbn.
      now rewrite app_nil_r.
    + intros ->. reflexivity.
    + intros Hne. rewrite sdk_calls_removal_events.
      destruct (Dashboard.filePaths image_urls); [congruence|]. now exists storageError.
    + rewrite sdk_calls_removal_events.
      destruct (Dashboard.filePaths image_urls), dbError; reflexivity.
    + destruct dbError; reflexivity.
    + destruct dbError; reflexivity.
  - intros base names Hbase Hnames ->. now apply filePaths_public.
  - intros path. apply filePaths_tails.
Qed.

Lemma handleDelete_removes_files_then_album_row_witness :
  let w := Sample.dashboard in
  let w' := exec (Dashboard.handleDelete "a1" "Wisuda") Sample.env w in
  confirm Sample.env (trace w) (delete_prompt "Wisuda") = true /\
  exists storageError dbError refresh,
    sdk_calls (trace w') =
      [EvCall (Sdk.photos_select_image_url "a1")
         {| Sdk.data := Some ["https://x.supabase.co/storage/v1/object/public/gallery/p1.jpg"];
            Sdk.error := None |}] ++
      [EvCall (Sdk.storage_remove ["p1.jpg"]) storageError] ++
      [EvCall (Sdk.albums_delete "a1") dbError] ++ refresh /\
    existsb deletes_photo_rows
      ([EvCall (Sdk.storage_remove ["p1.jpg"]) storageError] ++
       [EvCall (Sdk.albums_delete "a1") dbError] ++ refresh) = false /\
    existsb is_storage_remove refresh = false.
Proof.
  intros w w'.
  assert (H1 : confirm Sample.env (trace w) (delete_prompt "Wisuda") = true)
    by reflexivity.
  destruct (handleDelete_removes_files_then_album_row Sample.env w "a1" "Wisuda" H1)
    as (_ & H & _).
  destruct (H eq_refl)
    as (removal & dbError & refresh & Hcalls & _ & Hremoval & Hrows & Hnone & _).
  destruct (Hremoval ltac:(discriminate)) as (storageError & ->).
  split; [exact H1|].
  exists storageError, dbError, refresh.
  split; [exact Hcalls|]. split; [exact Hrows|exact Hnone].
Defined.

End DeleteAlbum.

(** ** Login, logout and saving an album *)

Module Forms.
Import Run.

Lemma handleLogin_run env (w : World Login.state) :
  let request := Sdk.auth_signInWithPassword (Login.email (st w)) (Login.password (st w)) in
  let error := respond env _ (trace w) request in
  let w' := exec Login.handleLogin env w in
  sdk_calls (trace w') = sdk_calls (trace w) ++ [EvCall request error] /\
  toasts (trace w') =
    toasts (trace w) ++
    [match error with
     | Some e => (message e, ToastType.error)
     | None => ("Login berhasil!", ToastType.success)
     end].
Proof.
  cbv zeta. unfold exec, Login.handleLogin, Login.setLoading, bind, setState, getState, call.
  cbn [trace st uuid_calls url_calls pending fst snd Login.email Login.password].
  destruct (respond env (option Error) (trace w)
              (Sdk.auth_signInWithPassword (Login.email (st w)) (Login.password (st w))))
    as [e|]; cbn; rewrite ?sdk_calls_app, ?toasts_app; cbn; rewrite ?app_nil_r; auto.
Qed.

Lemma handleLogout_run {S} env (w : World S) :
  let error := respond env _ (trace w) Sdk.auth_signOut in
  let w' := exec handleLogout env w in
  sdk_calls (trace w') = sdk_calls (trace w) ++ [EvCall Sdk.auth_signOut error] /\
  toasts (trace w') =
    toasts (trace w) ++
    [match error with
     | Some e => ("Gagal logout: " +++ message e, ToastType.error)
     | None => ("Anda berhasil logout.", ToastType.success)
     end].
Proof.
  cbv zeta. unfold exec, handleLogout, bind, call.
  destruct (respond env (option Error) (trace w) Sdk.auth_signOut) as [e|];
    cbn; rewrite ?sdk_calls_app, ?toasts_app; cbn; rewrite ?app_nil_r; auto.
Qed.

Lemma all_ok_some_failed calls : all_ok calls = negb (some_failed calls).
Proof.
  unfold all_ok, some_failed. induction calls as [|c calls IH]; simpl; [reflexivity|].
  rewrite IH. now destruct (call_failed c), (existsb call_failed calls).
Qed.

(** The updates of the captions sent by [handleAlbumSave]. *)
Lemma captionUpdates_run env captions :
  forall w : World Editor.state,
  exists captionResults evs,
    mapM (fun kv => call (Sdk.photos_update_caption (fst kv) (snd kv))) captions env w =
    (captionResults,
     {| trace := trace w ++ evs; uuid_calls := uuid_calls w; url_calls := url_calls w;
        pending := pending w; st := st w |}) /\
    sdk_calls evs = evs /\
    toasts evs = [] /\
    methods evs = map (fun _ => "photos.update") captions /\
    existsb is_some captionResults = some_failed evs.
Proof.
  induction captions as [|kv captions IH]; intros w.
  - exists [], []. unfold mapM, ret. rewrite app_nil_r.
    split; [now destruct w|]. auto.
  - cbn [mapM]. unfold bind at 1. unfold call at 1.
    cbv beta iota zeta. unfold bind at 1.
    match goal with |- context [mapM _ captions env ?w1] =>
      destruct (IH w1) as (results & evs & E & Hc & Ht & Hm & Hf)
    end.
    rewrite E. cbn [trace st uuid_calls url_calls pending] in *.
    eexists (_ :: results), (_ :: evs). unfold ret.
    rewrite <- app_assoc. cbn [app].
    split; [reflexivity|].
    unfold sdk_calls, toasts, methods, some_failed in *. cbn.
    rewrite Hc, Ht, Hm, Hf. auto.
Qed.

(** Saving an album that exists: one update of the album row and one update
    per caption; the one toast tells whether any of them failed. *)
Lemma handleAlbumSave_update_run env (w : World Editor.state) t :
  Editor.isNew (st w) = false ->
  PartialAlbum.title (Editor.album (st w)) = Some t ->
  Js.truthy t = true ->
  let w' := exec Editor.handleAlbumSave env w in
  exists calls,
    sdk_calls (trace w') = sdk_calls (trace w) ++ calls /\
    methods calls = "albums.update" :: map (fun _ => "photos.update") (Editor.captions (st w)) /\
    toasts (trace w') =
      toasts (trace w) ++
      [if some_failed calls
       then ("Gagal menyimpan perubahan.", ToastType.error)
       else ("Perubahan berhasil disimpan.", ToastType.success)].
Proof.
  intros Hnew Ht Htruthy. cbv zeta.
  unfold exec, Editor.handleAlbumSave, bind, getState.
  cbv beta iota zeta. rewrite Ht, Htruthy, Hnew.
  unfold Editor.setSaving, setState. cbv beta iota zeta.
  match goal with |- context [call (Sdk.albums_update ?a ?b ?c) env ?W] =>
    rewrite (call_answer env (Sdk.albums_update a b c) W _ eq_refl)
  end.
  cbv beta iota zeta.
  cbn [trace st uuid_calls url_calls pending Editor.captions Editor.albumId
       Editor.album].
  match goal with |- context [mapM _ _ env ?w1] =>
    destruct (captionUpdates_run env (Editor.captions (st w)) w1)
      as (results & evs & E & Hc & Hts & Hm & Hf)
  end.
  rewrite E. cbn [trace st uuid_calls url_calls pending] in *.
  match goal with |- context [respond env _ ?tr ?c] =>
    set (albumResult := respond env _ tr c) in *
  end.
  exists (EvCall (Sdk.albums_update (Editor.albumId (st w)) (Some t)
                    (PartialAlbum.description (Editor.album (st w)))) albumResult :: evs).
  assert (Hsf : some_failed
                  (EvCall (Sdk.albums_update (Editor.albumId (st w)) (Some t)
                             (PartialAlbum.description (Editor.album (st w))))
                     albumResult :: evs) =
                is_some albumResult || existsb is_some results)
    by (cbn; now rewrite Hf).
  rewrite Hsf.
  destruct albumResult as [e|]; cbn [is_some orb].
  - unfold bind, when, addToast, consoleError, emit, Editor.setSaving, setState.
    cbn [trace st uuid_calls url_calls pending fst snd].
    unfold sdk_calls, toasts, methods in *. rewrite !filter_app, !flat_map_app.
    cbn. rewrite Hc, Hts, Hm, !app_nil_r, <- ?app_assoc. auto.
  - destruct (existsb is_some results);
      unfold bind, when, addToast, consoleError, emit, ret, Editor.setSaving, setState;
      cbn [trace st uuid_calls url_calls pending fst snd];
      unfold sdk_calls, toasts, methods in *; rewrite !filter_app, !flat_map_app;
      cbn; rewrite Hc, Hts, Hm, !app_nil_r, <- ?app_assoc; auto.
Qed.

(** Creating an album: one insert. *)
Lemma handleAlbumSave_create_run env (w : World Editor.state) t :
  Editor.isNew (st w) = true ->
  PartialAlbum.title (Editor.album (st w)) = Some t ->
  Js.truthy t = true ->
  let request :=
    Sdk.albums_insert (Some t) (PartialAlbum.description (Editor.album (st w))) in
  let w' := exec Editor.handleAlbumSave env w in
  exists r,
    sdk_calls (trace w') = sdk_calls (trace w) ++ [EvCall request r] /\
    toasts (trace w') =
      toasts (trace w) ++
      [match r with
       | Sdk.failed e => ("Gagal membuat album: " +++ message e, ToastType.error)
       | Sdk.row _ => ("Album berhasil dibuat.", ToastType.success)
       end].
Proof.
  intros Hnew Ht Htruthy. cbv zeta.
  unfold exec, Editor.handleAlbumSave, bind, getState.
  cbv beta iota zeta. rewrite Ht, Htruthy, Hnew.
  unfold Editor.setSaving, setState, call.
  cbn [trace st uuid_calls url_calls pending fst snd].
  match goal with |- context [respond env _ ?tr ?c] =>
    destruct (respond env _ tr c) as [d|e] eqn:Er
  end.
  - exists (Sdk.row d). unfold addToast, navigate, emit.
    cbn [trace st uuid_calls url_calls pending fst snd].
    rewrite !sdk_calls_app, !toasts_app. cbn. rewrite !app_nil_r. auto.
  - exists (Sdk.failed e). unfold addToast, emit.
    cbn [trace st uuid_calls url_calls pending fst snd].
    rewrite !sdk_calls_app, !toasts_app. cbn. rewrite !app_nil_r. auto.
Qed.

(** Saving without a title: an error toast and no call. *)
Lemma handleAlbumSave_without_title env (w : World Editor.state) :
  match PartialAlbum.title (Editor.album (st w)) with
  | Some t => Js.truthy t
  | None => false
  end = false ->
  let w' := exec Editor.handleAlbumSave env w in
  sdk_calls (trace w') = sdk_calls (trace w) /\
  toasts (trace w') =
    toasts (trace w) ++ [("Judul album tidak boleh kosong.", ToastType.error)].
Proof.
  intros Ht. cbv zeta.
  unfold exec, Editor.handleAlbumSave, bind, getState.
  cbv beta iota zeta. rewrite Ht. unfold addToast, emit.
  cbn [snd trace]. rewrite sdk_calls_app, toasts_app. cbn. now rewrite app_nil_r.
Qed.

End Forms.

(** ** The upload of the earlier revision *)

Module EarlierUpload.
Import Run.

Lemma startUploads_run env files :
  forall w : World EditorV1.state,
  exists started evs,
    mapM EditorV1.startUpload files env w =
    (started,
     {| trace := trace w ++ evs; uuid_calls := uuid_calls w; url_calls := url_calls w;
        pending := pending w; st := st w |}) /\
    methods (sdk_calls evs) = repeat "storage.upload" (length files) /\
    toasts evs = [] /\
    map call_failed (sdk_calls evs) = map (fun s => is_some (snd s)) started /\
    length started = length files.
Proof.
  induction files as [|f files IH]; intros w.
  - exists [], []. unfold mapM, ret. rewrite app_nil_r.
    split; [now destruct w|]. auto.
  - cbn [mapM]. unfold bind at 1. unfold EditorV1.startUpload at 1.
    unfold bind at 1 2, dateNow, call, ret. cbv beta iota zeta.
    cbn [trace st uuid_calls url_calls pending].
    unfold bind at 1.
    match goal with |- context [mapM _ files env ?w1] =>
      destruct (IH w1) as (started & evs & E & Hm & Ht & Hf & Hlen)
    end.
    rewrite E. cbn [trace st uuid_calls url_calls pending] in *.
    eexists (_ :: started), (_ :: _ :: evs).
    repeat rewrite <- app_assoc. cbn [app].
    split; [reflexivity|].
    unfold sdk_calls, toasts, methods in *. cbn. rewrite Hm, Ht, Hf, Hlen. auto.
Qed.

Lemma finishUploads_run env a started :
  forall w : World EditorV1.state,
  exists settled evs,
    mapM (EditorV1.finishUpload a) started env w =
    (settled,
     {| trace := trace w ++ evs; uuid_calls := uuid_calls w; url_calls := url_calls w;
        pending := pending w; st := st w |}) /\
    methods (sdk_calls evs) =
      repeat "storage.getPublicUrl"
        (length (filter (fun s => negb (is_some (snd s))) started)) /\
    toasts evs = [] /\
    (existsb (fun s => is_some (snd s)) started = true ->
     exists e, EditorV1.promiseAll settled = inl e) /\
    (existsb (fun s => is_some (snd s)) started = false ->
     exists newPhotosData,
       EditorV1.promiseAll settled = inr newPhotosData /\
       length newPhotosData = length started).
Proof.
  induction started as [|[fileName uploadError] started IH]; intros w.
  - exists [], []. unfold mapM, ret. rewrite app_nil_r.
    split; [now destruct w|]. repeat split; try discriminate.
    intros _. now exists [].
  - cbn [mapM]. unfold bind at 1. unfold EditorV1.finishUpload at 1. cbn [fst snd].
    destruct uploadError as [e|].
    + unfold ret at 1. unfold bind at 1.
      destruct (IH w) as (settled & evs & E & Hm & Ht & Hfail & Hok).
      rewrite E. exists (inl e :: settled), evs. unfold ret.
      split; [reflexivity|]. cbn. repeat split; auto; try discriminate.
      intros _. now exists e.
    + unfold bind at 1, call, ret. cbv beta iota zeta.
      cbn [trace st uuid_calls url_calls pending]. unfold bind at 1.
      match goal with |- context [mapM _ started env ?w1] =>
        destruct (IH w1) as (settled & evs & E & Hm & Ht & Hfail & Hok)
      end.
      rewrite E. cbn [trace st uuid_calls url_calls pending] in *.
      eexists (inr _ :: settled), (_ :: evs).
      repeat rewrite <- app_assoc. cbn [app].
      split; [reflexivity|].
      unfold sdk_calls, toasts, methods in *. cbn. rewrite Hm, Ht.
      repeat split; auto.
      * intros H. destruct (Hfail H) as (e & ->). now exists e.
      * intros H. destruct (Hok H) as (rows & -> & Hlen).
        eexists. split; [reflexivity|]. cbn. now rewrite Hlen.
Qed.

Lemma count_ok (uploads : list Event) (started : list (string * option Error)) :
  map call_failed uploads = map (fun s => is_some (snd s)) started ->
  length (filter (fun s => negb (is_some (snd s))) started) = length (filter call_ok uploads) /\
  existsb (fun s => is_some (snd s)) started = some_failed uploads.
Proof.
  revert started. induction uploads as [|u uploads IH]; intros [|s started] H;
    try discriminate; [split; reflexivity|].
  cbn in H. inversion H as [[Hu Hrest]]. destruct (IH started Hrest) as [Hlen Hex].
  unfold call_ok, some_failed in *. cbn. rewrite Hu, Hex.
  destruct (is_some (snd s)); cbn; auto.
Qed.

Lemma earlier_fetchAlbumData_calls env a (w : World EditorV1.state) :
  EditorV1.albumId (st w) = Some a -> Js.truthy a = true ->
  exists r st',
    EditorV1.fetchAlbumData env w =
    (tt, {| trace := trace w ++ [EvCall (Sdk.albums_select_single a) r];
            uuid_calls := uuid_calls w; url_calls := url_calls w;
            pending := pending w ++ [resume_fetchAlbumData a r]; st := st' |}) /\
    EditorV1.albumId st' = Some a.
Proof.
  intros Ha Ht. unfold EditorV1.fetchAlbumData, bind, getState.
  rewrite Ha, Ht. unfold EditorV1.setLoading, setState, call, defer.
  cbn [trace st uuid_calls url_calls pending]. eexists. eexists.
  split; [reflexivity|]. exact Ha.
Qed.

(** The SDK calls of [handleFileUpload]: one upload per file; one lookup of
    the public URL per upload that returned without error; then, if no upload
    failed, one insert of all the rows, followed on success by the first
    request of the refresh. *)
Lemma handleFileUpload_calls env (w : World EditorV1.state) files a :
  EditorV1.albumId (st w) = Some a ->
  Js.truthy a = true ->
  files <> [] ->
  exists uploads lookups closing,
    sdk_calls (trace (exec (EditorV1.handleFileUpload (Some files)) env w)) =
      sdk_calls (trace w) ++ uploads ++ lookups ++ closing /\
    methods uploads = repeat "storage.upload" (length files) /\
    methods lookups = repeat "storage.getPublicUrl" (length (filter call_ok uploads)) /\
    (some_failed uploads = true -> closing = []) /\
    (some_failed uploads = false ->
     exists newPhotosData insertError refresh,
       closing = EvCall (Sdk.photos_insert newPhotosData) insertError :: refresh /\
       length newPhotosData = length files /\
       is_refresh a refresh).
Proof.
  intros Ha Ht Hne.
  unfold exec, EditorV1.handleFileUpload. unfold bind at 1. unfold getState at 1.
  cbv beta iota zeta. rewrite Ha, Ht.
  destruct files as [|f files]; [congruence|].
  cbn [length Nat.eqb negb andb].
  unfold bind at 1. unfold EditorV1.setUploading at 1, setState at 1.
  cbv beta iota zeta. unfold bind at 1.
  match goal with |- context [mapM EditorV1.startUpload ?l env ?w1] =>
    destruct (startUploads_run env l w1)
      as (started & evs1 & E1 & Hm1 & Ht1 & Hf1 & Hlen1)
  end.
  rewrite E1. unfold bind at 1.
  match goal with |- context [mapM (EditorV1.finishUpload a) started env ?w2] =>
    destruct (finishUploads_run env a started w2)
      as (settled & evs2 & E2 & Hm2 & Ht2 & Hfail & Hok)
  end.
  rewrite E2. cbn [trace st uuid_calls url_calls pending] in *.
  destruct (count_ok (sdk_calls evs1) started Hf1) as [Hcount Hex].
  rewrite Hcount in Hm2.
  exists (sdk_calls evs1), (sdk_calls evs2).
  destruct (existsb (fun s => is_some (snd s)) started) eqn:Hany.
  - destruct (Hfail eq_refl) as (e & Hall). rewrite Hall.
    unfold bind, addToast, emit, EditorV1.setUploading, EditorV1.clearFileInput, setState.
    cbn [trace st uuid_calls url_calls pending fst snd].
    exists []. rewrite !sdk_calls_app. cbn [sdk_calls filter is_call].
    rewrite !app_nil_r, <- !app_assoc.
    split; [reflexivity|]. split; [assumption|]. split; [assumption|].
    split; [reflexivity|]. rewrite <- Hex. discriminate.
  - destruct (Hok eq_refl) as (rows & Hall & Hlen). rewrite Hall.
    unfold bind at 1. unfold bind at 1. unfold call at 1. cbv beta iota zeta.
    cbn [trace st uuid_calls url_calls pending].
    match goal with |- context [respond env ?X ?tr ?c] =>
      destruct (respond env X tr c) as [e|] eqn:Hr
    end.
    + unfold bind, addToast, emit, EditorV1.setUploading, EditorV1.clearFileInput,
        setState.
      cbn [trace st uuid_calls url_calls pending fst snd].
      eexists [_]. rewrite !sdk_calls_app. cbn [sdk_calls filter is_call].
      rewrite <- !app_assoc. cbn [app].
      split; [reflexivity|]. split; [assumption|]. split; [assumption|].
      split; [rewrite <- Hex; discriminate|].
      intros _. eexists. eexists. exists [].
      split; [reflexivity|]. split; [rewrite Hlen, Hlen1; reflexivity|]. now left.
    + unfold bind at 1. unfold addToast at 1, emit at 1.
      cbn [trace st uuid_calls url_calls pending].
      match goal with |- context [EditorV1.fetchAlbumData env ?w3] =>
        destruct (earlier_fetchAlbumData_calls env a w3 Ha Ht) as (r & st' & E3 & _)
      end.
      rewrite E3.
      unfold bind, EditorV1.setUploading, EditorV1.clearFileInput, setState.
      cbn [trace st uuid_calls url_calls pending fst snd].
      eexists [_; _]. rewrite !sdk_calls_app. cbn [sdk_calls filter is_call].
      rewrite <- !app_assoc. cbn [app].
      split; [reflexivity|]. split; [assumption|]. split; [assumption|].
      split; [rewrite <- Hex; discriminate|].
      intros _. eexists. eexists. eexists [_].
      split; [reflexivity|]. split; [rewrite Hlen, Hlen1; reflexivity|].
      right. eexists. reflexivity.
Qed.

End EarlierUpload.

(** ** SDK calls per operation *)

Module CallsPerOperation.
Import Run Upload UploadRun DeleteAlbum Forms EarlierUpload.

Lemma fetchAlbumsAndStats_calls env (w : World Dashboard.state) :
  exists albumsResult photosCountResult,
    sdk_calls (trace (exec Dashboard.fetchAlbumsAndStats env w)) =
    sdk_calls (trace w) ++
    [EvCall Sdk.rpc_get_albums_with_photo_count albumsResult;
     EvCall Sdk.photos_select_count photosCountResult].
Proof.
  unfold exec, Dashboard.fetchAlbumsAndStats, Dashboard.fetchAlbumsAndStats_begin,
    Dashboard.setLoading, bind, setState, call, ret, defer.
  cbn [trace st uuid_calls url_calls pending fst snd].
  eexists. eexists. rewrite <- app_assoc, sdk_calls_app. reflexivity.
Qed.

Lemma count_method_app m a b :
  count_method m (a ++ b) = count_method m a + count_method m b.
Proof.
  unfold count_method, methods. now rewrite flat_map_app, filter_app, length_app.
Qed.

Lemma count_method_repeat m m' calls n :
  methods calls = repeat m' n ->
  count_method m calls = if String.eqb m m' then n else 0.
Proof.
  unfold count_method. intros ->.
  induction n as [|n IH]; cbn [repeat filter].
  - now destruct (String.eqb m m').
  - destruct (String.eqb m m'); cbn [length]; now rewrite IH.
Qed.

Lemma count_upload_turn a uf calls outcome :
  turn a uf calls outcome -> count_method "storage.upload" calls = 1.
Proof. now destruct 1. Qed.

Lemma count_upload_turns a l turns :
  Forall2 (fun uf t => turn a uf (fst t) (snd t)) l turns ->
  count_method "storage.upload" (concat (map fst turns)) = length l.
Proof.
  induction 1 as [|uf t l turns Hturn _ IH]; [reflexivity|].
  cbn [map concat length]. rewrite count_method_app, IH.
  now rewrite (count_upload_turn _ _ _ _ Hturn).
Qed.

Lemma count_upload_refresh a refresh :
  is_refresh a refresh -> count_method "storage.upload" refresh = 0.
Proof. now intros [->|[r ->]]. Qed.

(** C5.  Each operation is performed by one call of its own into the SDK.
    Sign-in is the one call of [handleLogin] and the creation of an album the
    one call of the save.  The count of all photos is one counting select,
    which the refresh of the dashboard sends next to its request for the
    albums.  The upload of the queue makes one storage upload per queued
    photo, followed, when it succeeds, by the lookup of the public URL and the
    insert of the row; the upload of the earlier revision makes one storage
    upload per file.  The deletion of an album whose photo list was fetched
    makes one deletion of the album row and no deletion of photo rows, which
    is left to the backend; before it come the fetch of the list and at most
    one removal from storage, and after it what the refresh asks. *)
Theorem sdk_calls_of_each_operation :
  (forall env (w : World Login.state),
     exists r,
       sdk_calls (trace (exec Login.handleLogin env w)) =
       sdk_calls (trace w) ++
       [EvCall (Sdk.auth_signInWithPassword (Login.email (st w)) (Login.password (st w))) r])
  /\
  (forall env (w : World Editor.state) t,
     Editor.isNew (st w) = true ->
     PartialAlbum.title (Editor.album (st w)) = Some t ->
     Js.truthy t = true ->
     exists r,
       sdk_calls (trace (exec Editor.handleAlbumSave env w)) =
       sdk_calls (trace w) ++
       [EvCall (Sdk.albums_insert (Some t)
                  (PartialAlbum.description (Editor.album (st w)))) r])
  /\
  (forall env (w : World Dashboard.state),
     exists albumsResult photosCountResult calls,
       sdk_calls (trace (exec Dashboard.fetchAlbumsAndStats env w)) =
         sdk_calls (trace w) ++ calls /\
       calls = [EvCall Sdk.rpc_get_albums_with_photo_count albumsResult;
                EvCall Sdk.photos_select_count photosCountResult] /\
       count_method "photos.select count" calls = 1)
  /\
  (forall env (w : World Editor.state) a,
     Editor.albumId (st w) = Some a ->
     Js.truthy a = true ->
     let filesToProcess := filter Editor.is_queued (Editor.filesToUpload (st w)) in
     exists turns refresh calls,
       sdk_calls (trace (exec Editor.handleUploadAll env w)) =
         sdk_calls (trace w) ++ calls /\
       calls = concat (map fst turns) ++ refresh /\
       Forall2 (fun uf t => turn a uf (fst t) (snd t)) filesToProcess turns /\
       is_refresh a refresh /\
       count_method "storage.upload" calls = length filesToProcess)
  /\
  (forall env (w : World EditorV1.state) files a,
     EditorV1.albumId (st w) = Some a ->
     Js.truthy a = true ->
     files <> [] ->
     exists uploads lookups closing,
       sdk_calls (trace (exec (EditorV1.handleFileUpload (Some files)) env w)) =
         sdk_calls (trace w) ++ uploads ++ lookups ++ closing /\
       methods uploads = repeat "storage.upload" (length files) /\
       methods lookups =
         repeat "storage.getPublicUrl" (length (filter call_ok uploads)) /\
       (some_failed uploads = true -> closing = []) /\
       (some_failed uploads = false ->
        exists newPhotosData insertError refresh,
          closing = EvCall (Sdk.photos_insert newPhotosData) insertError :: refresh /\
          length newPhotosData = length files /\
          is_refresh a refresh) /\
       count_method "storage.upload" (uploads ++ lookups ++ closing) = length files)
  /\
  (forall env (w : World Dashboard.state) albumId albumTitle,
     let t1 := trace w ++ [EvConfirm (delete_prompt albumTitle) true] in
     let fetch := Sdk.photos_select_image_url albumId in
     let photosResult := respond env _ t1 fetch in
     let paths := Dashboard.filePaths (rows (Sdk.data photosResult)) in
     confirm env (trace w) (delete_prompt albumTitle) = true ->
     Sdk.error photosResult = None ->
     exists storageError dbError albumsResult photosCountResult calls,
       sdk_calls (trace (exec (Dashboard.handleDelete albumId albumTitle) env w)) =
         sdk_calls (trace w) ++ calls /\
       calls =
         [EvCall fetch photosResult] ++
         match paths with
         | [] => []
         | _ :: _ => [EvCall (Sdk.storage_remove paths) storageError]
         end ++
         [EvCall (Sdk.albums_delete albumId) dbError] ++
         match dbError with
         | Some _ => []
         | None => [EvCall Sdk.rpc_get_albums_with_photo_count albumsResult;
                    EvCall Sdk.photos_select_count photosCountResult]
         end /\
       count_method "albums.delete" calls = 1 /\
       count_method "photos.delete" calls = 0).
Proof.
  split; [|split; [|split; [|split; [|split]]]].
  - intros env w. eexists. apply (handleLogin_run env w).
  - intros env w t Hnew Ht Htruthy.
    destruct (handleAlbumSave_create_run env w t Hnew Ht Htruthy) as (r & Hc & _).
    now exists r.
  - intros env w.
    destruct (fetchAlbumsAndStats_calls env w) as (ar & cr & Hc).
    exists ar, cr. eexists. split; [exact Hc|]. split; reflexivity.
  - intros env w a Ha Ht filesToProcess.
    destruct (handleUploadAll_calls env w a Ha Ht) as (turns & refresh & Hc & Hturns & Href).
    exists turns, refresh. eexists. split; [exact Hc|]. split; [reflexivity|].
    split; [exact Hturns|]. split; [exact Href|].
    rewrite count_method_app, (count_upload_turns _ _ _ Hturns),
      (count_upload_refresh _ _ Href).
    apply Nat.add_0_r.
  - intros env w files a Ha Ht Hne.
    destruct (handleFileUpload_calls env w files a Ha Ht Hne)
      as (uploads & lookups & closing & Hc & Hu & Hl & Hfail & Hok).
    exists uploads, lookups, closing.
    split; [exact Hc|]. split; [exact Hu|]. split; [exact Hl|].
    split; [exact Hfail|]. split; [exact Hok|].
    rewrite !count_method_app, (count_method_repeat _ _ _ _ Hu),
      (count_method_repeat _ _ _ _ Hl). cbn [String.eqb Ascii.eqb Bool.eqb].
    destruct (some_failed uploads) eqn:Hsf.
    + rewrite (Hfail eq_refl). cbn. lia.
    + destruct (Hok eq_refl) as (rowsData & insertError & refresh & -> & _ & Href).
      change (EvCall (Sdk.photos_insert rowsData) insertError :: refresh)
        with ([EvCall (Sdk.photos_insert rowsData) insertError] ++ refresh).
      rewrite count_method_app, (count_upload_refresh _ _ Href). cbn. lia.
  - intros env w albumId albumTitle t1 fetch photosResult paths Hc He.
    destruct (handleDelete_fetched env w albumId albumTitle Hc He)
      as (storageError & dbError & ar & cr & tasks & st' & E).
    exists storageError, dbError, ar, cr. eexists.
    split; [|split; [reflexivity|]].
    + unfold exec. rewrite E. cbn [snd trace]. fold t1 fetch photosResult paths.
      unfold t1. rewrite sdk_calls_app. cbn [sdk_calls filter is_call app].
      change (filter is_call) with sdk_calls.
      rewrite !sdk_calls_app, sdk_calls_closing_events, sdk_calls_removal_events.
      cbn. now rewrite app_nil_r.
    + destruct paths, dbError; split; reflexivity.
Qed.

Lemma sdk_calls_of_each_operation_witness :
  Editor.isNew (st Sample.editor_new) = true /\
  Editor.albumId (st Sample.editor_with_image) = Some "a1" /\
  confirm Sample.env (trace Sample.dashboard) (delete_prompt "Wisuda") = true /\
  (exists r,
     sdk_calls (trace (exec Editor.handleAlbumSave Sample.env Sample.editor_new)) =
     [EvCall (Sdk.albums_insert (Some "Wisuda") (Some (Some ""))) r]) /\
  (exists calls,
     sdk_calls (trace (exec Editor.handleUploadAll Sample.env Sample.editor_with_image)) =
       calls /\
     count_method "storage.upload" calls = 1) /\
  (exists uploads lookups closing,
     sdk_calls (trace (exec (EditorV1.handleFileUpload (Some [Sample.image; Sample.image2]))
                         Sample.env Sample.editor_v1)) =
       uploads ++ lookups ++ closing /\
     count_method "storage.upload" (uploads ++ lookups ++ closing) = 2) /\
  (exists storageError dbError albumsResult photosCountResult calls,
     sdk_calls (trace (exec (Dashboard.handleDelete "a1" "Wisuda") Sample.env
                         Sample.dashboard)) = calls /\
     calls =
       [EvCall (Sdk.photos_select_image_url "a1")
          {| Sdk.data := Some [Photo.image_url Sample.photo]; Sdk.error := None |};
        EvCall (Sdk.storage_remove ["p1.jpg"]) storageError;
        EvCall (Sdk.albums_delete "a1") dbError] ++
       match dbError with
       | Some _ => []
       | None => [EvCall Sdk.rpc_get_albums_with_photo_count albumsResult;
                  EvCall Sdk.photos_select_count photosCountResult]
       end /\
     count_method "albums.delete" calls = 1 /\
     count_method "photos.delete" calls = 0).
Proof.
  destruct sdk_calls_of_each_operation as (_ & Hcreate & _ & Hupload & Hearlier & Hdelete).
  split; [reflexivity|]. split; [reflexivity|]. split; [reflexivity|].
  split; [|split; [|split]].
  - exact (Hcreate Sample.env Sample.editor_new "Wisuda" eq_refl eq_refl eq_refl).
  - destruct (Hupload Sample.env Sample.editor_with_image "a1" eq_refl eq_refl)
      as (turns & refresh & calls & Hc & _ & _ & _ & Hn).
    exists calls. split; [exact Hc | exact Hn].
  - destruct (Hearlier Sample.env Sample.editor_v1 [Sample.image; Sample.image2] "a1"
                eq_refl eq_refl ltac:(discriminate))
      as (uploads & lookups & closing & Hc & _ & _ & _ & _ & Hn).
    exists uploads, lookups, closing. split; [exact Hc | exact Hn].
  - exact (Hdelete Sample.env Sample.dashboard "a1" "Wisuda" eq_refl eq_refl).
Defined.

(** What else the handlers send, at a concrete input: the deletion of
    album ["a1"], which holds one photo, lists the photos and removes the file
    before it deletes the row, and is followed by the two reads of the
    refresh; the upload of one image, in the current and in the earlier
    revision, is followed by the lookup of the public URL, the insert of the
    row and the first read of the refresh. *)
Lemma delete_and_upload_take_several_calls :
  let deleted := exec (Dashboard.handleDelete "a1" "Wisuda") Sample.env Sample.dashboard in
  let uploaded := exec Editor.handleUploadAll Sample.env Sample.editor_with_image in
  let earlier :=
    exec (EditorV1.handleFileUpload (Some [Sample.image])) Sample.env Sample.editor_v1 in
  methods (sdk_calls (trace deleted)) =
    ["photos.select"; "storage.remove"; "albums.delete";
     "rpc get_albums_with_photo_count"; "photos.select count"] /\
  methods (sdk_calls (trace uploaded)) =
    ["storage.upload"; "storage.getPublicUrl"; "photos.insert"; "albums.select.single"] /\
  methods (sdk_calls (trace earlier)) =
    ["storage.upload"; "storage.getPublicUrl"; "photos.insert"; "albums.select.single"] /\
  length (sdk_calls (trace deleted)) <> 1 /\
  length (sdk_calls (trace uploaded)) <> 1 /\
  length (sdk_calls (trace earlier)) <> 1.
Proof. vm_compute. repeat split; discriminate. Qed.

End CallsPerOperation.

(** ** Toasts of the admin operations *)

Module Toasts.
Import Run Stored DeleteAlbum Forms.

Lemma login_toasts env (w : World Login.state) :
  exists ts calls,
    added w (exec Login.handleLogin env w) ts calls /\
    length ts = 1 /\ toast_contract ts calls.
Proof.
  destruct (handleLogin_run env w) as [Hc Ht].
  eexists. eexists. split; [split; [exact Ht|exact Hc]|].
  destruct (respond env (option Error) (trace w) _); repeat split.
Qed.

Lemma logout_toasts {S} env (w : World S) :
  exists ts calls,
    added w (exec handleLogout env w) ts calls /\
    length ts = 1 /\ toast_contract ts calls.
Proof.
  destruct (handleLogout_run env w) as [Hc Ht].
  eexists. eexists. split; [split; [exact Ht|exact Hc]|].
  destruct (respond env (option Error) (trace w) _); repeat split.
Qed.

Lemma create_toasts env (w : World Editor.state) t :
  Editor.isNew (st w) = true ->
  PartialAlbum.title (Editor.album (st w)) = Some t ->
  Js.truthy t = true ->
  exists ts calls,
    added w (exec Editor.handleAlbumSave env w) ts calls /\
    length ts = 1 /\ toast_contract ts calls.
Proof.
  intros Hnew Ht Htruthy.
  destruct (handleAlbumSave_create_run env w t Hnew Ht Htruthy) as (r & Hc & Hts).
  eexists. eexists. split; [split; [exact Hts|exact Hc]|].
  destruct r; repeat split.
Qed.

Lemma update_toasts env (w : World Editor.state) t :
  Editor.isNew (st w) = false ->
  PartialAlbum.title (Editor.album (st w)) = Some t ->
  Js.truthy t = true ->
  exists ts calls,
    added w (exec Editor.handleAlbumSave env w) ts calls /\
    length ts = 1 /\ toast_contract ts calls.
Proof.
  intros Hnew Ht Htruthy.
  destruct (handleAlbumSave_update_run env w t Hnew Ht Htruthy) as (calls & Hc & _ & Hts).
  eexists. exists calls. split; [split; [exact Hts|exact Hc]|].
  unfold toast_contract. rewrite all_ok_some_failed.
  destruct (some_failed calls); repeat split.
Qed.

Lemma cover_toasts env (w : World Editor.state) photoUrl :
  exists ts calls,
    added w (exec (Editor.handleSetCover photoUrl) env w) ts calls /\
    length ts = 1 /\ toast_contract ts calls.
Proof.
  unfold added, exec, Editor.handleSetCover, bind, getState, call.
  cbv beta iota zeta.
  destruct (respond env (option Error) (trace w)
              (Sdk.albums_update_cover (Editor.albumId (st w)) (Some photoUrl)))
    as [e|] eqn:Er;
    unfold addToast, emit, Editor.setAlbum, setState;
    cbn [trace st uuid_calls url_calls pending fst snd];
    rewrite <- app_assoc, sdk_calls_app, toasts_app; cbn [app sdk_calls toasts];
    eexists; eexists; (split; [split; reflexivity|]);
    cbn; rewrite ?Er; repeat split.
Qed.

Lemma delete_photo_toasts env (w : World Editor.state) photo :
  confirm env (trace w) "Anda yakin ingin menghapus foto ini?" = true ->
  Js.truthy (Js.pop (Js.split (Photo.image_url photo) "/gallery/")) = true ->
  exists ts calls,
    added w (exec (Editor.handleDeletePhoto photo) env w) ts calls /\
    length ts = 1 /\ toast_contract ts (filter is_photo_removal calls).
Proof.
  intros Hc Hp. unfold added, exec.
  set (filePath := Js.pop (Js.split (Photo.image_url photo) "/gallery/")) in *.
  set (t1 := trace w ++ [EvConfirm "Anda yakin ingin menghapus foto ini?" true]).
  destruct (respond env (option Error) t1 (Sdk.storage_remove [filePath]))
    as [e|] eqn:Hr.
  - rewrite (handleDeletePhoto_storage_failed env w photo e Hc Hp Hr).
    cbn [snd trace]. fold filePath t1. unfold t1.
    rewrite !sdk_calls_app, !toasts_app. cbn. rewrite !app_nil_r.
    eexists. eexists. split; [split; reflexivity|]. repeat split.
  - set (t2 := t1 ++ [EvCall (Sdk.storage_remove [filePath]) None]).
    destruct (respond env (option Error) t2 (Sdk.photos_delete (Photo.id photo)))
      as [e|] eqn:Hd.
    + rewrite (handleDeletePhoto_row_failed env w photo e Hc Hp Hr Hd).
      cbn [snd trace]. fold filePath t1 t2. unfold t2, t1.
      rewrite !sdk_calls_app, !toasts_app. cbn. rewrite !app_nil_r, <- !app_assoc.
      eexists. eexists. split; [split; reflexivity|]. repeat split.
    + destruct (handleDeletePhoto_deleted env w photo Hc Hp Hr Hd)
        as (evs & tasks & st' & coverCalls & E & Hcalls & Hts & _ & Hyes & Hno).
      rewrite E. cbn [snd trace]. fold filePath t1 t2. unfold t2, t1.
      rewrite !sdk_calls_app, !toasts_app, Hts. cbn. rewrite !app_nil_r.
      assert (Hcover :
        toasts coverCalls = [] /\ filter is_photo_removal (sdk_calls coverCalls) = []).
      { destruct (PartialAlbum.cover_is (Editor.album (st w)) (Photo.image_url photo)).
        - destruct (Hyes eq_refl) as (r & ->). split; reflexivity.
        - rewrite (Hno eq_refl). split; reflexivity. }
      destruct Hcover as [Hct Hcf]. rewrite Hct.
      repeat rewrite <- app_assoc. cbn [app].
      eexists. eexists. split; [split; reflexivity|].
      split; [reflexivity|].
      cbn [app filter is_photo_removal is_storage_remove deletes_photo_rows orb].
      rewrite filter_app, Hcf.
      destruct Hcalls as [->|(a & r & ->)]; repeat split.
Qed.

Lemma delete_album_toasts env (w : World Dashboard.state) albumId albumTitle :
  confirm env (trace w) (delete_prompt albumTitle) = true ->
  exists ts calls refresh,
    added w (exec (Dashboard.handleDelete albumId albumTitle) env w) ts
      (calls ++ refresh) /\
    (refresh = [] \/
     exists albumsResult photosCountResult,
       refresh = [EvCall Sdk.rpc_get_albums_with_photo_count albumsResult;
                  EvCall Sdk.photos_select_count photosCountResult]) /\
    has_toast ToastType.error ts = some_failed calls /\
    has_toast ToastType.success ts =
      all_ok (filter (fun e => negb (is_storage_remove e)) calls).
Proof.
  intros Hc. unfold added, exec.
  set (t1 := trace w ++ [EvConfirm (delete_prompt albumTitle) true]).
  set (photosResult := respond env _ t1 (Sdk.photos_select_image_url albumId)).
  destruct (Sdk.error photosResult) as [e|] eqn:He.
  - rewrite (handleDelete_fetch_failed env w albumId albumTitle e Hc He).
    cbn [snd trace]. fold t1 photosResult. clearbody photosResult. unfold t1.
    rewrite !sdk_calls_app, !toasts_app.
    cbn [sdk_calls filter is_call toasts flat_map app]. rewrite !app_nil_r.
    eexists. eexists [_]. exists []. split; [split; reflexivity|].
    split; [now left|].
    cbn [has_toast some_failed all_ok existsb forallb filter is_storage_remove negb
         call_failed failed_answer is_toast_of snd].
    rewrite He. split; reflexivity.
  - destruct (handleDelete_fetched env w albumId albumTitle Hc He)
      as (storageError & dbError & ar & cr & tasks & st' & E).
    rewrite E. cbn [snd trace]. fold t1 photosResult.
    set (paths := Dashboard.filePaths (rows (Sdk.data photosResult))).
    clearbody paths. clearbody photosResult. unfold t1.
    rewrite sdk_calls_app, toasts_app.
    cbn [sdk_calls filter is_call toasts flat_map app].
    change (filter is_call) with sdk_calls.
    change (flat_map (fun e : Event =>
              match e with EvToast m t => [(m, t)] | _ => [] end)) with toasts.
    rewrite !sdk_calls_app, !toasts_app, sdk_calls_removal_events,
      sdk_calls_closing_events, toasts_removal_events, toasts_closing_events.
    cbn [sdk_calls filter is_call toasts flat_map app]. rewrite !app_nil_r.
    exists (match paths, storageError with
            | _ :: _, Some e =>
                [("Gagal menghapus beberapa file: " +++ message e, ToastType.error)]
            | _, _ => []
            end ++
            match dbError with
            | Some e => [("Gagal menghapus album: " +++ message e, ToastType.error)]
            | None => [("Album " +++ dquote +++ albumTitle +++ dquote
                        +++ " berhasil dihapus.", ToastType.success)]
            end),
      (EvCall (Sdk.photos_select_image_url albumId) photosResult ::
       match paths with
       | [] => []
       | _ :: _ => [EvCall (Sdk.storage_remove paths) storageError]
       end ++ [EvCall (Sdk.albums_delete albumId) dbError]),
      (match dbError with
       | Some _ => []
       | None => [EvCall Sdk.rpc_get_albums_with_photo_count ar;
                  EvCall Sdk.photos_select_count cr]
       end).
    split; [split; [reflexivity|]|].
    + cbn [app]. rewrite <- !app_assoc. reflexivity.
    + split; [destruct dbError; [now left|right; eauto]|].
      unfold has_toast, some_failed, all_ok.
      destruct paths, storageError, dbError;
        cbn [existsb forallb filter is_storage_remove negb app
             call_failed failed_answer is_toast_of snd is_some orb andb];
        rewrite He; split; reflexivity.
Qed.

(** C6.  Login, logout, the creation of an album and the saving of an
    existing one (the title not empty), and the setting of a cover each add
    exactly one toast: a success toast if and only if every SDK call of the
    operation returned without error, an error toast if and only if some call
    returned an error.  The deletion of a photo (confirmed, its URL yielding
    a file path) adds exactly one toast, which answers in that way the removal
    of the file and the deletion of the row.  The deletion of an album
    (confirmed) adds an error toast if and only if one of its own calls
    returned an error, and a success toast if and only if the fetch of the
    photo list and the deletion of the album row returned without error,
    whatever the removal from storage returned. *)
Theorem toasts_follow_answers :
  (forall env (w : World Login.state),
     exists ts calls,
       added w (exec Login.handleLogin env w) ts calls /\
       length ts = 1 /\ toast_contract ts calls)
  /\
  (forall (S : Type) env (w : World S),
     exists ts calls,
       added w (exec handleLogout env w) ts calls /\
       length ts = 1 /\ toast_contract ts calls)
  /\
  (forall env (w : World Editor.state) t,
     PartialAlbum.title (Editor.album (st w)) = Some t ->
     Js.truthy t = true ->
     exists ts calls,
       added w (exec Editor.handleAlbumSave env w) ts calls /\
       length ts = 1 /\ toast_contract ts calls)
  /\
  (forall env (w : World Editor.state) photoUrl,
     exists ts calls,
       added w (exec (Editor.handleSetCover photoUrl) env w) ts calls /\
       length ts = 1 /\ toast_contract ts calls)
  /\
  (forall env (w : World Editor.state) photo,
     confirm env (trace w) "Anda yakin ingin menghapus foto ini?" = true ->
     Js.truthy (Js.pop (Js.split (Photo.image_url photo) "/gallery/")) = true ->
     exists ts calls,
       added w (exec (Editor.handleDeletePhoto photo) env w) ts calls /\
       length ts = 1 /\ toast_contract ts (filter is_photo_removal calls))
  /\
  (forall env (w : World Dashboard.state) albumId albumTitle,
     confirm env (trace w) (delete_prompt albumTitle) = true ->
     exists ts calls refresh,
       added w (exec (Dashboard.handleDelete albumId albumTitle) env w) ts
         (calls ++ refresh) /\
       (refresh = [] \/
        exists albumsResult photosCountResult,
          refresh = [EvCall Sdk.rpc_get_albums_with_photo_count albumsResult;
                     EvCall Sdk.photos_select_count photosCountResult]) /\
       has_toast ToastType.error ts = some_failed calls /\
       has_toast ToastType.success ts =
         all_ok (filter (fun e => negb (is_storage_remove e)) calls)).
Proof.
  split; [exact login_toasts|].
  split; [exact (@logout_toasts)|].
  split.
  { intros env w t Ht Htruthy. destruct (Editor.isNew (st w)) eqn:Hnew.
    - now apply (create_toasts env w t).
    - now apply (update_toasts env w t). }
  split; [exact cover_toasts|].
  split; [exact delete_photo_toasts|exact delete_album_toasts].
Qed.

Lemma toasts_follow_answers_witness :
  PartialAlbum.title (Editor.album (st Sample.editor_loaded)) = Some "Wisuda" /\
  confirm Sample.env_storage_down (trace Sample.dashboard) (delete_prompt "Wisuda") = true /\
  (exists ts calls,
     added Sample.editor_loaded
       (exec Editor.handleAlbumSave Sample.env Sample.editor_loaded) ts calls /\
     length ts = 1 /\ toast_contract ts calls) /\
  (exists ts calls refresh,
     added Sample.dashboard
       (exec (Dashboard.handleDelete "a1" "Wisuda") Sample.env_storage_down
          Sample.dashboard) ts (calls ++ refresh) /\
     has_toast ToastType.error ts = some_failed calls /\
     has_toast ToastType.success ts =
       all_ok (filter (fun e => negb (is_storage_remove e)) calls)).
Proof.
  destruct toasts_follow_answers as (_ & _ & Hsave & _ & _ & Hdelete).
  split; [reflexivity|]. split; [reflexivity|]. split.
  - exact (Hsave Sample.env Sample.editor_loaded "Wisuda" eq_refl eq_refl).
  - destruct (Hdelete Sample.env_storage_down Sample.dashboard "a1" "Wisuda" eq_refl)
      as (ts & calls & refresh & Hadded & _ & Herr & Hok).
    exists ts, calls, refresh. split; [exact Hadded|]. split; [exact Herr|exact Hok].
Defined.

(** The claim as the spec states it, at a concrete input: with the object
    storage down, the deletion of album ["a1"] adds a success toast although
    one of its calls, the removal from storage, returned an error. *)
Lemma delete_album_success_toast_despite_error :
  let w' := exec (Dashboard.handleDelete "a1" "Wisuda") Sample.env_storage_down
              Sample.dashboard in
  methods (sdk_calls (trace w')) =
    ["photos.select"; "storage.remove"; "albums.delete";
     "rpc get_albums_with_photo_count"; "photos.select count"] /\
  map call_failed (sdk_calls (trace w')) = [false; true; false; false; false] /\
  map snd (toasts (trace w')) = [ToastType.error; ToastType.success] /\
  ~ toast_contract (toasts (trace w')) (sdk_calls (trace w')).
Proof.
  vm_compute. repeat split. intros [H _]. discriminate.
Qed.

End Toasts.

(** ** Storage paths of the deletions *)

Module PathFacts.
Import Run TextFacts PathLemmas DeleteAlbum.

(** X1.  Whatever the admin and the backend answer, [handleDelete] sends at
    most one removal to the object storage; it names at least one path, and
    every path it names is non-empty and the tail of an image URL of the
    photo list the handler fetched. *)
Theorem handleDelete_removes_tails_of_fetched_urls :
  forall env (w : World Dashboard.state) (albumId albumTitle : string),
    let t1 := trace w ++ [EvConfirm (delete_prompt albumTitle) true] in
    let photosResult := respond env _ t1 (Sdk.photos_select_image_url albumId) in
    let w' := exec (Dashboard.handleDelete albumId albumTitle) env w in
    exists removals,
      removed_paths (trace w') = removed_paths (trace w) ++ removals /\
      length removals <= 1 /\
      forall paths, In paths removals ->
        paths <> [] /\
        forall path, In path paths ->
          path <> "" /\
          exists image_url,
            In image_url (rows (Sdk.data photosResult)) /\
            Text.endsWith image_url path.
Proof.
  intros env w albumId albumTitle t1 photosResult w'.
  unfold w'. rewrite handleDelete_removed_paths. fold t1 photosResult.
  eexists. split; [reflexivity|].
  destruct (confirm env (trace w) (delete_prompt albumTitle)); [|split; [cbn; lia|intros ? []]].
  destruct (Sdk.error photosResult); [split; [cbn; lia|intros ? []]|].
  destruct (Dashboard.filePaths (rows (Sdk.data photosResult))) as [|p ps] eqn:E;
    [split; [cbn; lia|intros ? []]|].
  split; [cbn; lia|].
  intros paths [<-|[]]. split; [discriminate|].
  intros path Hin. apply filePaths_tails. now rewrite E.
Qed.

(** X2.  When the admin confirms and the photo list is fetched without
    error: if the list holds the URLs [base ++ "/gallery/" ++ name], where
    ["/gallery/"] occurs neither in [base ++ "/gallery"] nor in a name,
    [handleDelete] hands the non-empty names, in order, to the object storage;
    if no URL of the list holds ["/gallery/"], it hands over the non-empty
    URLs themselves.  When nothing is left to hand over there is no
    removal. *)
Theorem handleDelete_removes_stored_files :
  forall env (w : World Dashboard.state) (albumId albumTitle base : string)
         (names : list string),
    let t1 := trace w ++ [EvConfirm (delete_prompt albumTitle) true] in
    let photosResult := respond env _ t1 (Sdk.photos_select_image_url albumId) in
    let image_urls := rows (Sdk.data photosResult) in
    let w' := exec (Dashboard.handleDelete albumId albumTitle) env w in
    confirm env (trace w) (delete_prompt albumTitle) = true ->
    Sdk.error photosResult = None ->
    (Text.includes (base +++ "/gallery") "/gallery/" = false ->
     Forall (fun name => Text.includes name "/gallery/" = false) names ->
     image_urls = map (fun name => base +++ "/gallery/" +++ name) names ->
     removed_paths (trace w') =
       removed_paths (trace w) ++
       match filter Js.truthy names with
       | [] => []
       | _ :: _ => [filter Js.truthy names]
       end) /\
    (Forall (fun url => Text.includes url "/gallery/" = false) image_urls ->
     removed_paths (trace w') =
       removed_paths (trace w) ++
       match filter Js.truthy image_urls with
       | [] => []
       | _ :: _ => [filter Js.truthy image_urls]
       end).
Proof.
  intros env w albumId albumTitle base names t1 photosResult image_urls w' Hc He.
  unfold w'. rewrite handleDelete_removed_paths. fold t1 photosResult image_urls.
  rewrite Hc, He. split.
  - intros Hbase Hnames ->. rewrite (filePaths_public base names Hbase Hnames).
    now destruct (filter Js.truthy names).
  - intros Hurls. rewrite (filePaths_whole image_urls Hurls).
    now destruct (filter Js.truthy image_urls).
Qed.

Lemma handleDelete_removes_stored_files_witness :
  let base := "https://x.supabase.co/storage/v1/object/public" in
  let w' := exec (Dashboard.handleDelete "a1" "Wisuda") Sample.env Sample.dashboard in
  confirm Sample.env (trace Sample.dashboard) (delete_prompt "Wisuda") = true /\
  Text.includes (base +++ "/gallery") "/gallery/" = false /\
  Forall (fun name => Text.includes name "/gallery/" = false) ["p1.jpg"] /\
  removed_paths (trace w') = [["p1.jpg"]].
Proof.
  intros base w'.
  assert (F : Forall (fun name => Text.includes name "/gallery/" = false) ["p1.jpg"])
    by (repeat constructor).
  destruct (handleDelete_removes_stored_files Sample.env Sample.dashboard "a1" "Wisuda"
              base ["p1.jpg"] eq_refl eq_refl) as [H _].
  split; [reflexivity|]. split; [reflexivity|]. split; [exact F|].
  exact (H eq_refl F eq_refl).
Defined.



End PathFacts.
(** ** The lightbox goes round the album *)

Module LightboxCycle.
Import Lightbox LightboxFacts.

Lemma goToNext_mod photos i :
  in_range photos i ->
  goToNext photos i = ((i + 1) mod Z.of_nat (length photos))%Z.
Proof.
  unfold in_range, goToNext. intros H.
  destruct (Z.eqb_spec i (Z.of_nat (length photos) - 1)) as [E|E].
  - replace (i + 1)%Z with (Z.of_nat (length photos)) by lia.
    now rewrite Z_mod_same_full.
  - rewrite Z.mod_small; lia.
Qed.

Lemma iter_goToNext photos i k :
  in_range photos i ->
  Nat.iter k (goToNext photos) i = ((i + Z.of_nat k) mod Z.of_nat (length photos))%Z.
Proof.
  intros H. assert (Hn : (0 < Z.of_nat (length photos))%Z) by (unfold in_range in H; lia).
  induction k as [|k IH].
  - cbn [Nat.iter]. rewrite Z.add_0_r. rewrite Z.mod_small; [reflexivity|].
    unfold in_range in H. lia.
  - cbn [Nat.iter nat_rect]. change (nat_rect _ _ _ k) with (Nat.iter k (goToNext photos) i).
    rewrite IH. rewrite goToNext_mod.
    + rewrite Zplus_mod_idemp_l. f_equal. lia.
    + unfold in_range.
      pose proof (Z.mod_pos_bound (i + Z.of_nat k) (Z.of_nat (length photos)) Hn). lia.
Qed.

Lemma iter_in_range photos f i k :
  (forall j, in_range photos j -> in_range photos (f j)) ->
  in_range photos i -> in_range photos (Nat.iter k f i).
Proof. intros Hf Hi. induction k; cbn; auto. Qed.

Lemma iter_previous_next photos i k :
  in_range photos i ->
  Nat.iter k (goToPrevious photos) (Nat.iter k (goToNext photos) i) = i.
Proof.
  intros H. induction k as [|k IH]; [reflexivity|].
  rewrite Nat.iter_succ_r. cbn [Nat.iter nat_rect].
  change (nat_rect _ _ _ k) with (Nat.iter k (goToNext photos) i).
  rewrite previous_next; [exact IH|].
  apply iter_in_range; [apply goToNext_in_range|exact H].
Qed.

(** X4.  As many presses of a button as the album has photos bring the
    lightbox back to the photo it was on, and the next button alone reaches
    every photo. *)
Theorem lightbox_goes_round :
  forall (photos : list Photo.t) (i : Z),
    in_range photos i ->
    Nat.iter (length photos) (goToNext photos) i = i /\
    Nat.iter (length photos) (goToPrevious photos) i = i /\
    forall j, in_range photos j ->
      exists k, k < length photos /\ Nat.iter k (goToNext photos) i = j.
Proof.
  intros photos i H.
  assert (Hn : (0 < Z.of_nat (length photos))%Z) by (unfold in_range in H; lia).
  assert (Hround : Nat.iter (length photos) (goToNext photos) i = i).
  { rewrite iter_goToNext by exact H.
    rewrite <- (Z.mul_1_l (Z.of_nat (length photos))) at 1.
    rewrite Z.mod_add by lia. apply Z.mod_small. unfold in_range in H. lia. }
  split; [exact Hround|]. split.
  - rewrite <- Hround at 2. rewrite <- Hround at 1.
    rewrite iter_previous_next by exact H. symmetry. exact Hround.
  - intros j Hj.
    exists (Z.to_nat ((j - i) mod Z.of_nat (length photos))).
    pose proof (Z.mod_pos_bound (j - i) (Z.of_nat (length photos)) Hn) as B.
    split; [lia|].
    rewrite iter_goToNext by exact H.
    rewrite Z2Nat.id by lia.
    rewrite Zplus_mod_idemp_r.
    replace (i + (j - i))%Z with j by lia.
    apply Z.mod_small. unfold in_range in Hj. lia.
Qed.

Lemma lightbox_goes_round_witness :
  let photos := [Sample.photo; Sample.photo2; Sample.photo] in
  in_range photos 1 /\
  Nat.iter 3 (goToNext photos) 1%Z = 1%Z /\
  Nat.iter 3 (goToPrevious photos) 1%Z = 1%Z /\
  exists k, k < 3 /\ Nat.iter k (goToNext photos) 1%Z = 0%Z.
Proof.
  intros photos.
  assert (H : in_range photos 1) by (unfold in_range; cbn; lia).
  destruct (lightbox_goes_round photos 1 H) as (A & B & C).
  split; [exact H|]. split; [exact A|]. split; [exact B|].
  apply C. unfold in_range. cbn. lia.
Defined.

Lemma shown_in_range photos s :
  in_range photos (currentIndex s) ->
  exists photo, AlbumDetail.shown photos s = Some photo /\ In photo photos.
Proof.
  unfold in_range, AlbumDetail.shown. intros H.
  destruct (Z.ltb_spec (currentIndex s) 0) as [L|L]; [lia|].
  destruct (nth_error photos (Z.to_nat (currentIndex s))) as [photo|] eqn:E.
  - exists photo. split; [reflexivity|]. eapply nth_error_In; eauto.
  - apply nth_error_None in E. lia.
Qed.

(** X5.  The lightbox opened on a photo of the grid shows that photo and,
    whatever is clicked or pressed afterwards, a photo of the album. *)
Theorem lightbox_shows_a_photo_of_the_album :
  forall env (w : World AlbumDetail.state) (photos : list Photo.t) (index : nat)
         (inputs : list input),
    AlbumDetail.photos (st w) = Some photos ->
    index < length photos ->
    let w' := exec (AlbumDetail.openLightbox (Z.of_nat index)) env w in
    let startIndex := AlbumDetail.selectedPhotoIndex (st w') in
    AlbumDetail.lightboxOpen (st w') = true /\
    AlbumDetail.photos (st w') = Some photos /\
    AlbumDetail.shown photos (Lightbox.open startIndex) = nth_error photos index /\
    exists photo,
      AlbumDetail.shown photos (run photos startIndex inputs) = Some photo /\
      In photo photos.
Proof.
  intros env w photos index inputs Hp Hi w' startIndex.
  assert (Hs : startIndex = Z.of_nat index) by reflexivity.
  split; [reflexivity|]. split; [exact Hp|]. split.
  - rewrite Hs. unfold AlbumDetail.shown, Lightbox.open. cbn [currentIndex].
    destruct (Z.ltb_spec (Z.of_nat index) 0); [lia|]. now rewrite Nat2Z.id.
  - apply shown_in_range. apply run_in_range. rewrite Hs. unfold in_range. lia.
Qed.

Lemma lightbox_shows_a_photo_of_the_album_witness :
  let photos := [Sample.photo; Sample.photo2] in
  let w' := exec (AlbumDetail.openLightbox 1) Sample.env SamplePages.detail_loaded in
  AlbumDetail.photos (st SamplePages.detail_loaded) = Some photos /\
  1 < length photos /\
  AlbumDetail.lightboxOpen (st w') = true /\
  AlbumDetail.shown photos (Lightbox.open (AlbumDetail.selectedPhotoIndex (st w'))) =
    Some Sample.photo2 /\
  exists photo,
    AlbumDetail.shown photos
      (run photos (AlbumDetail.selectedPhotoIndex (st w')) [click_next; keydown "ArrowRight"])
    = Some photo /\ In photo photos.
Proof.
  intros photos w'.
  assert (H1 : AlbumDetail.photos (st SamplePages.detail_loaded) = Some photos)
    by reflexivity.
  assert (H2 : 1 < length photos) by (cbn; lia).
  destruct (lightbox_shows_a_photo_of_the_album Sample.env SamplePages.detail_loaded
              photos 1 [click_next; keydown "ArrowRight"] H1 H2) as (A & _ & C & D).
  split; [exact H1|]. split; [exact H2|]. split; [exact A|]. split; [exact C|exact D].
Defined.

End LightboxCycle.
(** ** The public pages load their data *)

Module PublicPages.
Import Run.

Lemma navigations_app a b : navigations (a ++ b) = navigations a ++ navigations b.
Proof. unfold navigations. apply flat_map_app. Qed.

Lemma console_errors_app a b : console_errors (a ++ b) = console_errors a ++ console_errors b.
Proof. unfold console_errors. apply flat_map_app. Qed.

(** X6.  The home page sends one request; it stores the rows of an answer
    without error, keeps its list otherwise, reports a failure on the console
    only, and ends loading in every case. *)
Theorem fetchAlbums_outcome :
  forall env (w : World PublicHome.state),
    let result := respond env _ (trace w) Sdk.rpc_get_albums_with_photo_count in
    let w' := exec PublicHome.fetchAlbums env w in
    sdk_calls (trace w') =
      sdk_calls (trace w) ++ [EvCall Sdk.rpc_get_albums_with_photo_count result] /\
    toasts (trace w') = toasts (trace w) /\
    navigations (trace w') = navigations (trace w) /\
    console_errors (trace w') =
      console_errors (trace w) ++
      (if is_some (Sdk.error result) then ["Error fetching albums:"] else []) /\
    PublicHome.loading (st w') = false /\
    PublicHome.albums (st w') =
      match Sdk.error result, Sdk.data result with
      | None, Some data => data
      | _, _ => PublicHome.albums (st w)
      end.
Proof.
  intros env w result w'. subst w'.
  unfold exec, PublicHome.fetchAlbums, PublicHome.setLoading, PublicHome.setAlbums,
    consoleError, bind, setState, call, emit, ret.
  cbn [trace st uuid_calls url_calls pending fst snd]. fold result.
  destruct (Sdk.error result) as [e|]; [|destruct (Sdk.data result) as [data|]];
    cbn [trace st uuid_calls url_calls pending fst snd PublicHome.loading PublicHome.albums
         is_some];
    repeat rewrite <- app_assoc; cbn [app];
    rewrite ?sdk_calls_app, ?toasts_app, ?navigations_app, ?console_errors_app;
    cbn; rewrite ?app_nil_r; repeat split.
Qed.

(** X7.  The page of an album sends its two requests whatever the first one
    answers, adds no toast, and ends loading; an album that could not be
    fetched leaves the notice that the album was not found. *)
Theorem fetchAlbumDetails_outcome :
  forall env (w : World AlbumDetail.state) (a : string),
    AlbumDetail.albumId (st w) = Some a ->
    Js.truthy a = true ->
    let albumResult := respond env _ (trace w) (Sdk.albums_select_single a) in
    let photosResult :=
      respond env _
        (trace w ++ EvCall (Sdk.albums_select_single a) albumResult ::
           match albumResult with
           | Sdk.row _ => []
           | Sdk.failed _ => [EvConsoleError "Error fetching album:"]
           end)
        (Sdk.photos_select_ordered a) in
    let w' := exec AlbumDetail.fetchAlbumDetails env w in
    sdk_calls (trace w') =
      sdk_calls (trace w) ++
      [EvCall (Sdk.albums_select_single a) albumResult;
       EvCall (Sdk.photos_select_ordered a) photosResult] /\
    toasts (trace w') = toasts (trace w) /\
    navigations (trace w') = navigations (trace w) /\
    AlbumDetail.loading (st w') = false /\
    AlbumDetail.album (st w') =
      match albumResult with
      | Sdk.row albumData => Some albumData
      | Sdk.failed _ => AlbumDetail.album (st w)
      end /\
    AlbumDetail.photos (st w') =
      match Sdk.error photosResult with
      | None => Sdk.data photosResult
      | Some _ => AlbumDetail.photos (st w)
      end /\
    (AlbumDetail.album (st w) = None ->
     (exists e, albumResult = Sdk.failed e) ->
     AlbumDetail.render (st w') = AlbumDetail.NotFound).
Proof.
  intros env w a Ha Ht albumResult photosResult w'. subst w'.
  unfold exec, AlbumDetail.fetchAlbumDetails, bind, getState.
  cbv beta iota zeta. rewrite Ha, Ht.
  unfold AlbumDetail.setLoading, AlbumDetail.setAlbum, AlbumDetail.setPhotos,
    consoleError, bind, setState, call, emit, ret.
  cbn [trace st uuid_calls url_calls pending fst snd].
  fold albumResult. subst photosResult. clearbody albumResult.
  destruct albumResult as [albumData|e];
    cbn [trace st uuid_calls url_calls pending fst snd];
    repeat rewrite <- app_assoc; cbn [app];
    match goal with |- context [respond env _ ?tr (Sdk.photos_select_ordered a)] =>
      set (photosResult := respond env _ tr (Sdk.photos_select_ordered a))
    end;
    clearbody photosResult;
    destruct (Sdk.error photosResult) as [e'|];
    cbn [trace st uuid_calls url_calls pending fst snd AlbumDetail.loading
         AlbumDetail.album AlbumDetail.photos];
    repeat rewrite <- app_assoc; cbn [app];
    rewrite ?sdk_calls_app, ?toasts_app, ?navigations_app;
    cbn [sdk_calls toasts navigations filter flat_map is_call app];
    rewrite ?app_nil_r;
    (do 6 (split; [reflexivity|]));
    intros Hnone (e0 & E0); try discriminate E0;
    unfold AlbumDetail.render;
    cbn [AlbumDetail.loading AlbumDetail.album]; now rewrite Hnone.
Qed.

Lemma fetchAlbumDetails_outcome_witness :
  let w := SamplePages.detail in
  let w' := exec AlbumDetail.fetchAlbumDetails SamplePages.env_albums_down w in
  AlbumDetail.albumId (st w) = Some "a1" /\
  Js.truthy "a1" = true /\
  methods (sdk_calls (trace w')) = ["albums.select.single"; "photos.select"] /\
  AlbumDetail.photos (st w') = Some [Sample.photo] /\
  AlbumDetail.render (st w') = AlbumDetail.NotFound.
Proof.
  intros w w'.
  destruct (fetchAlbumDetails_outcome SamplePages.env_albums_down w "a1" eq_refl eq_refl)
    as (Hc & _ & _ & _ & _ & Hp & Hr).
  split; [reflexivity|]. split; [reflexivity|]. split; [|split].
  - fold w' in Hc. rewrite Hc. reflexivity.
  - exact Hp.
  - apply Hr; [reflexivity|]. eexists. reflexivity.
Defined.

(** Without an album id in the route the page of an album asks nothing
    and goes on showing its spinner. *)
Lemma fetchAlbumDetails_without_id env (w : World AlbumDetail.state) :
  match AlbumDetail.albumId (st w) with
  | Some a => Js.truthy a = false
  | None => True
  end ->
  exec AlbumDetail.fetchAlbumDetails env w = w.
Proof.
  intros H. unfold exec, AlbumDetail.fetchAlbumDetails, bind, getState.
  destruct (AlbumDetail.albumId (st w)) as [a|]; [rewrite H|]; reflexivity.
Qed.

End PublicPages.

(** ** The session and the protected routes *)

Module AuthFacts.
Import Auth.

Lemma run_snoc events e : run (events ++ [e]) = receive (carried e) (run events).
Proof. unfold run. now rewrite fold_left_app. Qed.

(** X8.  The protected routes show the spinner until the first session
    arrives; from then on the session that arrived last decides alone: the
    admin page with a session, the redirection to the login page without;
    and the user is always the user of that session. *)
Theorem protected_route_follows_latest_session :
  ProtectedRoute (run []) = Spinner /\
  (forall events e,
     ProtectedRoute (run (events ++ [e])) =
       match carried e with
       | Some _ => Outlet
       | None => Navigate "/admin/login"
       end /\
     loginRedirect (run (events ++ [e])) =
       match carried e with
       | Some _ => Some "/admin"
       | None => None
       end) /\
  (forall events,
     user (run events) =
       match session (run events) with
       | Some s => Some (session_user s)
       | None => None
       end /\
     (loading (run events) = true <-> events = [])).
Proof.
  split; [reflexivity|]. split.
  - intros events e. rewrite run_snoc. unfold ProtectedRoute, loginRedirect, receive.
    cbn [loading session]. now destruct (carried e).
  - intros events. induction events as [|e l _] using rev_ind.
    + split; [reflexivity|]. split; reflexivity.
    + rewrite run_snoc. unfold receive. cbn [user session loading].
      split; [reflexivity|]. split; [discriminate|].
      intros E. destruct l; discriminate.
Qed.

End AuthFacts.
(** ** Toasts and their timers *)

Module ToastFacts.
Import ToastProvider.

Lemma In_fired i j timers : j <> i -> In j timers -> In j (fired i timers).
Proof.
  intros Hne. induction timers as [|k timers IH]; cbn [fired In]; [tauto|].
  intros [->|H].
  - destruct (Z.eqb_spec j i); [contradiction|now left].
  - destruct (Z.eqb_spec k i); [exact H|right; auto].
Qed.

Lemma react_covered s a s' :
  (forall t, In t (toasts s) -> In (id t) (timers s)) ->
  react s a = Some s' ->
  forall t, In t (toasts s') -> In (id t) (timers s').
Proof.
  intros H. destruct a as [now message type|i]; cbn [react].
  - intros E. inversion E; subst s'; clear E. intros t Ht.
    unfold addToast in *. cbn [toasts timers] in *.
    apply in_app_iff in Ht. apply in_app_iff. destruct Ht as [Ht|[<-|[]]].
    + left. auto.
    + right. now left.
  - destruct (existsb (Z.eqb i) (timers s)); [|discriminate].
    intros E. inversion E; subst s'; clear E. intros t Ht.
    unfold expire in *. cbn [toasts timers] in *.
    apply filter_In in Ht. destruct Ht as [Ht Hne].
    apply In_fired; [|auto].
    apply negb_true_iff in Hne. now apply Z.eqb_neq in Hne.
Qed.

Lemma run_covered actions :
  forall s s',
    (forall t, In t (toasts s) -> In (id t) (timers s)) ->
    run s actions = Some s' ->
    forall t, In t (toasts s') -> In (id t) (timers s').
Proof.
  induction actions as [|a actions IH]; intros s s' H E; cbn [run] in E.
  - inversion E; subst. exact H.
  - destruct (react s a) as [s1|] eqn:R; [|discriminate].
    eapply IH; [|exact E]. eapply react_covered; eauto.
Qed.

(** X9.  Whatever the clock reads, a toast on screen has a timer still to
    fire, so that no toast is left once all timers have fired; and the timer
    of a toast takes with it every toast of the same clock reading. *)
Theorem toasts_leave_with_their_timers :
  forall (actions : list action) (s : state),
    run initial actions = Some s ->
    (forall t, In t (toasts s) -> In (id t) (timers s)) /\
    (timers s = [] -> toasts s = []) /\
    (forall i s', react s (timeout i) = Some s' ->
       forall t, In t (toasts s') -> id t <> i /\ In t (toasts s)).
Proof.
  intros actions s E.
  assert (C : forall t, In t (toasts s) -> In (id t) (timers s)).
  { eapply run_covered; [|exact E]. intros t []. }
  split; [exact C|]. split.
  - intros Hnil. destruct (toasts s) as [|t l] eqn:Et; [reflexivity|].
    specialize (C t (or_introl eq_refl)). rewrite Hnil in C. destruct C.
  - intros i s' R t Ht. cbn [react] in R.
    destruct (existsb (Z.eqb i) (timers s)); [|discriminate].
    inversion R; subst s'; clear R. unfold expire in Ht. cbn [toasts] in Ht.
    apply filter_In in Ht. destruct Ht as [Ht Hne]. split; [|exact Ht].
    apply negb_true_iff in Hne. now apply Z.eqb_neq in Hne.
Qed.

Lemma toasts_leave_with_their_timers_witness :
  let actions :=
    [add 1717200000000 "File nilai.pdf bukan gambar." (Some ToastType.error);
     add 1717200000000 "File poster.png terlalu besar (> 5MB)." (Some ToastType.error);
     timeout 1717200000000] in
  exists s,
    run initial actions = Some s /\
    toasts s = [] /\
    timers s = [1717200000000%Z] /\
    forall t, In t (toasts s) -> In (id t) (timers s).
Proof.
  intros actions.
  exists {| toasts := []; timers := [1717200000000%Z] |}.
  assert (E : run initial actions = Some {| toasts := []; timers := [1717200000000%Z] |})
    by reflexivity.
  split; [exact E|]. split; [reflexivity|]. split; [reflexivity|].
  exact (proj1 (toasts_leave_with_their_timers actions _ E)).
Defined.

Lemma fired_filter i timers :
  NoDup timers -> fired i timers = filter (fun j => negb (j =? i)%Z) timers.
Proof.
  induction timers as [|k timers IH]; intros Hnd; cbn [fired filter]; [reflexivity|].
  inversion Hnd as [|? ? Hk Hrest]; subst.
  destruct (Z.eqb_spec k i) as [->|Hne]; cbn [negb].
  - symmetry. apply forallb_filter_id. apply forallb_forall. intros j Hj.
    apply negb_true_iff. apply Z.eqb_neq. intros ->. contradiction.
  - now rewrite IH.
Qed.

Lemma map_id_filter i l :
  map id (filter (fun toast => negb (id toast =? i)%Z) l) =
  filter (fun j => negb (j =? i)%Z) (map id l).
Proof.
  induction l as [|t l IH]; cbn [filter map]; [reflexivity|].
  destruct (id t =? i)%Z; cbn [negb map]; now rewrite IH.
Qed.

Lemma NoDup_filter_app (p : Z -> bool) l r :
  NoDup (l ++ r) -> NoDup (filter p l ++ r).
Proof.
  induction l as [|x l IH]; cbn [filter app]; [auto|].
  intros H. inversion H as [|? ? Hx Hrest]; subst.
  destruct (p x); [|auto].
  cbn [app]. constructor; [|auto].
  intros Hin. apply Hx. apply in_app_iff in Hin. apply in_app_iff.
  destruct Hin as [Hin|Hin]; [left|right; exact Hin].
  apply filter_In in Hin. tauto.
Qed.

Lemma run_synchronised actions :
  forall s s',
    map id (toasts s) = timers s ->
    NoDup (timers s ++ readings actions) ->
    run s actions = Some s' ->
    map id (toasts s') = timers s' /\ NoDup (timers s').
Proof.
  induction actions as [|a actions IH]; intros s s' Hs Hnd E; cbn [run] in E.
  - inversion E; subst. split; [exact Hs|].
    cbn [readings flat_map] in Hnd. now rewrite app_nil_r in Hnd.
  - destruct (react s a) as [s1|] eqn:R; [|discriminate].
    destruct a as [now message type|i]; cbn [react] in R.
    + inversion R; subst s1; clear R.
      apply (IH _ _) in E; [exact E| |].
      * unfold addToast. cbn [toasts timers]. rewrite map_app. cbn [map id].
        now rewrite Hs.
      * unfold addToast. cbn [timers]. rewrite <- app_assoc. exact Hnd.
    + destruct (existsb (Z.eqb i) (timers s)); [|discriminate].
      inversion R; subst s1; clear R.
      assert (Hnd' : NoDup (timers s)) by (eapply NoDup_app_remove_r; exact Hnd).
      apply (IH _ _) in E; [exact E| |].
      * unfold expire. cbn [toasts timers].
        rewrite map_id_filter, Hs. symmetry. now apply fired_filter.
      * unfold expire. cbn [timers]. rewrite fired_filter by exact Hnd'.
        apply NoDup_filter_app. exact Hnd.
Qed.

(** X10.  When no two calls of [addToast] read the same clock, the toasts on
    screen are, in order, those whose timers have not fired yet. *)
Theorem toasts_match_pending_timers :
  forall (actions : list action) (s : state),
    NoDup (readings actions) ->
    run initial actions = Some s ->
    map id (toasts s) = timers s /\ NoDup (timers s).
Proof.
  intros actions s Hnd E.
  eapply run_synchronised; [| |exact E]; [reflexivity|exact Hnd].
Qed.

Lemma toasts_match_pending_timers_witness :
  let actions :=
    [add 1717200000000 "Login berhasil!" (Some ToastType.success);
     add 1717200004000 "Tidak ada foto dalam antrean." None;
     timeout 1717200000000] in
  NoDup (readings actions) /\
  exists s,
    run initial actions = Some s /\
    map message (toasts s) = ["Tidak ada foto dalam antrean."] /\
    map type (toasts s) = [ToastType.info] /\
    map id (toasts s) = timers s.
Proof.
  intros actions.
  assert (Hnd : NoDup (readings actions)).
  { cbn. constructor; [cbn; intros [H|[]]; discriminate|].
    constructor; [intros []|constructor]. }
  split; [exact Hnd|].
  eexists. split; [reflexivity|]. split; [reflexivity|]. split; [reflexivity|].
  exact (proj1 (toasts_match_pending_timers actions _ Hnd eq_refl)).
Defined.

End ToastFacts.
(** ** Frames *)

Module Frames.

Section Keeps.
Context {S : Type} (P : S -> Prop).

Lemma keeps_ret {A} (a : A) : keeps P (ret a).
Proof. intros env w H. exact H. Qed.

Lemma keeps_bind {A B} (m : M S A) (k : A -> M S B) :
  keeps P m -> (forall a, keeps P (k a)) -> keeps P (bind m k).
Proof.
  intros Hm Hk env w H. unfold bind.
  specialize (Hm env w H). destruct (m env w) as [a w1]. apply Hk. exact Hm.
Qed.

Lemma keeps_emit e : keeps P (emit e).
Proof. intros env w H. exact H. Qed.

Lemma keeps_defer t : keeps P (defer t).
Proof. intros env w H. exact H. Qed.

Lemma keeps_getState : keeps P getState.
Proof. intros env w H. exact H. Qed.

Lemma keeps_call {X} (c : Sdk.call X) : keeps P (call c).
Proof. intros env w H. exact H. Qed.

Lemma keeps_addToast m t : keeps P (addToast m t).
Proof. apply keeps_emit. Qed.

Lemma keeps_navigate to : keeps P (navigate to).
Proof. apply keeps_emit. Qed.

Lemma keeps_consoleError l : keeps P (consoleError l).
Proof. apply keeps_emit. Qed.

Lemma keeps_windowConfirm m : keeps P (windowConfirm m).
Proof. intros env w H. exact H. Qed.

Lemma keeps_dateNow : keeps P dateNow.
Proof. intros env w H. exact H. Qed.

Lemma keeps_cryptoRandomUUID : keeps P cryptoRandomUUID.
Proof. intros env w H. exact H. Qed.

Lemma keeps_urlCreateObjectURL f : keeps P (urlCreateObjectURL f).
Proof. intros env w H. exact H. Qed.

Lemma keeps_urlRevokeObjectURL u : keeps P (urlRevokeObjectURL u).
Proof. apply keeps_emit. Qed.

Lemma keeps_setTimeout t ms : keeps P (setTimeout t ms).
Proof. apply keeps_bind; [apply keeps_emit|intros; apply keeps_defer]. Qed.

Lemma keeps_setState (f : S -> S) : (forall s, P s -> P (f s)) -> keeps P (setState f).
Proof. intros Hf env w H. apply Hf. exact H. Qed.

Lemma keeps_when c (m : M S unit) : keeps P m -> keeps P (when c m).
Proof. intros Hm. destruct c; [exact Hm|apply keeps_ret]. Qed.

Lemma keeps_mapM {A B} (f : A -> M S B) l : (forall a, keeps P (f a)) -> keeps P (mapM f l).
Proof.
  intros Hf. induction l as [|a l IH]; cbn [mapM]; [apply keeps_ret|].
  apply keeps_bind; [apply Hf|intros b].
  apply keeps_bind; [exact IH|intros bs; apply keeps_ret].
Qed.

Lemma keeps_forEach {A} (f : A -> M S unit) l :
  (forall a, keeps P (f a)) -> keeps P (forEach f l).
Proof.
  intros Hf. induction l as [|a l IH]; cbn [forEach]; [apply keeps_ret|].
  apply keeps_bind; [apply Hf|intros _; exact IH].
Qed.

Lemma keeps_handleLogout : keeps P handleLogout.
Proof.
  apply keeps_bind; [apply keeps_call|intros [e|]].
  - apply keeps_addToast.
  - apply keeps_bind; [apply keeps_addToast|intros; apply keeps_navigate].
Qed.

End Keeps.

(** One step of a proof that a handler keeps a property. *)
Ltac keeps_step :=
  first
    [ apply keeps_ret
    | apply keeps_emit
    | apply keeps_defer
    | apply keeps_getState
    | apply keeps_call
    | apply keeps_addToast
    | apply keeps_navigate
    | apply keeps_consoleError
    | apply keeps_windowConfirm
    | apply keeps_dateNow
    | apply keeps_cryptoRandomUUID
    | apply keeps_urlCreateObjectURL
    | apply keeps_urlRevokeObjectURL
    | apply keeps_setTimeout
    | apply keeps_handleLogout
    | apply keeps_when
    | apply keeps_bind; [|intros ?]
    | match goal with
      | |- keeps _ (match ?x with _ => _ end) => destruct x
      | |- keeps _ (if ?x then _ else _) => destruct x
      | |- keeps _ (let _ := _ in _) => cbv zeta
      end ].

Ltac keeps_all := repeat keeps_step.

End Frames.

(** ** The dashboard *)

Module DashboardFacts.
Import Run DashboardLoop Frames.

Lemma keeps_setLoading (P : Dashboard.state -> Prop) b :
  (forall s, P s ->
     P {| Dashboard.albums := Dashboard.albums s;
          Dashboard.albumCount := Dashboard.albumCount s;
          Dashboard.photoCount := Dashboard.photoCount s; Dashboard.loading := b |}) ->
  keeps P (Dashboard.setLoading b).
Proof. intros H. apply keeps_setState. exact H. Qed.

Lemma keeps_fetchAlbumsAndStats (P : Dashboard.state -> Prop) :
  (forall s b, P s ->
     P {| Dashboard.albums := Dashboard.albums s;
          Dashboard.albumCount := Dashboard.albumCount s;
          Dashboard.photoCount := Dashboard.photoCount s; Dashboard.loading := b |}) ->
  keeps P Dashboard.fetchAlbumsAndStats.
Proof.
  intros H. unfold Dashboard.fetchAlbumsAndStats, Dashboard.fetchAlbumsAndStats_begin.
  keeps_all. apply keeps_setLoading. intros s. apply H.
Qed.

Lemma keeps_handleDelete (P : Dashboard.state -> Prop) albumId albumTitle :
  (forall s b, P s ->
     P {| Dashboard.albums := Dashboard.albums s;
          Dashboard.albumCount := Dashboard.albumCount s;
          Dashboard.photoCount := Dashboard.photoCount s; Dashboard.loading := b |}) ->
  keeps P (Dashboard.handleDelete albumId albumTitle).
Proof.
  intros H. unfold Dashboard.handleDelete, Dashboard.deleteFromStorage.
  keeps_all. apply keeps_fetchAlbumsAndStats. exact H.
Qed.

Lemma keeps_resume ar cr :
  keeps counted_albums (Dashboard.fetchAlbumsAndStats_resume ar cr).
Proof.
  unfold Dashboard.fetchAlbumsAndStats_resume.
  apply keeps_bind; [|intros _; apply keeps_bind; [|intros _]].
  - destruct (Sdk.error ar); [keeps_all|].
    destruct (Sdk.data ar) as [albumsData|]; [|keeps_all].
    intros env w _. reflexivity.
  - destruct (Sdk.count_error cr); [keeps_all|].
    apply keeps_setState. intros s H. exact H.
  - apply keeps_setState. intros s H. exact H.
Qed.

Lemma step_counted env w w' :
  step env w w' -> counted_albums (st w) -> counted_albums (st w').
Proof.
  intros Hstep H. destruct Hstep as [w|w albumId albumTitle|w|w before t after Hp].
  - exact (keeps_fetchAlbumsAndStats counted_albums (fun s b Hs => Hs) env w H).
  - exact (keeps_handleDelete counted_albums albumId albumTitle (fun s b Hs => Hs) env w H).
  - exact (keeps_handleLogout counted_albums env w H).
  - unfold exec. destruct t; cbn [Dashboard.run_task]; try exact H.
    exact (keeps_resume _ _ env (take_task before after w) H).
Qed.

(** X11.  On every dashboard reached from the mounted page, the total of
    albums shown is the number of albums listed. *)
Theorem dashboard_counts_its_albums :
  forall env (w : World Dashboard.state),
    reachable env w ->
    Dashboard.albumCount (st w) = Z.of_nat (length (Dashboard.albums (st w))).
Proof.
  intros env w H. induction H as [|w w' _ IH Hstep]; [reflexivity|].
  exact (step_counted env w w' Hstep IH).
Qed.

Lemma dashboard_counts_its_albums_witness :
  let w1 := exec Dashboard.fetchAlbumsAndStats Sample.env mount in
  let w2 :=
    exec (Dashboard.run_task
            (resume_fetchAlbumsAndStats
               {| Sdk.data := Some [Sample.album]; Sdk.error := None |}
               {| Sdk.count := Some 1%Z; Sdk.count_error := None |}))
      Sample.env (take_task [] [] w1) in
  reachable Sample.env w2 /\
  Dashboard.albums (st w2) = [Sample.album] /\
  Dashboard.albumCount (st w2) = 1%Z.
Proof.
  intros w1 w2.
  assert (R : reachable Sample.env w2).
  { eapply reachable_step; [eapply reachable_step; [apply reachable_mount|]|].
    - apply step_fetchAlbumsAndStats.
    - apply (step_task Sample.env w1 [] _ []). reflexivity. }
  split; [exact R|]. split; [reflexivity|].
  rewrite (dashboard_counts_its_albums Sample.env w2 R). reflexivity.
Defined.

(** The run of [handleDelete] once the photo list is fetched, with what it
    leaves of the page and for later. *)
Lemma handleDelete_fetched_state env (w : World Dashboard.state) albumId albumTitle :
  let t1 := trace w ++ [EvConfirm (delete_prompt albumTitle) true] in
  let photosResult := respond env _ t1 (Sdk.photos_select_image_url albumId) in
  let paths := Dashboard.filePaths (rows (Sdk.data photosResult)) in
  confirm env (trace w) (delete_prompt albumTitle) = true ->
  Sdk.error photosResult = None ->
  exists storageError dbError albumsResult photosCountResult,
    Dashboard.handleDelete albumId albumTitle env w =
    (tt, {| trace := t1 ++ EvCall (Sdk.photos_select_image_url albumId) photosResult ::
                           removal_events paths storageError ++
                           closing_events albumId albumTitle dbError
                             albumsResult photosCountResult;
            uuid_calls := uuid_calls w; url_calls := url_calls w;
            pending := pending w ++
                       match dbError with
                       | Some _ => []
                       | None => [resume_fetchAlbumsAndStats albumsResult photosCountResult]
                       end;
            st := match dbError with
                  | Some _ => st w
                  | None => refreshing (st w)
                  end |}).
Proof.
  intros t1 photosResult paths Hc He. unfold Dashboard.handleDelete.
  unfold bind at 1.
  match goal with |- context [windowConfirm ?m env w] =>
    rewrite (windowConfirm_answer env m w true Hc)
  end. cbv beta iota zeta.
  unfold bind at 1.
  match goal with |- context [call ?c env ?W] =>
    rewrite (call_answer env c W photosResult eq_refl)
  end. cbv beta iota zeta. rewrite He.
  unfold paths. clearbody photosResult. unfold bind at 1.
  cbn [trace st uuid_calls url_calls pending].
  match goal with |- context [Dashboard.deleteFromStorage _ env ?W] =>
    set (w1 := W)
  end.
  assert (Hremoval : exists storageError w2,
    Dashboard.deleteFromStorage (Sdk.data photosResult) env w1 = (tt, w2) /\
    w2 = {| trace := trace w1 ++
                     removal_events (Dashboard.filePaths (rows (Sdk.data photosResult)))
                       storageError;
            uuid_calls := uuid_calls w; url_calls := url_calls w;
            pending := pending w; st := st w |}).
  { unfold Dashboard.deleteFromStorage, when.
    destruct (Sdk.data photosResult) as [[|p ps]|]; cbn [rows length Nat.ltb Nat.leb].
    - exists None. eexists. split; [reflexivity|].
      unfold w1. cbn. now rewrite app_nil_r.
    - cbv zeta. destruct (Dashboard.filePaths (p :: ps)) as [|q qs] eqn:Eq;
        cbn [length Nat.ltb Nat.leb].
      + exists None. eexists. split; [reflexivity|].
        unfold w1. cbn. now rewrite app_nil_r.
      + unfold bind, call.
        destruct (respond env (option Error) (trace w1) (Sdk.storage_remove (q :: qs)))
          as [e0|] eqn:Er.
        * exists (Some e0). eexists. split; [reflexivity|].
          unfold w1. cbn. now rewrite <- app_assoc.
        * exists None. eexists. split; [reflexivity|]. reflexivity.
    - exists None. eexists. split; [reflexivity|].
      unfold w1. cbn. now rewrite app_nil_r. }
  destruct Hremoval as (storageError & w2 & E2 & Hw2).
  rewrite E2. subst w2.
  unfold bind, call. cbn [trace st uuid_calls url_calls pending].
  match goal with |- context [respond env _ ?t (Sdk.albums_delete albumId)] =>
    destruct (respond env _ t (Sdk.albums_delete albumId)) as [e1|] eqn:Ed
  end.
  - exists storageError, (Some e1),
      {| Sdk.data := None; Sdk.error := None |},
      {| Sdk.count := None; Sdk.count_error := None |}.
    unfold addToast, emit, closing_events, w1, t1.
    cbn [trace st uuid_calls url_calls pending fst snd].
    repeat rewrite <- app_assoc. cbn [app]. now rewrite app_nil_r.
  - unfold addToast, emit, Dashboard.fetchAlbumsAndStats,
      Dashboard.fetchAlbumsAndStats_begin, Dashboard.setLoading, setState, bind,
      call, ret, defer.
    cbn [trace st uuid_calls url_calls pending fst snd].
    eexists storageError, None, _, _.
    unfold closing_events, w1, t1, refreshing.
    cbn [trace st uuid_calls url_calls pending].
    repeat rewrite <- app_assoc. cbn [app]. reflexivity.
Qed.

Lemma no_deletion_in_removal paths storageError :
  existsb (fun e => deletes_album_row e && call_ok e)
    (sdk_calls (removal_events paths storageError)) = false.
Proof.
  rewrite DeleteAlbum.sdk_calls_removal_events. now destruct paths.
Qed.

(** X12.  Deleting an album leaves the list and the totals of the dashboard as
    they are, whatever the admin and the backend answer; the refresh that
    brings them up to date is started if and only if the album row was
    deleted without error. *)
Theorem handleDelete_leaves_the_list_to_the_refresh :
  forall env (w : World Dashboard.state) (albumId albumTitle : string),
    let w' := exec (Dashboard.handleDelete albumId albumTitle) env w in
    exists calls,
      sdk_calls (trace w') = sdk_calls (trace w) ++ calls /\
      Dashboard.albums (st w') = Dashboard.albums (st w) /\
      Dashboard.albumCount (st w') = Dashboard.albumCount (st w) /\
      Dashboard.photoCount (st w') = Dashboard.photoCount (st w) /\
      if existsb (fun e => deletes_album_row e && call_ok e) calls
      then
        Dashboard.loading (st w') = true /\
        exists albumsResult photosCountResult,
          pending w' =
            pending w ++ [resume_fetchAlbumsAndStats albumsResult photosCountResult]
      else st w' = st w /\ pending w' = pending w.
Proof.
  intros env w albumId albumTitle w'. subst w'. unfold exec.
  destruct (confirm env (trace w) (delete_prompt albumTitle)) eqn:Hc.
  - set (t1 := trace w ++ [EvConfirm (delete_prompt albumTitle) true]).
    destruct (Sdk.error (respond env _ t1 (Sdk.photos_select_image_url albumId)))
      as [e|] eqn:He.
    + rewrite (DeleteAlbum.handleDelete_fetch_failed env w albumId albumTitle e Hc He).
      cbn [snd trace st pending]. eexists [_].
      rewrite <- app_assoc, !sdk_calls_app. cbn. repeat split.
    + destruct (handleDelete_fetched_state env w albumId albumTitle Hc He)
        as (storageError & dbError & ar & cr & E).
      rewrite E. cbn [snd trace st pending]. fold t1.
      exists (EvCall (Sdk.photos_select_image_url albumId)
                (respond env _ t1 (Sdk.photos_select_image_url albumId)) ::
              sdk_calls (removal_events
                           (Dashboard.filePaths
                              (rows (Sdk.data (respond env _ t1
                                                 (Sdk.photos_select_image_url albumId)))))
                           storageError) ++
              sdk_calls (closing_events albumId albumTitle dbError ar cr)).
      split.
      { unfold t1. rewrite !sdk_calls_app. cbn [sdk_calls filter is_call app].
        change (filter is_call) with sdk_calls.
        rewrite !sdk_calls_app. now rewrite app_nil_r. }
      cbn [existsb deletes_album_row andb]. rewrite existsb_app, no_deletion_in_removal.
      rewrite DeleteAlbum.sdk_calls_closing_events.
      destruct dbError as [e1|]; cbn.
      * repeat split. now rewrite app_nil_r.
      * repeat split. eauto.
  - rewrite (DeleteAlbum.handleDelete_cancelled env w albumId albumTitle Hc).
    cbn [snd trace st pending]. exists [].
    rewrite sdk_calls_app. cbn. rewrite !app_nil_r. repeat split.
Qed.

Lemma fetchAlbumsAndStats_resume_outcome env (w : World Dashboard.state)
  (albumsResult : Sdk.Response (list Album.t)) (photosCountResult : Sdk.CountResponse) :
  let w' :=
    exec (Dashboard.fetchAlbumsAndStats_resume albumsResult photosCountResult) env w in
  Dashboard.loading (st w') = false /\
  Dashboard.albums (st w') =
    match Sdk.error albumsResult, Sdk.data albumsResult with
    | None, Some albumsData => albumsData
    | _, _ => Dashboard.albums (st w)
    end /\
  Dashboard.albumCount (st w') =
    match Sdk.error albumsResult, Sdk.data albumsResult with
    | None, Some albumsData => Z.of_nat (length albumsData)
    | _, _ => Dashboard.albumCount (st w)
    end /\
  Dashboard.photoCount (st w') =
    match Sdk.count_error photosCountResult, Sdk.count photosCountResult with
    | Some _, _ => Dashboard.photoCount (st w)
    | None, Some n => n
    | None, None => 0%Z
    end /\
  toasts (trace w') =
    toasts (trace w) ++
    match Sdk.error albumsResult with
    | Some e => [("Gagal memuat album: " +++ message e, ToastType.error)]
    | None => []
    end ++
    match Sdk.count_error photosCountResult with
    | Some e => [("Gagal menghitung total foto: " +++ message e, ToastType.error)]
    | None => []
    end /\
  sdk_calls (trace w') = sdk_calls (trace w) /\
  pending w' = pending w.
Proof.
  intros w'. subst w'.
  unfold exec, Dashboard.fetchAlbumsAndStats_resume, Dashboard.setAlbums,
    Dashboard.setAlbumCount, Dashboard.setPhotoCount, Dashboard.setLoading,
    addToast, consoleError, bind, setState, emit, ret.
  destruct (Sdk.error albumsResult) as [e|];
    [|destruct (Sdk.data albumsResult) as [albumsData|]];
    (destruct (Sdk.count_error photosCountResult) as [e'|];
     [|destruct (Sdk.count photosCountResult) as [n|]]);
    cbn [trace st uuid_calls url_calls pending fst snd Dashboard.loading Dashboard.albums
         Dashboard.albumCount Dashboard.photoCount];
    repeat rewrite <- app_assoc; cbn [app];
    rewrite ?sdk_calls_app, ?toasts_app; cbn [sdk_calls toasts filter flat_map is_call app];
    rewrite ?app_nil_r; repeat split.
Qed.

(** X13.  A refresh of the dashboard sends its two requests at once and leaves
    the rest for later; resumed, it stores what each answer brought, keeps what
    an answer with an error would have replaced, takes a missing count for
    zero, adds one error toast per failed request and ends loading in every
    case. *)
Theorem refresh_stores_each_answer :
  forall env (w : World Dashboard.state),
    let albumsResult := respond env _ (trace w) Sdk.rpc_get_albums_with_photo_count in
    let photosCountResult :=
      respond env _ (trace w ++ [EvCall Sdk.rpc_get_albums_with_photo_count albumsResult])
        Sdk.photos_select_count in
    let task := resume_fetchAlbumsAndStats albumsResult photosCountResult in
    let w1 := exec Dashboard.fetchAlbumsAndStats env w in
    let w2 := exec (Dashboard.run_task task) env (take_task (pending w) [] w1) in
    pending w1 = pending w ++ [task] /\
    Dashboard.loading (st w1) = true /\
    sdk_calls (trace w2) =
      sdk_calls (trace w) ++
      [EvCall Sdk.rpc_get_albums_with_photo_count albumsResult;
       EvCall Sdk.photos_select_count photosCountResult] /\
    pending w2 = pending w /\
    Dashboard.loading (st w2) = false /\
    Dashboard.albums (st w2) =
      match Sdk.error albumsResult, Sdk.data albumsResult with
      | None, Some albumsData => albumsData
      | _, _ => Dashboard.albums (st w)
      end /\
    Dashboard.albumCount (st w2) =
      match Sdk.error albumsResult, Sdk.data albumsResult with
      | None, Some albumsData => Z.of_nat (length albumsData)
      | _, _ => Dashboard.albumCount (st w)
      end /\
    Dashboard.photoCount (st w2) =
      match Sdk.count_error photosCountResult, Sdk.count photosCountResult with
      | Some _, _ => Dashboard.photoCount (st w)
      | None, Some n => n
      | None, None => 0%Z
      end /\
    toasts (trace w2) =
      toasts (trace w) ++
      match Sdk.error albumsResult with
      | Some e => [("Gagal memuat album: " +++ message e, ToastType.error)]
      | None => []
      end ++
      match Sdk.count_error photosCountResult with
      | Some e => [("Gagal menghitung total foto: " +++ message e, ToastType.error)]
      | None => []
      end.
Proof.
  intros env w albumsResult photosCountResult task w1 w2.
  assert (E1 : w1 =
    {| trace := trace w ++
                [EvCall Sdk.rpc_get_albums_with_photo_count albumsResult;
                 EvCall Sdk.photos_select_count photosCountResult];
       uuid_calls := uuid_calls w; url_calls := url_calls w;
       pending := pending w ++ [task]; st := refreshing (st w) |}).
  { unfold w1, exec, Dashboard.fetchAlbumsAndStats, Dashboard.fetchAlbumsAndStats_begin,
      Dashboard.setLoading, bind, setState, call, ret, defer.
    cbn [trace st uuid_calls url_calls pending fst snd].
    rewrite <- app_assoc. reflexivity. }
  clearbody w1. subst w1.
  destruct (fetchAlbumsAndStats_resume_outcome env
              (take_task (pending w) []
                 {| trace := trace w ++
                             [EvCall Sdk.rpc_get_albums_with_photo_count albumsResult;
                              EvCall Sdk.photos_select_count photosCountResult];
                    uuid_calls := uuid_calls w; url_calls := url_calls w;
                    pending := pending w ++ [task]; st := refreshing (st w) |})
              albumsResult photosCountResult)
    as (Hl & Ha & Hc & Hp & Ht & Hs & Hpend).
  cbn [take_task trace st pending refreshing Dashboard.albums Dashboard.albumCount
       Dashboard.photoCount Dashboard.loading uuid_calls url_calls]
    in Hl, Ha, Hc, Hp, Ht, Hs, Hpend.
  rewrite app_nil_r in Hpend.
  rewrite sdk_calls_app in Hs. rewrite toasts_app in Ht.
  cbn [sdk_calls toasts filter flat_map is_call app] in Hs, Ht.
  rewrite app_nil_r in Ht.
  split; [reflexivity|]. split; [reflexivity|].
  split; [exact Hs|]. split; [exact Hpend|]. split; [exact Hl|].
  split; [exact Ha|]. split; [exact Hc|]. split; [exact Hp|exact Ht].
Qed.

End DashboardFacts.
(** ** The album editor: loading, editing and saving *)

Module EditorFacts.
Import Run Frames EditorForm PublicPages.

Lemma caption_updates_app a b :
  caption_updates (a ++ b) = caption_updates a ++ caption_updates b.
Proof. unfold caption_updates. apply flat_map_app. Qed.

Lemma lookup_set_caption k k' v c :
  lookup k (Editor.set_caption k' v c) =
  if String.eqb k' k then Some v else lookup k c.
Proof.
  induction c as [|[k0 v0] c IH]; cbn [Editor.set_caption lookup].
  - reflexivity.
  - destruct (String.eqb_spec k0 k') as [->|Hne]; cbn [lookup].
    + destruct (String.eqb k' k); reflexivity.
    + rewrite IH. destruct (String.eqb_spec k0 k) as [->|Hne'].
      * destruct (String.eqb_spec k' k); [congruence|reflexivity].
      * reflexivity.
Qed.

Lemma set_caption_absent k v c :
  ~ In k (map fst c) -> Editor.set_caption k v c = c ++ [(k, v)].
Proof.
  induction c as [|[k0 v0] c IH]; cbn [Editor.set_caption map fst In app]; intros H.
  - reflexivity.
  - destruct (String.eqb_spec k0 k) as [->|Hne]; [tauto|].
    rewrite IH by tauto. reflexivity.
Qed.

Lemma set_caption_present k v c :
  NoDup (map fst c) -> In k (map fst c) ->
  Editor.set_caption k v c =
  map (Captions.edited k v) c.
Proof.
  induction c as [|[k0 v0] c IH]; cbn [Editor.set_caption map fst In]; intros Hnd Hin.
  - destruct Hin.
  - inversion Hnd as [|? ? Hk0 Hrest]; subst.
    destruct (String.eqb_spec k0 k) as [->|Hne].
    + unfold Captions.edited at 1. cbn [fst]. rewrite String.eqb_refl.
      f_equal. symmetry. rewrite <- (map_id c) at 2. apply map_ext_in.
      intros [k1 v1] H1. unfold Captions.edited. cbn [fst].
      destruct (String.eqb_spec k1 k) as [->|]; [|reflexivity].
      exfalso. apply Hk0. apply in_map_iff. now exists (k, v1).
    + unfold Captions.edited at 1. cbn [fst].
      destruct (String.eqb_spec k0 k); [congruence|].
      f_equal. apply IH; [exact Hrest|]. destruct Hin; [congruence|assumption].
Qed.


Lemma fold_initialCaptions l :
  forall acc,
    NoDup (map fst acc ++ map Photo.id l) ->
    fold_left
      (fun acc photo =>
         Editor.set_caption (Photo.id photo)
           (match Photo.caption photo with
            | Some c => if Js.truthy c then c else ""
            | None => ""
            end) acc) l acc =
    acc ++ map Captions.entry l.
Proof.
  induction l as [|p l IH]; intros acc Hnd; cbn [fold_left map].
  - now rewrite app_nil_r.
  - rewrite set_caption_absent.
    + rewrite IH.
      * rewrite <- app_assoc. reflexivity.
      * rewrite map_app. cbn [map fst]. rewrite <- app_assoc. exact Hnd.
    + cbn [map] in Hnd. apply NoDup_remove_2 in Hnd.
      intros Hin. apply Hnd. apply in_app_iff. now left.
Qed.

Lemma initialCaptions_entries l :
  NoDup (map Photo.id l) -> Editor.initialCaptions l = map Captions.entry l.
Proof.
  intros Hnd. unfold Editor.initialCaptions. now rewrite fold_initialCaptions.
Qed.

Lemma map_fst_entries l : map fst (map Captions.entry l) = map Photo.id l.
Proof. rewrite map_map. reflexivity. Qed.

Lemma lookup_entries l photo :
  NoDup (map Photo.id l) -> In photo l ->
  lookup (Photo.id photo) (map Captions.entry l) = Some (captionOrEmpty photo).
Proof.
  induction l as [|p l IH]; intros Hnd Hin; [destruct Hin|].
  cbn [map lookup Captions.entry]. inversion Hnd as [|? ? Hp Hrest]; subst.
  destruct Hin as [->|Hin]; [now rewrite String.eqb_refl|].
  destruct (String.eqb_spec (Photo.id p) (Photo.id photo)) as [E|_]; [|now apply IH].
  exfalso. apply Hp. rewrite E. now apply in_map.
Qed.

Lemma lookup_absent k c : ~ In k (map fst c) -> lookup k c = None.
Proof.
  induction c as [|[k0 v0] c IH]; cbn [lookup map fst In]; intros H; [reflexivity|].
  destruct (String.eqb_spec k0 k); [tauto|]. apply IH. tauto.
Qed.

Lemma captionOrEmpty_idem photo :
  (if Js.truthy (captionOrEmpty photo) then captionOrEmpty photo else "") =
  captionOrEmpty photo.
Proof.
  unfold captionOrEmpty. destruct (Photo.caption photo) as [c|]; [|reflexivity].
  destruct (Js.truthy c) eqn:E; [now rewrite E|reflexivity].
Qed.

(** The run of a load whose two requests are answered without error. *)
Lemma fetchAlbumData_resume_loaded env (w : World Editor.state) a albumData photosData :
  let request := Sdk.photos_select_ordered a in
  let photosResult := respond env _ (trace w) request in
  Sdk.error photosResult = None ->
  Sdk.data photosResult = Some photosData ->
  Editor.fetchAlbumData_resume a (Sdk.row albumData) env w =
  (tt, {| trace := trace w ++ [EvCall request photosResult];
          uuid_calls := uuid_calls w; url_calls := url_calls w;
          pending := pending w; st := loaded albumData photosData (st w) |}).
Proof.
  intros request photosResult He Hd.
  unfold Editor.fetchAlbumData_resume, Editor.setAlbum, Editor.setPhotos,
    Editor.setCaptions, Editor.setLoading, bind, setState, call, ret.
  cbn [trace st uuid_calls url_calls pending fst snd].
  fold request. fold photosResult. rewrite He, Hd. reflexivity.
Qed.

(** X14.  When the album and its photos are fetched without error, the page
    holds the album row and the photos, the caption input of every photo
    shows its caption, or nothing for none, no photo outside the answer keeps
    a caption, and the page ends loading. *)
Theorem fetchAlbumData_fills_the_form :
  forall env (w : World Editor.state) (a : string) (albumData : Album.t)
         (photosData : list Photo.t),
    let photosResult := respond env _ (trace w) (Sdk.photos_select_ordered a) in
    Sdk.error photosResult = None ->
    Sdk.data photosResult = Some photosData ->
    NoDup (map Photo.id photosData) ->
    let w' := exec (Editor.fetchAlbumData_resume a (Sdk.row albumData)) env w in
    Editor.album (st w') = PartialAlbum.of_album albumData /\
    Editor.photos (st w') = photosData /\
    Editor.loading (st w') = false /\
    (forall photo, In photo photosData ->
       captionValue (Editor.captions (st w')) (Photo.id photo) = captionOrEmpty photo) /\
    (forall photoId, ~ In photoId (map Photo.id photosData) ->
       captionValue (Editor.captions (st w')) photoId = "") /\
    toasts (trace w') = toasts (trace w) /\
    navigations (trace w') = navigations (trace w) /\
    Editor.filesToUpload (st w') = Editor.filesToUpload (st w).
Proof.
  intros env w a albumData photosData photosResult He Hd Hnd w'. subst w'.
  unfold exec. rewrite (fetchAlbumData_resume_loaded env w a albumData photosData He Hd).
  cbn [snd st trace loaded Editor.album Editor.photos Editor.loading Editor.captions
       Editor.filesToUpload].
  rewrite (initialCaptions_entries photosData Hnd).
  split; [reflexivity|]. split; [reflexivity|]. split; [reflexivity|]. split; [|split].
  - intros photo Hin. unfold captionValue.
    rewrite (lookup_entries photosData photo Hnd Hin). apply captionOrEmpty_idem.
  - intros photoId Hout. unfold captionValue. rewrite lookup_absent; [reflexivity|].
    now rewrite map_fst_entries.
  - rewrite toasts_app, navigations_app. cbn. rewrite !app_nil_r. repeat split.
Qed.

Lemma fetchAlbumData_fills_the_form_witness :
  let w := Sample.editor in
  let w' := exec (Editor.fetchAlbumData_resume "a1" (Sdk.row Sample.album)) Sample.env w in
  Sdk.data (respond Sample.env _ (trace w) (Sdk.photos_select_ordered "a1")) =
    Some [Sample.photo] /\
  NoDup (map Photo.id [Sample.photo]) /\
  Editor.photos (st w') = [Sample.photo] /\
  Editor.loading (st w') = false /\
  captionValue (Editor.captions (st w')) "p1" = "".
Proof.
  intros w w'.
  assert (Hnd : NoDup (map Photo.id [Sample.photo]))
    by (constructor; [intros []|constructor]).
  destruct (fetchAlbumData_fills_the_form Sample.env w "a1" Sample.album [Sample.photo]
              eq_refl eq_refl Hnd) as (_ & Hp & Hl & Hc & _).
  split; [reflexivity|]. split; [exact Hnd|]. split; [exact Hp|]. split; [exact Hl|].
  exact (Hc Sample.photo (or_introl eq_refl)).
Defined.

(** X15.  A load whose album request fails reports it, leaves for the
    dashboard and asks for no photos, the page staying as it was; a load whose
    photo request fails empties the list of photos, keeps the captions, and
    ends loading. *)
Theorem fetchAlbumData_failures :
  forall env (w : World Editor.state) (a : string) (e : Error) (albumData : Album.t),
    (let w' := exec (Editor.fetchAlbumData_resume a (Sdk.failed e)) env w in
     sdk_calls (trace w') = sdk_calls (trace w) /\
     toasts (trace w') =
       toasts (trace w) ++ [("Gagal memuat data album: " +++ message e, ToastType.error)] /\
     navigations (trace w') = navigations (trace w) ++ ["/admin"] /\
     st w' = st w) /\
    (let photosResult := respond env _ (trace w) (Sdk.photos_select_ordered a) in
     let w' := exec (Editor.fetchAlbumData_resume a (Sdk.row albumData)) env w in
     Sdk.error photosResult = Some e ->
     sdk_calls (trace w') =
       sdk_calls (trace w) ++ [EvCall (Sdk.photos_select_ordered a) photosResult] /\
     toasts (trace w') =
       toasts (trace w) ++ [("Gagal memuat foto: " +++ message e, ToastType.error)] /\
     navigations (trace w') = navigations (trace w) /\
     Editor.album (st w') = PartialAlbum.of_album albumData /\
     Editor.photos (st w') = [] /\
     Editor.captions (st w') = Editor.captions (st w) /\
     Editor.loading (st w') = false).
Proof.
  intros env w a e albumData. split.
  - cbv zeta.
    unfold exec, Editor.fetchAlbumData_resume, addToast, consoleError, navigate, bind, emit.
    cbn [trace st uuid_calls url_calls pending fst snd].
    repeat rewrite <- app_assoc. cbn [app].
    rewrite sdk_calls_app, toasts_app, navigations_app. cbn. rewrite !app_nil_r.
    repeat split.
  - intros photosResult w' He. subst w'.
    unfold exec, Editor.fetchAlbumData_resume, Editor.setAlbum, Editor.setPhotos,
      Editor.setLoading, addToast, consoleError, bind, setState, call, emit, ret.
    cbn [trace st uuid_calls url_calls pending fst snd].
    fold photosResult. rewrite He.
    cbn [trace st uuid_calls url_calls pending fst snd Editor.album Editor.photos
         Editor.captions Editor.loading].
    repeat rewrite <- app_assoc. cbn [app].
    rewrite sdk_calls_app, toasts_app, navigations_app. cbn. rewrite !app_nil_r.
    repeat split.
Qed.

Lemma fetchAlbumData_failures_witness :
  let e := {| message := "storage unavailable" |} in
  let respond' : forall X, list Event -> Sdk.call X -> X :=
    fun X tr c =>
      match c in Sdk.call X return X with
      | Sdk.photos_select_ordered _ => {| Sdk.data := None; Sdk.error := Some e |}
      | c' => Sample.respond_with None _ tr c'
      end in
  let env :=
    {| respond := respond'; randomUUID := randomUUID Sample.env;
       createObjectURL := createObjectURL Sample.env; confirm := confirm Sample.env;
       now := now Sample.env |} in
  let w' :=
    exec (Editor.fetchAlbumData_resume "a1" (Sdk.row Sample.album)) env
      Sample.editor_loaded in
  Sdk.error (respond env _ (trace Sample.editor_loaded) (Sdk.photos_select_ordered "a1")) =
    Some e /\
  Editor.photos (st w') = [] /\
  Editor.captions (st w') = [("p1", ""); ("p2", "Upacara")] /\
  Editor.loading (st w') = false.
Proof.
  intros e respond' env w'.
  destruct (fetchAlbumData_failures env Sample.editor_loaded "a1" e Sample.album)
    as [_ H].
  destruct (H eq_refl) as (_ & _ & _ & _ & Hp & Hc & Hl).
  split; [reflexivity|]. split; [exact Hp|]. split; [exact Hc|exact Hl].
Defined.

Lemma captionUpdates_pairs env captions :
  forall w : World Editor.state,
  exists captionResults evs,
    mapM (fun kv => call (Sdk.photos_update_caption (fst kv) (snd kv))) captions env w =
    (captionResults,
     {| trace := trace w ++ evs; uuid_calls := uuid_calls w; url_calls := url_calls w;
        pending := pending w; st := st w |}) /\
    sdk_calls evs = evs /\
    caption_updates evs = captions /\
    navigations evs = [] /\
    toasts evs = [].
Proof.
  induction captions as [|[k v] captions IH]; intros w.
  - exists [], []. unfold mapM, ret. rewrite app_nil_r.
    split; [now destruct w|]. auto.
  - cbn [mapM]. unfold bind at 1. unfold call at 1.
    cbv beta iota zeta. unfold bind at 1.
    match goal with |- context [mapM _ captions env ?w1] =>
      destruct (IH w1) as (results & evs & E & Hc & Hu & Hn & Ht)
    end.
    rewrite E. cbn [trace st uuid_calls url_calls pending] in *.
    eexists (_ :: results), (_ :: evs). unfold ret.
    rewrite <- app_assoc. cbn [app].
    split; [reflexivity|].
    unfold sdk_calls, caption_updates, navigations, toasts in *. cbn.
    rewrite Hc, Hu, Hn, Ht. auto.
Qed.

(** The run of a save of an album that exists. *)
Lemma handleAlbumSave_update_full env (w : World Editor.state) t :
  Editor.isNew (st w) = false ->
  PartialAlbum.title (Editor.album (st w)) = Some t ->
  Js.truthy t = true ->
  let request :=
    Sdk.albums_update (Editor.albumId (st w)) (Some t)
      (PartialAlbum.description (Editor.album (st w))) in
  exists albumResult evs tail,
    Editor.handleAlbumSave env w =
    (tt, {| trace := trace w ++ EvCall request albumResult :: evs ++ tail;
            uuid_calls := uuid_calls w; url_calls := url_calls w;
            pending := pending w; st := saved (st w) |}) /\
    sdk_calls evs = evs /\
    caption_updates evs = Editor.captions (st w) /\
    navigations evs = [] /\
    sdk_calls tail = [] /\
    navigations tail = [].
Proof.
  intros Hnew Ht Htruthy. cbv zeta.
  unfold Editor.handleAlbumSave, bind, getState.
  cbv beta iota zeta. rewrite Ht, Htruthy, Hnew.
  unfold Editor.setSaving, setState. cbv beta iota zeta.
  match goal with |- context [call (Sdk.albums_update ?a ?b ?c) env ?W] =>
    rewrite (call_answer env (Sdk.albums_update a b c) W _ eq_refl)
  end.
  cbv beta iota zeta.
  cbn [trace st uuid_calls url_calls pending Editor.captions Editor.albumId
       Editor.album].
  match goal with |- context [mapM _ _ env ?w1] =>
    destruct (captionUpdates_pairs env (Editor.captions (st w)) w1)
      as (results & evs & E & Hc & Hu & Hn & Hts)
  end.
  rewrite E. cbn [trace st uuid_calls url_calls pending] in *.
  match goal with |- context [respond env _ ?tr ?c] =>
    set (albumResult := respond env _ tr c) in *
  end.
  exists albumResult, evs.
  destruct albumResult as [e|]; cbn [is_some orb];
    [|destruct (existsb is_some results)];
    unfold bind, when, addToast, consoleError, emit, ret, Editor.setSaving, setState;
    cbn [trace st uuid_calls url_calls pending fst snd is_some];
    repeat rewrite <- app_assoc; cbn [app];
    eexists; (split; [unfold saved; cbn; reflexivity|]); auto 10.
Qed.

Lemma isNew_false s a :
  Editor.albumId s = Some a -> Js.truthy a = true -> Editor.isNew s = false.
Proof. intros Ha Ht. unfold Editor.isNew. now rewrite Ha, Ht. Qed.

(** X16.  Saving the album right after it was loaded writes the caption of
    every photo once, an empty caption for a photo without one; when the
    caption of a photo was typed in before, that photo is written with what was
    typed and the others as they were loaded. *)
Theorem handleAlbumSave_writes_every_caption :
  forall env (w : World Editor.state) (a : string) (albumData : Album.t)
         (photosData : list Photo.t) (photoId value : string),
    let photosResult := respond env _ (trace w) (Sdk.photos_select_ordered a) in
    Editor.albumId (st w) = Some a ->
    Js.truthy a = true ->
    Sdk.error photosResult = None ->
    Sdk.data photosResult = Some photosData ->
    NoDup (map Photo.id photosData) ->
    Js.truthy (Album.title albumData) = true ->
    let w1 := exec (Editor.fetchAlbumData_resume a (Sdk.row albumData)) env w in
    let w2 := exec (changeCaption photoId value) env w1 in
    (exists albumResult updates,
       sdk_calls (trace (exec Editor.handleAlbumSave env w1)) =
         sdk_calls (trace w1) ++
         EvCall (Sdk.albums_update (Some a) (Some (Album.title albumData))
                   (Some (Album.description albumData))) albumResult :: updates /\
       Permutation (caption_updates updates) (map Captions.entry photosData)) /\
    (In photoId (map Photo.id photosData) ->
     exists albumResult updates,
       sdk_calls (trace (exec Editor.handleAlbumSave env w2)) =
         sdk_calls (trace w2) ++
         EvCall (Sdk.albums_update (Some a) (Some (Album.title albumData))
                   (Some (Album.description albumData))) albumResult :: updates /\
       Permutation (caption_updates updates)
         (map (Captions.edited photoId value) (map Captions.entry photosData))).
Proof.
  intros env w a albumData photosData photoId value photosResult Ha Ht He Hd Hnd Htitle
    w1 w2.
  assert (E1 : w1 =
    {| trace := trace w ++ [EvCall (Sdk.photos_select_ordered a) photosResult];
       uuid_calls := uuid_calls w; url_calls := url_calls w;
       pending := pending w; st := loaded albumData photosData (st w) |}).
  { unfold w1, exec.
    now rewrite (fetchAlbumData_resume_loaded env w a albumData photosData He Hd). }
  assert (Hsave : forall w0 : World Editor.state,
    Editor.albumId (st w0) = Some a ->
    Editor.album (st w0) = PartialAlbum.of_album albumData ->
    exists albumResult updates,
      sdk_calls (trace (exec Editor.handleAlbumSave env w0)) =
        sdk_calls (trace w0) ++
        EvCall (Sdk.albums_update (Some a) (Some (Album.title albumData))
                  (Some (Album.description albumData))) albumResult :: updates /\
      caption_updates updates = Editor.captions (st w0)).
  { intros w0 Ha0 Hal.
    assert (Hnew : Editor.isNew (st w0) = false) by (eapply isNew_false; eauto).
    assert (Ht0 : PartialAlbum.title (Editor.album (st w0)) = Some (Album.title albumData))
      by now rewrite Hal.
    destruct (handleAlbumSave_update_full env w0 _ Hnew Ht0 Htitle)
      as (albumResult & evs & tail & E & Hc & Hu & _ & Hct & _).
    exists albumResult, evs. unfold exec. rewrite E. cbn [snd trace].
    rewrite Ha0, Hal. cbn [PartialAlbum.description PartialAlbum.of_album].
    split; [|exact Hu].
    rewrite sdk_calls_app. cbn [sdk_calls filter is_call].
    change (filter is_call) with sdk_calls. now rewrite sdk_calls_app, Hc, Hct, app_nil_r. }
  split.
  - destruct (Hsave w1) as (albumResult & updates & Hcalls & Hu).
    + now rewrite E1.
    + now rewrite E1.
    + exists albumResult, updates. split; [exact Hcalls|].
      rewrite Hu, E1. cbn [st loaded Editor.captions].
      now rewrite (initialCaptions_entries photosData Hnd).
  - intros Hin.
    assert (E2 : st w2 =
      {| Editor.albumId := Editor.albumId (st w1); Editor.album := Editor.album (st w1);
         Editor.photos := Editor.photos (st w1);
         Editor.captions := Editor.set_caption photoId value (Editor.captions (st w1));
         Editor.loading := Editor.loading (st w1); Editor.saving := Editor.saving (st w1);
         Editor.isDragging := Editor.isDragging (st w1);
         Editor.filesToUpload := Editor.filesToUpload (st w1);
         Editor.fileInput := Editor.fileInput (st w1) |}) by reflexivity.
    destruct (Hsave w2) as (albumResult & updates & Hcalls & Hu).
    + rewrite E2, E1. exact Ha.
    + rewrite E2, E1. reflexivity.
    + exists albumResult, updates. split; [exact Hcalls|].
      rewrite Hu, E2, E1. cbn [st loaded Editor.captions].
      rewrite (initialCaptions_entries photosData Hnd).
      rewrite set_caption_present; [reflexivity| |].
      * now rewrite map_fst_entries.
      * now rewrite map_fst_entries.
Qed.

Lemma handleAlbumSave_writes_every_caption_witness :
  let w := Sample.editor in
  let w1 := exec (Editor.fetchAlbumData_resume "a1" (Sdk.row Sample.album)) Sample.env w in
  let w2 := exec (changeCaption "p1" "Wisuda 2024") Sample.env w1 in
  Editor.albumId (st w) = Some "a1" /\
  Sdk.data (respond Sample.env _ (trace w) (Sdk.photos_select_ordered "a1")) =
    Some [Sample.photo] /\
  NoDup (map Photo.id [Sample.photo]) /\
  Js.truthy (Album.title Sample.album) = true /\
  In "p1" (map Photo.id [Sample.photo]) /\
  exists albumResult updates,
    sdk_calls (trace (exec Editor.handleAlbumSave Sample.env w2)) =
      sdk_calls (trace w2) ++
      EvCall (Sdk.albums_update (Some "a1") (Some "Wisuda") (Some None)) albumResult ::
      updates /\
    Permutation (caption_updates updates) [("p1", "Wisuda 2024")].
Proof.
  intros w w1 w2.
  assert (Hnd : NoDup (map Photo.id [Sample.photo]))
    by (constructor; [intros []|constructor]).
  assert (Hin : In "p1" (map Photo.id [Sample.photo])) by (now left).
  destruct (handleAlbumSave_writes_every_caption Sample.env w "a1" Sample.album
              [Sample.photo] "p1" "Wisuda 2024" eq_refl eq_refl eq_refl eq_refl Hnd eq_refl)
    as [_ H].
  split; [reflexivity|]. split; [reflexivity|]. split; [exact Hnd|].
  split; [reflexivity|]. split; [exact Hin|].
  exact (H Hin).
Defined.

(** X17.  A save without a title sends nothing and leaves the page as it is;
    any other save releases the save button and changes nothing else of the
    page; only the creation of an album navigates, to the editor of the row
    the backend returned. *)
Theorem handleAlbumSave_ends :
  forall env (w : World Editor.state),
    let title := PartialAlbum.title (Editor.album (st w)) in
    let description := PartialAlbum.description (Editor.album (st w)) in
    let w' := exec Editor.handleAlbumSave env w in
    pending w' = pending w /\
    (match title with Some t => Js.truthy t | None => false end = false ->
     st w' = st w /\
     sdk_calls (trace w') = sdk_calls (trace w) /\
     navigations (trace w') = navigations (trace w)) /\
    (match title with Some t => Js.truthy t | None => false end = true ->
     st w' = saved (st w) /\
     (Editor.isNew (st w) = false -> navigations (trace w') = navigations (trace w)) /\
     (Editor.isNew (st w) = true ->
      navigations (trace w') =
        navigations (trace w) ++
        match respond env _ (trace w) (Sdk.albums_insert title description) with
        | Sdk.row data => ["/admin/album/" +++ Album.id data]
        | Sdk.failed _ => []
        end)).
Proof.
  intros env w title description w'.
  destruct (match title with Some t => Js.truthy t | None => false end) eqn:Htitle.
  - assert (Ht : exists t, title = Some t /\ Js.truthy t = true).
    { destruct title as [t|]; [eauto|discriminate]. }
    destruct Ht as (t & Ht & Htruthy).
    destruct (Editor.isNew (st w)) eqn:Hnew.
    + assert (E : Editor.handleAlbumSave env w =
        (tt, {| trace := trace w ++
                  EvCall (Sdk.albums_insert title description)
                    (respond env _ (trace w) (Sdk.albums_insert title description)) ::
                  match respond env _ (trace w) (Sdk.albums_insert title description) with
                  | Sdk.row data =>
                      [EvToast "Album berhasil dibuat." ToastType.success;
                       EvNavigate ("/admin/album/" +++ Album.id data)]
                  | Sdk.failed e =>
                      [EvToast ("Gagal membuat album: " +++ message e) ToastType.error]
                  end;
                uuid_calls := uuid_calls w; url_calls := url_calls w;
                pending := pending w; st := saved (st w) |})).
      { unfold Editor.handleAlbumSave, bind, getState. cbv beta iota zeta.
        fold title. rewrite Htitle, Hnew.
        unfold Editor.setSaving, setState, call.
        cbn [trace st uuid_calls url_calls pending fst snd]. fold title description.
        destruct (respond env _ (trace w) (Sdk.albums_insert title description));
          unfold addToast, navigate, emit;
          cbn [trace st uuid_calls url_calls pending fst snd];
          repeat rewrite <- app_assoc; reflexivity. }
      subst w'. unfold exec. rewrite E. cbn [snd trace st pending].
      split; [reflexivity|]. split; [discriminate|]. intros _.
      split; [reflexivity|]. split; [discriminate|]. intros _.
      rewrite navigations_app.
      destruct (respond env _ (trace w) (Sdk.albums_insert title description)); reflexivity.
    + destruct (handleAlbumSave_update_full env w t Hnew Ht Htruthy)
        as (albumResult & evs & tail & E & _ & _ & Hn & _ & Hnt).
      subst w'. unfold exec. rewrite E. cbn [snd trace st pending].
      split; [reflexivity|]. split; [discriminate|]. intros _.
      split; [reflexivity|]. split; [|discriminate]. intros _.
      rewrite navigations_app. cbn [navigations flat_map app].
      change (flat_map _ (evs ++ tail)) with (navigations (evs ++ tail)).
      now rewrite navigations_app, Hn, Hnt, !app_nil_r.
  - subst w'. unfold exec, Editor.handleAlbumSave, bind, getState.
    cbv beta iota zeta. fold title. rewrite Htitle. unfold addToast, emit.
    cbn [snd trace st pending].
    split; [reflexivity|]. split; [|discriminate]. intros _.
    rewrite sdk_calls_app, navigations_app. cbn. rewrite !app_nil_r. repeat split.
Qed.

Lemma handleAlbumSave_ends_witness :
  let w := Sample.editor_new in
  let w' := exec Editor.handleAlbumSave Sample.env w in
  Js.truthy "Wisuda" = true /\
  Editor.isNew (st w) = true /\
  Editor.saving (st w') = false /\
  Editor.album (st w') = Editor.album (st w) /\
  navigations (trace w') = ["/admin/album/a1"].
Proof.
  intros w w'.
  destruct (handleAlbumSave_ends Sample.env w) as (_ & _ & H).
  destruct (H eq_refl) as (Hs & _ & Hn).
  split; [reflexivity|]. split; [reflexivity|].
  fold w' in Hs. rewrite Hs.
  split; [reflexivity|]. split; [reflexivity|].
  exact (Hn eq_refl).
Defined.

End EditorFacts.
(** ** Deleting a photo *)

Module DeletePhoto.
Import Run Stored TextFacts PathLemmas.

Lemma handleDeletePhoto_declined env (w : World Editor.state) photo :
  let prompt := "Anda yakin ingin menghapus foto ini?" in
  confirm env (trace w) prompt = false ->
  Editor.handleDeletePhoto photo env w =
  (tt, {| trace := trace w ++ [EvConfirm prompt false];
          uuid_calls := uuid_calls w; url_calls := url_calls w;
          pending := pending w; st := st w |}).
Proof.
  intros prompt Hc. unfold Editor.handleDeletePhoto, bind.
  match goal with |- context [windowConfirm ?m env w] =>
    rewrite (windowConfirm_answer env m w false Hc)
  end. reflexivity.
Qed.

Lemma handleDeletePhoto_invalid env (w : World Editor.state) photo :
  let prompt := "Anda yakin ingin menghapus foto ini?" in
  confirm env (trace w) prompt = true ->
  Js.truthy (Paths.filePath (Photo.image_url photo)) = false ->
  Editor.handleDeletePhoto photo env w =
  (tt, {| trace := trace w ++ [EvConfirm prompt true;
                               EvToast "URL foto tidak valid." ToastType.error];
          uuid_calls := uuid_calls w; url_calls := url_calls w;
          pending := pending w; st := st w |}).
Proof.
  intros prompt Hc Hp. unfold Editor.handleDeletePhoto, bind.
  match goal with |- context [windowConfirm ?m env w] =>
    rewrite (windowConfirm_answer env m w true Hc)
  end. cbv beta iota zeta.
  fold (Paths.filePath (Photo.image_url photo)). rewrite Hp. cbn [negb].
  unfold addToast, emit. cbn [trace st uuid_calls url_calls pending].
  now rewrite <- app_assoc.
Qed.

(** X18.  The row of a photo is deleted only after its file was removed from
    the storage without error, and a failure stops the handler where it
    occurs: it sends nothing further and leaves the page as it is.  The file
    removed is the one of the photo, and nothing else is deleted. *)
Theorem handleDeletePhoto_stops_at_first_failure :
  forall env (w : World Editor.state) (photo : Photo.t),
    let filePath := Paths.filePath (Photo.image_url photo) in
    let removal := Sdk.storage_remove [filePath] in
    let deletion := Sdk.photos_delete (Photo.id photo) in
    let w' := exec (Editor.handleDeletePhoto photo) env w in
    exists calls,
      sdk_calls (trace w') = sdk_calls (trace w) ++ calls /\
      ((calls = [] /\ st w' = st w /\ pending w' = pending w) \/
       (exists e, calls = [EvCall removal (Some e)] /\
                  st w' = st w /\ pending w' = pending w) \/
       (exists e, calls = [EvCall removal None; EvCall deletion (Some e)] /\
                  st w' = st w /\ pending w' = pending w) \/
       (exists rest, calls = EvCall removal None :: EvCall deletion None :: rest /\
                     existsb is_photo_removal rest = false)) /\
      (calls <> [] -> filePath <> "" /\ Text.endsWith (Photo.image_url photo) filePath).
Proof.
  intros env w photo filePath removal deletion w'. subst w'. unfold exec.
  set (prompt := "Anda yakin ingin menghapus foto ini?").
  assert (Hpath : Js.truthy filePath = true ->
                  filePath <> "" /\ Text.endsWith (Photo.image_url photo) filePath).
  { intros Hp. split; [intros E; rewrite E in Hp; discriminate|].
    apply filePath_endsWith. }
  destruct (confirm env (trace w) prompt) eqn:Hc.
  - destruct (Js.truthy filePath) eqn:Hp.
    + set (t1 := trace w ++ [EvConfirm prompt true]).
      destruct (respond env _ t1 removal) as [e|] eqn:Hr.
      * rewrite (handleDeletePhoto_storage_failed env w photo e Hc Hp Hr).
        cbn [snd trace st pending]. eexists [_]. fold removal.
        rewrite !sdk_calls_app. cbn. rewrite app_nil_r.
        split; [reflexivity|]. split; [|auto].
        right. left. exists e. auto.
      * set (t2 := t1 ++ [EvCall removal None]).
        destruct (respond env _ t2 deletion) as [e|] eqn:Hd.
        -- rewrite (handleDeletePhoto_row_failed env w photo e Hc Hp Hr Hd).
           cbn [snd trace st pending]. eexists [_; _]. fold removal deletion.
           rewrite !sdk_calls_app. cbn. rewrite app_nil_r, <- app_assoc. cbn [app].
           split; [reflexivity|]. split; [|auto].
           right. right. left. exists e. auto.
        -- destruct (handleDeletePhoto_deleted env w photo Hc Hp Hr Hd)
             as (evs & tasks & st' & coverCalls & E & Hcalls & _ & _ & Hcov & Hnocov).
           rewrite E. cbn [snd trace st pending]. fold removal deletion.
           exists (EvCall removal None :: EvCall deletion None ::
                   sdk_calls coverCalls ++ sdk_calls evs).
           split.
           { rewrite !sdk_calls_app. cbn. rewrite app_nil_r.
             repeat (rewrite <- app_assoc; cbn [app]). reflexivity. }
           split; [|auto].
           right. right. right. eexists. split; [reflexivity|].
           rewrite existsb_app. apply orb_false_iff. split.
           ++ destruct (PartialAlbum.cover_is (Editor.album (st w)) (Photo.image_url photo)).
              ** destruct (Hcov eq_refl) as (r & ->). reflexivity.
              ** now rewrite (Hnocov eq_refl).
           ++ destruct Hcalls as [->|(a & r & ->)]; reflexivity.
    + rewrite (handleDeletePhoto_invalid env w photo Hc Hp).
      cbn [snd trace st pending]. exists [].
      rewrite sdk_calls_app. cbn. rewrite !app_nil_r.
      split; [reflexivity|]. split; [left; auto|congruence].
  - rewrite (handleDeletePhoto_declined env w photo Hc).
    cbn [snd trace st pending]. exists [].
    rewrite sdk_calls_app. cbn. rewrite !app_nil_r.
    split; [reflexivity|]. split; [left; auto|congruence].
Qed.




End DeletePhoto.
(** ** The names of the stored files *)

Module UploadNames.
Import Run Upload TextFacts.

Lemma uploaded_names_app a b :
  uploaded_names (a ++ b) = uploaded_names a ++ uploaded_names b.
Proof. unfold uploaded_names. apply flat_map_app. Qed.

Lemma uploaded_names_sdk_calls tr : uploaded_names (sdk_calls tr) = uploaded_names tr.
Proof.
  unfold sdk_calls. induction tr as [|e tr IH]; [reflexivity|].
  destruct e; cbn [filter is_call]; try exact IH.
  unfold uploaded_names in *. cbn [flat_map]. now rewrite IH.
Qed.

Lemma uploaded_names_revocations q : uploaded_names (revocations q) = [].
Proof. induction q; [reflexivity|exact IHq]. Qed.

Lemma uploaded_names_refresh a calls : is_refresh a calls -> uploaded_names calls = [].
Proof. intros [->|(r & ->)]; reflexivity. Qed.

(** One turn of the loop hands one file to the storage, under the name made
    of the identifier it draws. *)
Lemma uploadOne_named env a uf sc ec (w : World Editor.state) :
  exists counts evs q,
    Editor.uploadOne a uf sc ec env w =
    (counts,
     {| trace := trace w ++ evs;
        uuid_calls := S (uuid_calls w); url_calls := url_calls w;
        pending := pending w;
        st := Editor.put_filesToUpload q (st w) |}) /\
    uploaded_names evs = [stored_name env (uuid_calls w) uf].
Proof.
  unfold Editor.uploadOne, bind, cryptoRandomUUID, call. simpl.
  match goal with |- context [respond env _ ?t (Sdk.storage_upload ?n ?f)] =>
    destruct (respond env _ t (Sdk.storage_upload n f)) as [e|] eqn:E1
  end.
  - rewrite setFilesToUpload_run. simpl.
    eexists. eexists. eexists.
    split; [unfold ret; simpl; rewrite <- !app_assoc; reflexivity|].
    simpl. rewrite uploaded_names_revocations. reflexivity.
  - match goal with |- context [respond env _ ?t (Sdk.photos_insert ?r)] =>
      destruct (respond env _ t (Sdk.photos_insert r)) as [e|] eqn:E2
    end.
    + rewrite setFilesToUpload_run. simpl.
      eexists. eexists. eexists.
      split; [unfold ret; simpl; rewrite <- !app_assoc; reflexivity|].
      simpl. rewrite uploaded_names_revocations. reflexivity.
    + rewrite setFilesToUpload_run. simpl.
      eexists. eexists. eexists.
      split; [unfold ret; simpl; rewrite <- !app_assoc; reflexivity|].
      simpl. rewrite uploaded_names_revocations. reflexivity.
Qed.

Lemma uploadLoop_named env a l :
  forall sc ec (w : World Editor.state),
    Editor.albumId (st w) = Some a -> Js.truthy a = true ->
    exists evs,
      trace (exec (Editor.uploadLoop a l sc ec) env w) = trace w ++ evs /\
      uploaded_names evs = stored_names env (uuid_calls w) l.
Proof.
  induction l as [|uf l IH]; intros sc ec w Ha Ht.
  - cbn [Editor.uploadLoop stored_names].
    destruct (uploadDone_run env a sc ec w Ha Ht)
      as (evs & tasks & st' & E & Href & _).
    exists evs. unfold exec. rewrite E. split; [reflexivity|].
    rewrite <- uploaded_names_sdk_calls. eapply uploaded_names_refresh; eauto.
  - cbn [Editor.uploadLoop stored_names]. unfold exec, bind.
    destruct (uploadOne_named env a uf sc ec w) as (counts & evs1 & q & E1 & Hn1).
    rewrite E1.
    match goal with |- context [Editor.uploadLoop a l ?s ?e env ?w1] =>
      destruct (IH s e w1 Ha Ht) as (evs & E & Hn)
    end.
    unfold exec in E. rewrite E. cbn [trace uuid_calls] in *.
    exists (evs1 ++ evs). rewrite <- app_assoc. split; [reflexivity|].
    now rewrite uploaded_names_app, Hn1, Hn.
Qed.

Lemma append_same_length (a b x y : string) :
  String.length a = String.length b -> a +++ x = b +++ y -> a = b.
Proof.
  revert b. induction a as [|c a IH]; intros [|d b] Hlen E; cbn in *;
    try discriminate; [reflexivity|].
  inversion E; subst. f_equal. apply IH; [lia|assumption].
Qed.

Lemma In_stored_names env u l n :
  In n (stored_names env u l) ->
  exists k uf, u <= k < u + length l /\ In uf l /\ n = stored_name env k uf.
Proof.
  revert u. induction l as [|uf l IH]; intros u H; cbn [stored_names] in H; [destruct H|].
  destruct H as [<-|H].
  - exists u, uf. cbn [length]. split; [lia|]. split; [now left|reflexivity].
  - destruct (IH (S u) H) as (k & uf' & Hk & Hin & ->).
    exists k, uf'. cbn [length]. split; [lia|]. split; [now right|reflexivity].
Qed.

Lemma NoDup_stored_names env l :
  forall u,
    (forall i j, u <= i < u + length l -> u <= j < u + length l ->
       String.length (randomUUID env i) = String.length (randomUUID env j) /\
       (randomUUID env i = randomUUID env j -> i = j)) ->
    NoDup (stored_names env u l).
Proof.
  induction l as [|uf l IH]; intros u H; cbn [stored_names]; constructor.
  - intros Hin. destruct (In_stored_names env (S u) l _ Hin) as (k & uf' & Hk & _ & E).
    cbn [length] in H.
    destruct (H u k ltac:(lia) ltac:(lia)) as [Hlen Hinj].
    unfold stored_name in E. apply append_same_length in E; [|exact Hlen].
    apply Hinj in E. lia.
  - apply IH. intros i j Hi Hj. cbn [length] in H. apply H; lia.
Qed.

(** X20.  A run of the upload hands each queued file to the storage under a
    name of its own, made of a fresh identifier, a hyphen and the name of the
    file with every white-space character of [\s] replaced by ['_'], even
    when two files of the queue have the same name.  The identifiers drawn
    during the run are taken to be distinct and of one length. *)
Theorem handleUploadAll_stores_under_distinct_names :
  forall env (w : World Editor.state) (a : string),
    let filesToProcess := filter Editor.is_queued (Editor.filesToUpload (st w)) in
    let u := uuid_calls w in
    Editor.albumId (st w) = Some a ->
    Js.truthy a = true ->
    (forall i j,
       u <= i < u + length filesToProcess -> u <= j < u + length filesToProcess ->
       String.length (randomUUID env i) = String.length (randomUUID env j) /\
       (randomUUID env i = randomUUID env j -> i = j)) ->
    let w' := exec Editor.handleUploadAll env w in
    exists names,
      uploaded_names (trace w') = uploaded_names (trace w) ++ names /\
      names = stored_names env u filesToProcess /\
      length names = length filesToProcess /\
      NoDup names /\
      Forall (well_named env) names.
Proof.
  intros env w a filesToProcess u Ha Ht Huuid w'.
  exists (stored_names env u filesToProcess).
  assert (Hlen : forall v l, length (stored_names env v l) = length l).
  { intros v l. revert v. induction l; intros v; cbn; auto. }
  split; [|split; [reflexivity|split; [apply Hlen|split]]].
  - subst w'. unfold exec, Editor.handleUploadAll, bind.
    rewrite (handleUploadAll_begin_run env a w Ha Ht). fold filesToProcess.
    destruct filesToProcess as [|p ps] eqn:Eq.
    + unfold ret. cbn [snd trace stored_names].
      rewrite uploaded_names_app. reflexivity.
    + match goal with |- context [Editor.uploadLoop a _ 0 0 env ?w0] =>
        destruct (uploadLoop_named env a (p :: ps) 0 0 w0 Ha Ht) as (evs & E & Hn)
      end.
      unfold exec in E. rewrite E. cbn [trace uuid_calls] in *.
      rewrite !uploaded_names_app, uploaded_names_revocations, Hn, app_nil_r. reflexivity.
  - now apply NoDup_stored_names.
  - apply Forall_forall. intros n Hin.
    destruct (In_stored_names env u filesToProcess n Hin) as (k & uf & _ & _ & ->).
    exists k. eexists. split; [reflexivity|]. apply no_space_replace_spaces.
Qed.

Lemma handleUploadAll_stores_under_distinct_names_witness :
  let w := exec (Editor.handleFileSelect (Some [Sample.image; Sample.image_wide])) Sample.env
             Sample.editor in
  let env := SamplePages.env_uuid36 in
  let w' := exec Editor.handleUploadAll env w in
  Editor.albumId (st w) = Some "a1" /\
  uuid_calls w = 2 /\
  uploaded_names (trace w') =
    ["3f2b8c1e-7a4d-4e9b-8c21-5d6f7a8b9c02-kelas_1.jpg";
     "3f2b8c1e-7a4d-4e9b-8c21-5d6f7a8b9c03-kelas_1.jpg"] /\
  exists names,
    uploaded_names (trace w') = uploaded_names (trace w) ++ names /\ NoDup names.
Proof.
  intros w env w'.
  assert (Huuid : forall i j,
    uuid_calls w <= i <
      uuid_calls w + length (filter Editor.is_queued (Editor.filesToUpload (st w))) ->
    uuid_calls w <= j <
      uuid_calls w + length (filter Editor.is_queued (Editor.filesToUpload (st w))) ->
    String.length (randomUUID env i) = String.length (randomUUID env j) /\
    (randomUUID env i = randomUUID env j -> i = j)).
  { change (uuid_calls w) with 2.
    change (length (filter Editor.is_queued (Editor.filesToUpload (st w)))) with 2.
    intros i j Hi Hj.
    assert (Ei : i = 2 \/ i = 3) by lia. assert (Ej : j = 2 \/ j = 3) by lia.
    destruct Ei as [->| ->], Ej as [->| ->]; (split; [reflexivity|]);
      intros E; try reflexivity; vm_compute in E; discriminate. }
  destruct (handleUploadAll_stores_under_distinct_names env w "a1" eq_refl eq_refl Huuid)
    as (names & Hn & _ & _ & Hnd & _).
  split; [reflexivity|]. split; [reflexivity|]. split; [vm_compute; reflexivity|].
  exists names. split; [exact Hn|exact Hnd].
Defined.

End UploadNames.
(** ** The upload of the earlier revision: what the admin sees *)

Module EarlierUploadOutcome.
Import Run EarlierUpload UploadNames.

Lemma no_insert_repeat m calls :
  m <> "photos.insert" ->
  forall n,
    methods calls = repeat m n ->
    existsb (fun e => inserts_photo_rows e && call_ok e) calls = false.
Proof.
  intros Hne. induction calls as [|e calls IH]; intros n Hm; [reflexivity|].
  cbn [existsb]. apply orb_false_iff.
  destruct e as [X c r| | | | | | | | |];
    try (split; [reflexivity|exact (IH n Hm)]).
  change (methods (EvCall c r :: calls)) with (method c :: methods calls) in Hm.
  destruct n as [|n]; [discriminate|]. cbn [repeat] in Hm. inversion Hm as [[Hc Hrest]].
  split; [|rewrite Hc in Hrest; exact (IH n Hrest)].
  clear Hm Hrest. destruct c; cbn [inserts_photo_rows andb]; try reflexivity.
  cbn [method] in Hc. congruence.
Qed.

Lemma no_upload_repeat m calls :
  m <> "storage.upload" ->
  forall n, methods calls = repeat m n -> uploaded_names calls = [].
Proof.
  intros Hne. induction calls as [|e calls IH]; intros n Hm; [reflexivity|].
  destruct e as [X c r| | | | | | | | |]; try exact (IH n Hm).
  change (methods (EvCall c r :: calls)) with (method c :: methods calls) in Hm.
  destruct n as [|n]; [discriminate|]. cbn [repeat] in Hm. inversion Hm as [[Hc Hrest]].
  rewrite Hc in Hrest.
  change (EvCall c r :: calls) with ([EvCall c r] ++ calls).
  rewrite uploaded_names_app, (IH n Hrest), app_nil_r. clear Hm Hrest.
  destruct c; try reflexivity. cbn [method] in Hc. congruence.
Qed.

Lemma earlier_fetchAlbumData_run env a (w : World EditorV1.state) :
  EditorV1.albumId (st w) = Some a -> Js.truthy a = true ->
  exists r,
    EditorV1.fetchAlbumData env w =
    (tt, {| trace := trace w ++ [EvCall (Sdk.albums_select_single a) r];
            uuid_calls := uuid_calls w; url_calls := url_calls w;
            pending := pending w ++ [resume_fetchAlbumData a r];
            st := {| EditorV1.albumId := Some a;
                     EditorV1.loading := true;
                     EditorV1.uploading := EditorV1.uploading (st w);
                     EditorV1.fileInput := EditorV1.fileInput (st w) |} |}).
Proof.
  intros Ha Ht. unfold EditorV1.fetchAlbumData, bind, getState.
  rewrite Ha, Ht. unfold EditorV1.setLoading, setState, call, defer.
  cbn [trace st uuid_calls url_calls pending]. eexists. rewrite Ha. reflexivity.
Qed.

Lemma handleFileUpload_outcome env (w : World EditorV1.state) files a :
  EditorV1.albumId (st w) = Some a ->
  Js.truthy a = true ->
  files <> [] ->
  exists started evs1,
    mapM EditorV1.startUpload files env
      {| trace := trace w; uuid_calls := uuid_calls w; url_calls := url_calls w;
         pending := pending w; st := uploading_v1 (st w) |} =
    (started,
     {| trace := trace w ++ evs1; uuid_calls := uuid_calls w; url_calls := url_calls w;
        pending := pending w; st := uploading_v1 (st w) |}) /\
    exists rest toast tasks loading,
      EditorV1.handleFileUpload (Some files) env w =
      (tt, {| trace := trace w ++ evs1 ++ rest;
              uuid_calls := uuid_calls w; url_calls := url_calls w;
              pending := pending w ++ tasks;
              st := {| EditorV1.albumId := Some a; EditorV1.loading := loading;
                       EditorV1.uploading := false;
                       EditorV1.fileInput :=
                         match EditorV1.fileInput (st w) with
                         | Some _ => Some ""
                         | None => None
                         end |} |}) /\
      uploaded_names rest = [] /\
      toasts (evs1 ++ rest) = [toast] /\
      if existsb (fun e => inserts_photo_rows e && call_ok e) (sdk_calls (evs1 ++ rest))
      then toast = (Js.of_nat (length files) +++ " foto berhasil diunggah.",
                    ToastType.success)
      else exists m, toast = ("Gagal mengunggah foto: " +++ m, ToastType.error).
Proof.
  intros Ha Ht Hne.
  destruct (startUploads_run env files
              {| trace := trace w; uuid_calls := uuid_calls w; url_calls := url_calls w;
                 pending := pending w; st := uploading_v1 (st w) |})
    as (started & evs1 & E1 & Hm1 & Ht1 & Hf1 & Hlen1).
  cbn [trace st uuid_calls url_calls pending] in E1.
  exists started, evs1. split; [exact E1|].
  unfold EditorV1.handleFileUpload. unfold bind at 1. unfold getState at 1.
  cbv beta iota zeta. rewrite Ha, Ht.
  destruct files as [|f files]; [congruence|].
  cbn [length Nat.eqb negb andb].
  unfold bind at 1. unfold EditorV1.setUploading at 1, setState at 1.
  cbv beta iota zeta. unfold bind at 1.
  fold (uploading_v1 (st w)). rewrite E1. unfold bind at 1.
  match goal with |- context [mapM (EditorV1.finishUpload a) started env ?w2] =>
    destruct (finishUploads_run env a started w2)
      as (settled & evs2 & E2 & Hm2 & Ht2 & Hfail & Hok)
  end.
  rewrite E2. cbn [trace st uuid_calls url_calls pending] in *.
  assert (U2 : uploaded_names evs2 = []).
  { rewrite <- uploaded_names_sdk_calls.
    apply (no_upload_repeat "storage.getPublicUrl" _ ltac:(discriminate) _ Hm2). }
  assert (N1 : existsb (fun e => inserts_photo_rows e && call_ok e) (sdk_calls evs1) = false)
    by (apply (no_insert_repeat "storage.upload" _ ltac:(discriminate) _ Hm1)).
  assert (N2 : existsb (fun e => inserts_photo_rows e && call_ok e) (sdk_calls evs2) = false)
    by (apply (no_insert_repeat "storage.getPublicUrl" _ ltac:(discriminate) _ Hm2)).
  unfold uploading_v1.
  destruct (existsb (fun s => is_some (snd s)) started) eqn:Hany.
  - destruct (Hfail eq_refl) as (e & Hall). rewrite Hall.
    unfold bind, addToast, emit, EditorV1.setUploading, EditorV1.clearFileInput, setState.
    cbn [trace st uuid_calls url_calls pending fst snd EditorV1.uploading
         EditorV1.fileInput EditorV1.albumId EditorV1.loading].
    eexists (evs2 ++ [_]), _, [], _.
    rewrite Ha, app_nil_r, <- !app_assoc.
    split; [reflexivity|].
    split; [rewrite uploaded_names_app, U2; reflexivity|].
    rewrite !sdk_calls_app, !toasts_app, Ht1, Ht2. cbn [sdk_calls toasts filter flat_map
      is_call app]. rewrite ?app_nil_r.
    split; [reflexivity|].
    rewrite !existsb_app, N1, N2. cbn [orb]. eexists; reflexivity.
  - destruct (Hok eq_refl) as (rows & Hall & Hlen). rewrite Hall.
    unfold bind at 1. unfold bind at 1. unfold call at 1. cbv beta iota zeta.
    cbn [trace st uuid_calls url_calls pending].
    match goal with |- context [respond env ?X ?tr ?c] =>
      destruct (respond env X tr c) as [e|] eqn:Hr
    end.
    + unfold bind, addToast, emit, EditorV1.setUploading, EditorV1.clearFileInput,
        setState.
      cbn [trace st uuid_calls url_calls pending fst snd EditorV1.uploading
           EditorV1.fileInput EditorV1.albumId EditorV1.loading].
      eexists (evs2 ++ [_; _]), _, [], _.
      rewrite Ha, app_nil_r. repeat (rewrite <- app_assoc; cbn [app]).
      split; [reflexivity|].
      split; [rewrite uploaded_names_app, U2; reflexivity|].
      rewrite !sdk_calls_app, !toasts_app, Ht1, Ht2. cbn [sdk_calls toasts filter flat_map
        is_call app]. rewrite ?app_nil_r.
      split; [reflexivity|].
      rewrite !existsb_app, N1, N2. cbn. eexists; reflexivity.
    + unfold bind at 1. unfold addToast at 1, emit at 1.
      cbn [trace st uuid_calls url_calls pending].
      match goal with |- context [EditorV1.fetchAlbumData env ?w3] =>
        destruct (earlier_fetchAlbumData_run env a w3 Ha Ht) as (r & E3)
      end.
      rewrite E3.
      unfold bind, EditorV1.setUploading, EditorV1.clearFileInput, setState.
      cbn [trace st uuid_calls url_calls pending fst snd EditorV1.uploading
           EditorV1.fileInput EditorV1.albumId EditorV1.loading].
      eexists (evs2 ++ [_; _; _]), _, [_], _.
      repeat (rewrite <- app_assoc; cbn [app]).
      split; [reflexivity|].
      split; [rewrite uploaded_names_app, U2; reflexivity|].
      rewrite !sdk_calls_app, !toasts_app, Ht1, Ht2. cbn [sdk_calls toasts filter flat_map
        is_call app]. rewrite ?app_nil_r.
      split; [reflexivity|].
      rewrite !existsb_app, N1, N2. cbn. reflexivity.
Qed.

(** X21.  The upload of the earlier revision adds exactly one toast, the
    success toast with the number of files if and only if the insert of the
    rows was answered without error, and in every case it ends with the
    button released and the file input emptied. *)
Theorem handleFileUpload_reports_once :
  forall env (w : World EditorV1.state) (files : list File.t) (a : string),
    EditorV1.albumId (st w) = Some a ->
    Js.truthy a = true ->
    files <> [] ->
    let w' := exec (EditorV1.handleFileUpload (Some files)) env w in
    exists calls toast,
      sdk_calls (trace w') = sdk_calls (trace w) ++ calls /\
      toasts (trace w') = toasts (trace w) ++ [toast] /\
      (if existsb (fun e => inserts_photo_rows e && call_ok e) calls
       then toast = (Js.of_nat (length files) +++ " foto berhasil diunggah.",
                     ToastType.success)
       else exists m, toast = ("Gagal mengunggah foto: " +++ m, ToastType.error)) /\
      EditorV1.uploading (st w') = false /\
      EditorV1.fileInput (st w') =
        match EditorV1.fileInput (st w) with Some _ => Some "" | None => None end /\
      EditorV1.albumId (st w') = Some a.
Proof.
  intros env w files a Ha Ht Hne w'. subst w'.
  destruct (handleFileUpload_outcome env w files a Ha Ht Hne)
    as (started & evs1 & _ & rest & toast & tasks & loading & E & _ & Hts & Hcase).
  unfold exec. rewrite E. cbn [snd trace st EditorV1.uploading EditorV1.fileInput
    EditorV1.albumId].
  exists (sdk_calls (evs1 ++ rest)), toast.
  rewrite sdk_calls_app, toasts_app, Hts.
  split; [reflexivity|]. split; [reflexivity|]. split; [exact Hcase|].
  split; [reflexivity|]. split; reflexivity.
Qed.

Lemma handleFileUpload_reports_once_witness :
  let files := [Sample.image; Sample.image2] in
  let w := Sample.editor_v1 in
  let w' := exec (EditorV1.handleFileUpload (Some files)) Sample.env_storage_down w in
  EditorV1.albumId (st w) = Some "a1" /\
  Js.truthy "a1" = true /\
  files <> [] /\
  toasts (trace w') = [("Gagal mengunggah foto: storage unavailable", ToastType.error)] /\
  methods (sdk_calls (trace w')) = ["storage.upload"; "storage.upload"] /\
  EditorV1.uploading (st w') = false /\
  EditorV1.fileInput (st w') = Some "".
Proof.
  intros files w w'.
  assert (Hne : files <> []) by discriminate.
  destruct (handleFileUpload_reports_once Sample.env_storage_down w files "a1"
              eq_refl eq_refl Hne) as (calls & toast & _ & _ & _ & Hu & Hf & _).
  split; [reflexivity|]. split; [reflexivity|]. split; [exact Hne|].
  split; [vm_compute; reflexivity|]. split; [vm_compute; reflexivity|].
  split; [exact Hu|exact Hf].
Defined.

Lemma startUploads_named env files ms :
  (forall tr, now env tr = ms) ->
  forall w : World EditorV1.state,
  exists started evs,
    mapM EditorV1.startUpload files env w =
    (started,
     {| trace := trace w ++ evs; uuid_calls := uuid_calls w; url_calls := url_calls w;
        pending := pending w; st := st w |}) /\
    uploaded_names evs = map (stored_name_v1 ms) files.
Proof.
  intros Hclock. induction files as [|f files IH]; intros w.
  - exists [], []. unfold mapM, ret. rewrite app_nil_r.
    split; [now destruct w|]. reflexivity.
  - cbn [mapM]. unfold bind at 1. unfold EditorV1.startUpload at 1.
    unfold bind at 1 2, dateNow, call, ret. cbv beta iota zeta.
    cbn [trace st uuid_calls url_calls pending]. rewrite Hclock.
    unfold bind at 1.
    match goal with |- context [mapM _ files env ?w1] =>
      destruct (IH w1) as (started & evs & E & Hn)
    end.
    rewrite E. cbn [trace st uuid_calls url_calls pending] in *.
    eexists (_ :: started), (_ :: _ :: evs).
    repeat rewrite <- app_assoc. cbn [app].
    split; [reflexivity|].
    unfold uploaded_names in *. cbn [flat_map app map]. now rewrite Hn.
Qed.

(** X22.  The earlier revision names a stored file after the clock and the
    name of the file with every white-space character of [\s] replaced by
    ['_']; while the clock stands still, two files whose names are the same
    after that replacement are handed to the storage under one name. *)
Theorem handleFileUpload_names_follow_the_clock :
  forall env (w : World EditorV1.state) (files : list File.t) (a : string) (ms : Z),
    EditorV1.albumId (st w) = Some a ->
    Js.truthy a = true ->
    files <> [] ->
    (forall tr, now env tr = ms) ->
    let w' := exec (EditorV1.handleFileUpload (Some files)) env w in
    let names := map (stored_name_v1 ms) files in
    uploaded_names (trace w') = uploaded_names (trace w) ++ names /\
    (forall before f1 between f2 after,
       files = before ++ f1 :: between ++ f2 :: after ->
       Js.replace_spaces (File.name f1) = Js.replace_spaces (File.name f2) ->
       ~ NoDup names).
Proof.
  intros env w files a ms Ha Ht Hne Hclock w' names. split.
  - destruct (handleFileUpload_outcome env w files a Ha Ht Hne)
      as (started & evs1 & E1 & rest & toast & tasks & loading & E & Hrest & _).
    destruct (startUploads_named env files ms Hclock
                {| trace := trace w; uuid_calls := uuid_calls w; url_calls := url_calls w;
                   pending := pending w; st := uploading_v1 (st w) |})
      as (started' & evs1' & E1' & Hn).
    rewrite E1 in E1'. inversion E1' as [[Hs Ht']].
    apply app_inv_head in Ht'. subst evs1'.
    subst w'. unfold exec. rewrite E. cbn [snd trace].
    rewrite !uploaded_names_app, Hrest, Hn, app_nil_r. reflexivity.
  - intros before f1 between f2 after Hfiles Hsame Hnd.
    unfold names in Hnd. rewrite Hfiles in Hnd.
    rewrite map_app in Hnd. cbn [map] in Hnd. rewrite map_app in Hnd. cbn [map] in Hnd.
    apply NoDup_remove_2 in Hnd. apply Hnd.
    apply in_or_app. right. apply in_or_app. right. left.
    unfold stored_name_v1. now rewrite Hsame.
Qed.

Lemma handleFileUpload_names_follow_the_clock_witness :
  let env :=
    {| respond := respond Sample.env; randomUUID := randomUUID Sample.env;
       createObjectURL := createObjectURL Sample.env; confirm := confirm Sample.env;
       now := fun _ => 1717200000000%Z |} in
  let other := Sample.image_wide in
  let files := [Sample.image; other] in
  let w' := exec (EditorV1.handleFileUpload (Some files)) env Sample.editor_v1 in
  EditorV1.albumId (st Sample.editor_v1) = Some "a1" /\
  files <> [] /\
  Js.replace_spaces (File.name Sample.image) = Js.replace_spaces (File.name other) /\
  uploaded_names (trace w') =
    ["1717200000000-kelas_1.jpg"; "1717200000000-kelas_1.jpg"] /\
  ~ NoDup (map (stored_name_v1 1717200000000) files).
Proof.
  intros env other files w'.
  assert (Hne : files <> []) by discriminate.
  destruct (handleFileUpload_names_follow_the_clock env Sample.editor_v1 files "a1"
              1717200000000 eq_refl eq_refl Hne (fun _ => eq_refl)) as [Hn Hdup].
  split; [reflexivity|]. split; [exact Hne|]. split; [reflexivity|].
  split; [exact Hn|].
  exact (Hdup [] Sample.image [] other [] eq_refl eq_refl).
Defined.

End EarlierUploadOutcome.
(** ** More on the upload queue *)

Module QueueMore.
Import Run Select QueueFacts Queue QueueSteps EditorForm.

Lemma filter_all {A} (p : A -> bool) l :
  (forall x, In x l -> p x = true) -> filter p l = l.
Proof.
  induction l as [|x l IH]; intros H; cbn [filter]; [reflexivity|].
  rewrite (H x (or_introl eq_refl)). f_equal. apply IH. intros y Hy. apply H. now right.
Qed.

(** X23.  On a page reached from its mount, selecting an image and then
    removing the entry it got leaves the queue as it was before the
    selection. *)
Theorem select_then_remove_restores_the_queue :
  forall env (w : World Editor.state) (file : File.t),
    unique_uuids env ->
    reachable env w ->
    accepted file = true ->
    let id := randomUUID env (uuid_calls w) in
    let w1 := exec (Editor.handleFileSelect (Some [file])) env w in
    let w2 := exec (Editor.removeFileFromQueue id) env w1 in
    (exists entry,
       Editor.filesToUpload (st w1) = Editor.filesToUpload (st w) ++ [entry] /\
       UploadableFile.id entry = id /\
       UploadableFile.file entry = file /\
       UploadableFile.status entry = Status.queued) /\
    Editor.filesToUpload (st w2) = Editor.filesToUpload (st w).
Proof.
  intros env w file Huniq Hreach Hacc id w1 w2.
  destruct (handleFileSelect_run env [file] w)
    as (newFiles & evs & Hq & _ & _ & _ & _ & Hfiles & Hqueued & Hids & _).
  fold w1 in Hq.
  cbn [filter] in Hfiles. rewrite Hacc in Hfiles.
  destruct newFiles as [|entry [|x rest]]; try discriminate.
  cbn [map length seq] in Hfiles, Hids. inversion Hfiles as [Hfile].
  inversion Hids as [Hid]. inversion Hqueued as [|? ? Hst _]; subst.
  split.
  - exists entry. repeat split; assumption.
  - destruct (removeFileFromQueue_run env id w1) as (Hq2 & _).
    fold w2 in Hq2. rewrite Hq2, Hq, filter_app. cbn [filter].
    unfold Editor.has_id at 2. rewrite Hid. fold id. rewrite String.eqb_refl. cbn [negb].
    rewrite app_nil_r. apply filter_all. intros g Hg.
    apply negb_true_iff. apply has_id_false.
    destruct (reachable_invariant env w Huniq Hreach) as [_ Hdrawn _ _ _].
    destruct (Hdrawn g Hg) as (k & Hk & Ek). rewrite Ek. unfold id.
    intros E. apply Huniq in E. lia.
Qed.

Lemma select_then_remove_restores_the_queue_witness :
  let w := Sample.editor_with_image in
  let w1 := exec (Editor.handleFileSelect (Some [Sample.image2])) Sample.env w in
  let w2 := exec (Editor.removeFileFromQueue "uuid-i") Sample.env w1 in
  unique_uuids Sample.env /\
  reachable Sample.env w /\
  accepted Sample.image2 = true /\
  randomUUID Sample.env (uuid_calls w) = "uuid-i" /\
  length (Editor.filesToUpload (st w1)) = 2 /\
  Editor.filesToUpload (st w2) = Editor.filesToUpload (st w).
Proof.
  intros w w1 w2.
  assert (H1 : unique_uuids Sample.env) by apply QueueStatus.sample_unique_uuids.
  assert (H2 : reachable Sample.env w).
  { apply (reachable_step Sample.env (mount (Some "a1"))).
    - apply reachable_mount.
    - apply (step_handleFileSelect Sample.env (mount (Some "a1")) (Some [Sample.image])). }
  destruct (select_then_remove_restores_the_queue Sample.env w Sample.image2 H1 H2 eq_refl)
    as [_ H].
  split; [exact H1|]. split; [exact H2|]. split; [reflexivity|].
  split; [reflexivity|]. split; [reflexivity|exact H].
Defined.

(** X24.  On a page reached from its mount, an entry that a running upload
    has still to process shows as uploading, and the upload button is
    disabled. *)
Theorem upload_button_disabled_during_a_run :
  forall env (w : World Editor.state) (f : UploadableFile.t),
    unique_uuids env ->
    reachable env w ->
    In f (Editor.filesToUpload (st w)) ->
    In (UploadableFile.id f) (inflight (pending w)) ->
    UploadableFile.status f = Status.uploading /\
    isUploading (st w) = true /\
    uploadDisabled (st w) = true.
Proof.
  intros env w f Huniq Hreach Hin Hfl.
  destruct (reachable_invariant env w Huniq Hreach) as [_ _ _ _ Hup].
  pose proof (Hup f Hin Hfl) as Hst.
  assert (Hu : isUploading (st w) = true).
  { unfold isUploading. apply existsb_exists. exists f. split; [exact Hin|].
    now rewrite Hst. }
  split; [exact Hst|]. split; [exact Hu|].
  unfold uploadDisabled. now rewrite Hu.
Qed.

Lemma upload_button_disabled_during_a_run_witness :
  let w := exec Editor.handleUploadAll_click Sample.env Sample.editor_with_image in
  unique_uuids Sample.env /\
  reachable Sample.env w /\
  inflight (pending w) = ["uuid-"] /\
  map UploadableFile.id (Editor.filesToUpload (st w)) = ["uuid-"] /\
  uploadDisabled (st w) = true.
Proof.
  intros w.
  assert (H1 : unique_uuids Sample.env) by apply QueueStatus.sample_unique_uuids.
  assert (H2 : reachable Sample.env w).
  { apply (reachable_step Sample.env Sample.editor_with_image).
    - apply (reachable_step Sample.env (mount (Some "a1"))).
      + apply reachable_mount.
      + apply (step_handleFileSelect Sample.env (mount (Some "a1")) (Some [Sample.image])).
    - apply step_handleUploadAll. }
  split; [exact H1|]. split; [exact H2|]. split; [reflexivity|]. split; [reflexivity|].
  destruct (Editor.filesToUpload (st w)) as [|f l] eqn:Eq; [discriminate Eq|].
  assert (Hf : In f (Editor.filesToUpload (st w))) by (rewrite Eq; now left).
  assert (Hi : In (UploadableFile.id f) (inflight (pending w))).
  { vm_compute in Eq. inversion Eq; subst. vm_compute. now left. }
  exact (proj2 (proj2 (upload_button_disabled_during_a_run Sample.env w f H1 H2 Hf Hi))).
Defined.

End QueueMore.

(** ** Handlers without input *)

Module Guards.
Import Run.

(** X25.  A handler that finds nothing to work on returns at once: the
    selection without a file list, the upload of the queue and the load on a
    page without album id, the upload of the earlier revision without files,
    with an empty list of files or without album id, and the page of an album
    without id leave the world as it is.  A drop of no files, which hands over
    an empty list, is not among them: it ends the dragging and adds no entry,
    no toast and no call, but the queue is built anew, so the preview URL of
    every entry in it is revoked. *)
Theorem handlers_without_input_do_nothing :
  forall env,
    (forall w : World Editor.state,
       exec (Editor.handleFileSelect None) env w = w /\
       (let w' := exec (Editor.handleDrop (Some [])) env w in
        Editor.filesToUpload (st w') = Editor.filesToUpload (st w) /\
        Editor.isDragging (st w') = false /\
        toasts (trace w') = toasts (trace w) /\
        sdk_calls (trace w') = sdk_calls (trace w) /\
        revoked (trace w') =
          revoked (trace w) ++
          map UploadableFile.previewUrl (Editor.filesToUpload (st w)) /\
        pending w' = pending w) /\
       (Editor.isNew (st w) = true ->
        exec Editor.handleUploadAll env w = w /\
        exec Editor.fetchAlbumData env w = w)) /\
    (forall (w : World EditorV1.state) files,
       (files = None \/ files = Some [] \/
        match EditorV1.albumId (st w) with
        | Some a => Js.truthy a = false
        | None => True
        end) ->
       exec (EditorV1.handleFileUpload files) env w = w) /\
    (forall w : World AlbumDetail.state,
       match AlbumDetail.albumId (st w) with
       | Some a => Js.truthy a = false
       | None => True
       end ->
       exec AlbumDetail.fetchAlbumDetails env w = w).
Proof.
  intros env. split; [|split].
  - intros w. split; [reflexivity|]. split.
    { unfold exec, Editor.handleDrop, Editor.handleFileSelect, Editor.setIsDragging,
        Editor.clearFileInput, bind, setState.
      cbn [mapM ret Editor.notNull fst snd].
      rewrite setFilesToUpload_run.
      cbn [trace st uuid_calls url_calls pending snd fst Editor.filesToUpload
           Editor.isDragging Editor.put_filesToUpload].
      rewrite app_nil_r, toasts_app, sdk_calls_app, revoked_app, toasts_revocations,
        sdk_calls_revocations, revoked_revocations, !app_nil_r.
      repeat split. }
    intros Hnew. unfold Editor.isNew in Hnew.
    unfold exec, Editor.handleUploadAll, Editor.handleUploadAll_begin, Editor.fetchAlbumData,
      Editor.fetchAlbumData_begin, bind, getState, ret.
    destruct (Editor.albumId (st w)) as [a|]; [|split; reflexivity].
    apply negb_true_iff in Hnew. rewrite Hnew. split; reflexivity.
  - intros w files H. unfold exec, EditorV1.handleFileUpload, bind, getState, ret.
    destruct files as [[|f files]|]; destruct (EditorV1.albumId (st w)) as [a|];
      try reflexivity.
    destruct H as [H|[H|H]]; try discriminate. rewrite H. reflexivity.
  - intros w H. unfold exec, AlbumDetail.fetchAlbumDetails, bind, getState, ret.
    destruct (AlbumDetail.albumId (st w)) as [a|]; [rewrite H|]; reflexivity.
Qed.

Lemma handlers_without_input_do_nothing_witness :
  Editor.isNew (st Sample.editor_new) = true /\
  exec Editor.handleUploadAll Sample.env Sample.editor_new = Sample.editor_new /\
  exec Editor.fetchAlbumData Sample.env Sample.editor_new = Sample.editor_new /\
  exec (EditorV1.handleFileUpload (Some [])) Sample.env Sample.editor_v1 = Sample.editor_v1 /\
  revoked (trace (exec (Editor.handleDrop (Some [])) Sample.env Sample.editor_with_image)) =
    ["blob:"] /\
  map UploadableFile.previewUrl (Editor.filesToUpload (st Sample.editor_with_image)) =
    ["blob:"].
Proof.
  destruct (handlers_without_input_do_nothing Sample.env) as (H1 & H2 & _).
  destruct (H1 Sample.editor_new) as (_ & _ & H).
  destruct (H eq_refl) as [A B].
  destruct (H1 Sample.editor_with_image) as (_ & (_ & _ & _ & _ & Hrevoked & _) & _).
  split; [reflexivity|]. split; [exact A|]. split; [exact B|].
  split; [apply H2; right; left; reflexivity|].
  split; [exact Hrevoked|reflexivity].
Defined.

End Guards.

(** ** Login and logout *)

Module SessionForms.
Import Run PublicPages.

(** X26.  The login goes on to the dashboard, and the logout to the login
    page, if and only if the backend answered without error; the login form
    keeps what was typed and ends with its button released, the logout leaves
    the page as it is. *)
Theorem login_and_logout_navigate_on_success :
  forall env,
    (forall w : World Login.state,
       let error :=
         respond env _ (trace w)
           (Sdk.auth_signInWithPassword (Login.email (st w)) (Login.password (st w))) in
       let w' := exec Login.handleLogin env w in
       navigations (trace w') =
         navigations (trace w) ++ (if is_some error then [] else ["/admin"]) /\
       Login.loading (st w') = false /\
       Login.email (st w') = Login.email (st w) /\
       Login.password (st w') = Login.password (st w) /\
       pending w' = pending w) /\
    (forall (S : Type) (w : World S),
       let error := respond env _ (trace w) Sdk.auth_signOut in
       let w' := exec handleLogout env w in
       navigations (trace w') =
         navigations (trace w) ++ (if is_some error then [] else ["/admin/login"]) /\
       st w' = st w /\
       pending w' = pending w).
Proof.
  intros env. split.
  - intros w. cbv zeta.
    unfold exec, Login.handleLogin, Login.setLoading, bind, setState, getState, call.
    cbn [trace st uuid_calls url_calls pending fst snd Login.email Login.password].
    destruct (respond env (option Error) (trace w)
                (Sdk.auth_signInWithPassword (Login.email (st w)) (Login.password (st w))))
      as [e|]; cbn; rewrite ?navigations_app; cbn; rewrite ?app_nil_r; auto.
  - intros S w. cbv zeta. unfold exec, handleLogout, bind, call.
    cbn [trace st uuid_calls url_calls pending fst snd].
    destruct (respond env (option Error) (trace w) Sdk.auth_signOut) as [e|];
      cbn; rewrite ?navigations_app; cbn; rewrite ?app_nil_r; auto.
Qed.

End SessionForms.

(** ** What is typed into the form of the album *)

Module TypedFields.
Import Run Forms EditorForm EditorFacts.

Lemma typed_state env (w : World Editor.state) title description :
  exec (changeTitle title ;; changeDescription description) env w =
  {| trace := trace w; uuid_calls := uuid_calls w; url_calls := url_calls w;
     pending := pending w;
     st := {| Editor.albumId := Editor.albumId (st w);
              Editor.album := with_description description
                                (with_title title (Editor.album (st w)));
              Editor.photos := Editor.photos (st w);
              Editor.captions := Editor.captions (st w);
              Editor.loading := Editor.loading (st w);
              Editor.saving := Editor.saving (st w);
              Editor.isDragging := Editor.isDragging (st w);
              Editor.filesToUpload := Editor.filesToUpload (st w);
              Editor.fileInput := Editor.fileInput (st w) |} |}.
Proof. reflexivity. Qed.

(** X27.  What the admin typed into the title and the description inputs is
    what the save sends: an album without id is inserted, and an album with
    an id updated, with that title and that description, the update being
    followed by the updates of the captions the page holds; the typing itself
    sends nothing. *)
Theorem handleAlbumSave_sends_what_was_typed :
  forall env (w : World Editor.state) (title description : string),
    Js.truthy title = true ->
    let w1 := exec (changeTitle title ;; changeDescription description) env w in
    let w' := exec Editor.handleAlbumSave env w1 in
    trace w1 = trace w /\
    if Editor.isNew (st w)
    then
      exists r,
        sdk_calls (trace w') =
          sdk_calls (trace w) ++
          [EvCall (Sdk.albums_insert (Some title) (Some (Some description))) r]
    else
      exists r updates,
        sdk_calls (trace w') =
          sdk_calls (trace w) ++
          EvCall (Sdk.albums_update (Editor.albumId (st w)) (Some title)
                    (Some (Some description))) r :: updates /\
        Permutation (caption_updates updates) (Editor.captions (st w)).
Proof.
  intros env w title description Htruthy w1 w'.
  split; [reflexivity|].
  subst w' w1. rewrite typed_state.
  set (w1 := {| trace := trace w; uuid_calls := _ |}).
  assert (Ht : PartialAlbum.title (Editor.album (st w1)) = Some title) by reflexivity.
  assert (Hnew1 : Editor.isNew (st w1) = Editor.isNew (st w)) by reflexivity.
  destruct (Editor.isNew (st w)) eqn:Hnew.
  - destruct (handleAlbumSave_create_run env w1 title Hnew1 Ht Htruthy) as (r & Hc & _).
    exists r. exact Hc.
  - destruct (handleAlbumSave_update_full env w1 title Hnew1 Ht Htruthy)
      as (albumResult & evs & tail & E & Hc & Hu & _ & Hct & _).
    exists albumResult, evs. unfold exec. rewrite E. cbn [snd trace].
    split.
    + rewrite sdk_calls_app. cbn [sdk_calls filter is_call].
      change (filter is_call) with sdk_calls.
      rewrite sdk_calls_app, Hc, Hct, app_nil_r. reflexivity.
    + rewrite Hu. reflexivity.
Qed.

Lemma handleAlbumSave_sends_what_was_typed_witness :
  let w1 :=
    exec (changeTitle "Pentas Seni" ;; changeDescription "Aula sekolah")
      Sample.env Sample.editor_new in
  Js.truthy "Pentas Seni" = true /\
  Editor.isNew (st Sample.editor_new) = true /\
  exists r,
    sdk_calls (trace (exec Editor.handleAlbumSave Sample.env w1)) =
      [EvCall (Sdk.albums_insert (Some "Pentas Seni") (Some (Some "Aula sekolah"))) r].
Proof.
  intros w1. split; [reflexivity|]. split; [reflexivity|].
  exact (proj2 (handleAlbumSave_sends_what_was_typed Sample.env Sample.editor_new
                  "Pentas Seni" "Aula sekolah" eq_refl)).
Defined.

End TypedFields.
